(** * PHX Data Canal: the filtering-and-derivation core

    A shallow embedding of the pure computations of the dashboard
    (the [useMemo] bodies of [App], [TopEmployersChart], [TopKeywords]
    and [PostingFreshness], and the helpers [avgWage] and
    [getUniqueValues]) together with the properties the specification
    states about them.

    Conventions.
    - A JavaScript string is its sequence of UTF-16 code units.
    - A JavaScript number is a double: a finite one is held by its exact
      value, a rational, and every sum and quotient is rounded to the
      nearest double, ties to even, as ECMAScript's Number::add and
      Number::divide do.  The [wage] field holds the exact value of the
      wage.  Counts and lengths are natural numbers.
    - The host's time zone is ECMAScript's LocalTZA, a function of the
      instant.
    - A [Map<string, number>] is an association list in insertion order,
      which is the order [entries()] enumerates.
    - A [Set<string>] that is only queried with [has] and [size] is a
      [gset]; one that is iterated is a list in insertion order. *)

From Stdlib Require Import ZArith QArith Qround Lqa List String Ascii Bool Lia.
From Stdlib Require SpecFloat.
From stdpp Require Import base list gmap sets sorting.

Local Open Scope Z_scope.

(** ** Strings *)

Module JsString.

Definition jsstring := list N.

(** The code units of an ASCII literal. *)
Definition js (s : string) : jsstring :=
  List.map N_of_ascii (list_ascii_of_string s).

(** [a === b] on strings. *)
Definition str_eqb (a b : jsstring) : bool := bool_decide (a = b).

(** [a < b] on strings: lexicographic on code units, a proper prefix
    comes first. *)
Fixpoint str_ltb (a b : jsstring) : bool :=
  match a, b with
  | [], [] => false
  | [], _ :: _ => true
  | _ :: _, [] => false
  | x :: a', y :: b' =>
      if (x <? y)%N then true
      else if (y <? x)%N then false
      else str_ltb a' b'
  end.

(** [a >= b] and [a <= b]. *)
Definition str_geb (a b : jsstring) : bool := negb (str_ltb a b).
Definition str_leb (a b : jsstring) : bool := negb (str_ltb b a).

(** [s.startsWith(p)] *)
Fixpoint startsWith (s p : jsstring) : bool :=
  match p, s with
  | [], _ => true
  | _ :: _, [] => false
  | y :: p', x :: s' => (x =? y)%N && startsWith s' p'
  end.

(** [s.includes(p)] *)
Fixpoint includes (s p : jsstring) : bool :=
  startsWith s p ||
  match s with
  | [] => false
  | _ :: s' => includes s' p
  end.

(** WhiteSpace and LineTerminator code units: what [\s] matches and
    what [trim] strips. *)
Definition isWhiteSpace (c : N) : bool :=
  ((9 <=? c) && (c <=? 13) || (c =? 32) || (c =? 160) || (c =? 5760)
   || (8192 <=? c) && (c <=? 8202) || (c =? 8232) || (c =? 8233)
   || (c =? 8239) || (c =? 8287) || (c =? 12288) || (c =? 65279))%N.

Fixpoint trimStart (s : jsstring) : jsstring :=
  match s with
  | c :: s' => if isWhiteSpace c then trimStart s' else s
  | [] => []
  end.

Definition trim (s : jsstring) : jsstring :=
  rev (trimStart (rev (trimStart s))).

Definition isUpperAscii (c : N) : bool := ((65 <=? c) && (c <=? 90))%N.
Definition isLowerAscii (c : N) : bool := ((97 <=? c) && (c <=? 122))%N.
Definition isAsciiLetter (c : N) : bool := isUpperAscii c || isLowerAscii c.
Definition isDigit (c : N) : bool := ((48 <=? c) && (c <=? 57))%N.

(** [\w] *)
Definition isWordChar (c : N) : bool :=
  isAsciiLetter c || isDigit c || (c =? 95)%N.

(** [toLowerCase] and [toUpperCase] of one code unit of [\w]: outside
    the ASCII letters nothing changes. *)
Definition lowerAscii (c : N) : N := if isUpperAscii c then (c + 32)%N else c.
Definition upperAscii (c : N) : N := if isLowerAscii c then (c - 32)%N else c.

(** [parts.join(' ')] *)
Fixpoint join (sep : jsstring) (parts : list jsstring) : jsstring :=
  match parts with
  | [] => []
  | [p] => p
  | p :: rest => p ++ sep ++ join sep rest
  end.

End JsString.
Import JsString.

(** ** Records (types.ts) *)

Record JobRecord := mkJob {
  id : Z;
  jobTitle : jsstring;
  employer : jsstring;
  location : jsstring;
  datePosted : jsstring;
  status : jsstring;
  wage : option Q;
  category : jsstring;
  occupationName : jsstring;
  soc : jsstring;
  url : jsstring
}.

#[global] Instance Q_eq_dec : EqDecision Q.
Proof. solve_decision. Defined.

#[global] Instance JobRecord_eq_dec : EqDecision JobRecord.
Proof. solve_decision. Defined.

(** ** Helpers *)

(** [r.wage != null && r.wage > 0] *)
Definition hasWage (r : JobRecord) : bool :=
  match wage r with
  | Some w => negb (Qle_bool w 0)
  | None => false
  end.

(** [r.wage!] read as a number: [s + null] is [s]. *)
Definition wageNum (r : JobRecord) : Q :=
  match wage r with
  | Some w => w
  | None => 0%Q
  end.

(** *** Numbers *)

Module JsNumber.

(** A Number: a finite double by its exact value, an infinity, or NaN.
    Zero is held once, as [Fin 0]: of all the numbers of this program
    only [-0] would tell the two zeros apart, and nothing it computes is
    negative. *)
Inductive Number :=
| Fin (q : Q)
| Inf (negative : bool)
| NaN.

(** 2 to the [e], for any integer [e]. *)
Definition pow2 (e : Z) : Q :=
  if 0 <=? e then inject_Z (2 ^ e) else 1 # Z.to_pos (2 ^ (- e)).

(** The fraction [a / b] divided by 2 to the [e], as a fraction. *)
Definition scaled (a b e : Z) : Z * Z :=
  if e <=? 0 then (a * 2 ^ (- e), b) else (a, b * 2 ^ e).

(** The exponent [E] of the power of two with
    [2 ^ E <= a / b < 2 ^ (E + 1)], for positive [a] and [b]. *)
Definition binade (a b : Z) : Z :=
  let l := Z.log2 a - Z.log2 b in
  let '(n, d) := scaled a b l in
  if d <=? n then l else l - 1.

(** The integer nearest to [n / d]; of two equally near, the even one. *)
Definition roundHalfEven (n d : Z) : Z :=
  let f := n / d in
  match 2 * (n mod d) ?= d with
  | Lt => f
  | Gt => f + 1
  | Eq => if Z.even f then f else f + 1
  end.

(** The Number value of a positive fraction [a / b]: the nearest
    multiple of 2 to the [e], where [e] makes the significand one of 53
    bits, or is -1074 for the subnormal numbers; what reaches 2 to the
    1024 is [Infinity]. *)
Definition magnitude (a b : Z) : Number :=
  let e := Z.max (binade a b - 52) (-1074) in
  let '(n, d) := scaled a b e in
  let v := (inject_Z (roundHalfEven n d) * pow2 e)%Q in
  if Qle_bool (pow2 1024) v then Inf false else Fin (Qred v).

Definition negate (x : Number) : Number :=
  match x with
  | Fin q => Fin (- q)
  | Inf s => Inf (negb s)
  | NaN => NaN
  end.

(** The Number value for a real number (ECMAScript 6.1.6.1): the double
    nearest to it, the one with an even significand when two are equally
    near; finite doubles are kept in lowest terms. *)
Definition NumberValue (x : Q) : Number :=
  let x' := Qred x in
  match Qnum x' with
  | 0 => Fin 0
  | Zpos a => magnitude (Zpos a) (QDen x')
  | Zneg a => negate (magnitude (Zpos a) (QDen x'))
  end.

Definition isNegative (q : Q) : bool := Qnum q <? 0.

(** [x + y] (Number::add) *)
Definition add (x y : Number) : Number :=
  match x, y with
  | NaN, _ | _, NaN => NaN
  | Inf s, Inf s' => if Bool.eqb s s' then Inf s else NaN
  | Inf s, Fin _ | Fin _, Inf s => Inf s
  | Fin a, Fin b => NumberValue (a + b)
  end.

(** [x / y] (Number::divide) *)
Definition div (x y : Number) : Number :=
  match x, y with
  | NaN, _ | _, NaN => NaN
  | Inf _, Inf _ => NaN
  | Inf s, Fin b => Inf (xorb s (isNegative b))
  | Fin _, Inf _ => Fin 0
  | Fin a, Fin b =>
      if Qeq_bool b 0 then (if Qeq_bool a 0 then NaN else Inf (isNegative a))
      else NumberValue (a / b)
  end.

(** [Math.round]: the nearest integer, halves go up; an infinity and
    NaN are returned as they are. *)
Definition Math_round (x : Number) : Number :=
  match x with
  | Fin q => Fin (inject_Z (Qfloor (q + (1 # 2))))
  | _ => x
  end.

(** The length of an array, a whole number below 2 to the 32, as a
    Number. *)
Definition ofLength (n : nat) : Number := Fin (inject_Z (Z.of_nat n)).

(** A Number in the binary64 format of the library's specification of
    IEEE 754 arithmetic. *)
Definition toSpecFloat (x : Number) : SpecFloat.spec_float :=
  match x with
  | Fin q =>
      SpecFloat.binary_normalize 53 1024 (Qnum q) (- Z.log2 (QDen q)) false
  | Inf s => SpecFloat.S754_infinity s
  | NaN => SpecFloat.S754_nan
  end.

#[global] Instance spec_float_eq_dec : EqDecision SpecFloat.spec_float.
Proof. solve_decision. Defined.

End JsNumber.
Import JsNumber.

Definition avgWage (arr : list JobRecord) : Number :=
  let withWage := List.filter hasWage arr in
  if (length withWage =? 0)%nat then Fin 0
  else Math_round
         (div (fold_left (fun s r => add s (Fin (wageNum r))) withWage (Fin 0))
              (ofLength (length withWage))).

(** ** Counting maps and ranking *)

Module CountMap.
Section Counting.
Context {K : Type} `{EqDecision K}.

(** [counts.set(k, (counts.get(k) || 0) + 1)]: an existing key keeps its
    place, a new key goes last. *)
Fixpoint bump (k : K) (m : list (K * nat)) : list (K * nat) :=
  match m with
  | [] => [(k, 1%nat)]
  | (k', c) :: m' =>
      if decide (k' = k) then (k', S c) :: m' else (k', c) :: bump k m'
  end.

(** [counts.get(k) || 0] *)
Fixpoint getCount (k : K) (m : list (K * nat)) : nat :=
  match m with
  | [] => 0%nat
  | (k', c) :: m' => if decide (k' = k) then c else getCount k m'
  end.

(** [for (const j of data) counts.set(key(j), ...)] *)
Definition countBy {A : Type} (key : A -> K) (data : list A) : list (K * nat) :=
  fold_left (fun m j => bump (key j) m) data [].

(** [.sort((a, b) => b[1] - a[1])].  [Array.prototype.sort] is stable,
    and a stable sort by a consistent comparator has one result; this
    insertion sort computes it.  The new entry comes from the left of
    the ones already placed, so it goes in front of every entry whose
    count is not strictly larger. *)
Fixpoint insertDesc (x : K * nat) (l : list (K * nat)) : list (K * nat) :=
  match l with
  | [] => [x]
  | y :: l' =>
      if (snd x <? snd y)%nat then y :: insertDesc x l' else x :: y :: l'
  end.

Fixpoint sortDesc (l : list (K * nat)) : list (K * nat) :=
  match l with
  | [] => []
  | x :: l' => insertDesc x (sortDesc l')
  end.

(** The group-by-count ranking shared by the charts. *)
Definition rank {A : Type} (key : A -> K) (data : list A) : list (K * nat) :=
  sortDesc (countBy key data).

End Counting.
End CountMap.
Import CountMap.

(** [topEmployers] of [TopEmployersChart]: the ranking, [.slice(0, 8)]. *)
Definition topEmployers (data : list JobRecord) : list (jsstring * nat) :=
  firstn 8 (rank employer data).

(** [categories] of [App] and the segments of [CategoryBreakdown] rank
    the same way, without the slice. *)
Definition categories (jobs : list JobRecord) : list (jsstring * nat) :=
  rank category jobs.

(** ** Top job phrases *)

Module Keywords.

Definition stopWords : list jsstring :=
  List.map js
    ["the"; "and"; "for"; "with"; "from"; "that"; "this"; "will"; "are";
     "not"; "but"; "have"; "has"; "been"; "its"; "also"; "into"; "over";
     "upon"; "senior"; "principal"; "lead"; "staff"; "junior"; "associate";
     "level"; "iii"; "remote"]%string.

(** [/[-–/,()]/]: hyphen, en dash, slash, comma, parentheses. *)
Definition isSeparator (c : N) : bool :=
  ((c =? 45) || (c =? 8211) || (c =? 47) || (c =? 44) || (c =? 40)
   || (c =? 41))%N.

(** [.split(/\s+/)]: cut at every maximal run of white space; a run at
    either end leaves an empty piece there, and the empty string gives
    one empty piece. *)
Fixpoint splitWs (s cur : jsstring) (inRun : bool) : list jsstring :=
  match s with
  | [] => [rev cur]
  | c :: s' =>
      if isWhiteSpace c then
        if inRun then splitWs s' cur true
        else rev cur :: splitWs s' [] true
      else splitWs s' (c :: cur) false
  end.

(** After the second [replace] a word holds ASCII letters only, where
    [toLowerCase] is [lowerAscii] on each code unit. *)
Definition cleanTitle (title : jsstring) : list jsstring :=
  let s1 := List.map (fun c => if isSeparator c then 32%N else c) title in
  let s2 := List.filter (fun c => isAsciiLetter c || isWhiteSpace c) s1 in
  let ws := List.map (List.map lowerAscii) (splitWs s2 [] false) in
  List.filter
    (fun w => (1 <? length w)%nat && negb (bool_decide (w ∈ stopWords))) ws.

(** The phrases of one length: [i] from [0] while [i <= words.length - n]. *)
Definition ngrams (words : list jsstring) (n : nat) : list jsstring :=
  List.map (fun i => join [32%N] (firstn n (skipn i words)))
           (seq 0 (S (length words) - n)).

(** All phrases of a title in the order the two loops visit them. *)
Definition titlePhrases (words : list jsstring) : list jsstring :=
  flat_map (ngrams words) [2; 3; 4]%nat.

(** One step of the inner loop; the state is [phraseCounts] and [seen]. *)
Definition countPhrase (st : list (jsstring * nat) * list jsstring)
    (phrase : jsstring) : list (jsstring * nat) * list jsstring :=
  let '(pc, seen) := st in
  if bool_decide (phrase ∈ seen) then st
  else (bump phrase pc, seen ++ [phrase]).

(** The body of [for (const j of data)]. *)
Definition countTitle (pc : list (jsstring * nat)) (j : JobRecord)
    : list (jsstring * nat) :=
  fst (fold_left countPhrase (titlePhrases (cleanTitle (jobTitle j))) (pc, [])).

Definition phraseCounts (data : list JobRecord) : list (jsstring * nat) :=
  fold_left countTitle data [].

Definition candidates (data : list JobRecord) : list (jsstring * nat) :=
  sortDesc (List.filter (fun e => (2 <=? snd e)%nat) (phraseCounts data)).

(** [selected.find(([p]) => p === existing)?.[1] ?? 0] *)
Definition existingCountOf (selected : list (jsstring * nat))
    (existing : jsstring) : nat :=
  match List.find (fun e => str_eqb (fst e) existing) selected with
  | Some e => snd e
  | None => 0%nat
  end.

(** [for (const existing of covered)], with its two [break]s. *)
Fixpoint dominatedBy (selected : list (jsstring * nat)) (phrase : jsstring)
    (count : nat) (covered : list jsstring) : bool :=
  match covered with
  | [] => false
  | existing :: rest =>
      if includes existing phrase || includes phrase existing then
        let existingCount := existingCountOf selected existing in
        if includes existing phrase then true
        else if includes phrase existing && (existingCount <=? count)%nat
        then true
        else dominatedBy selected phrase count rest
      else dominatedBy selected phrase count rest
  end.

(** [for (const [phrase, count] of candidates)], leaving at 15. *)
Fixpoint selectLoop (cands selected : list (jsstring * nat))
    (covered : list jsstring) : list (jsstring * nat) :=
  match cands with
  | [] => selected
  | (phrase, count) :: rest =>
      let dominated := dominatedBy selected phrase count covered in
      let selected' :=
        if dominated then selected else selected ++ [(phrase, count)] in
      let covered' := if dominated then covered else covered ++ [phrase] in
      if (15 <=? length selected')%nat then selected'
      else selectLoop rest selected' covered'
  end.

Definition selected (data : list JobRecord) : list (jsstring * nat) :=
  selectLoop (candidates data) [] [].

(** [phrase.replace(/\b\w/g, (c) => c.toUpperCase())]: a word character
    with no word character before it. *)
Fixpoint titleCaseFrom (prevWord : bool) (s : jsstring) : jsstring :=
  match s with
  | [] => []
  | c :: s' =>
      (if isWordChar c && negb prevWord then upperAscii c else c)
        :: titleCaseFrom (isWordChar c) s'
  end.

Definition titleCase (s : jsstring) : jsstring := titleCaseFrom false s.

(** [keywords] of [TopKeywords]. *)
Definition keywords (data : list JobRecord) : list (jsstring * nat) :=
  List.map (fun e => (titleCase (fst e), snd e)) (selected data).

End Keywords.
Import Keywords.

(** ** Dates *)

Module JsDate.

Definition msPerDay : Z := 86400000.
Definition msPerMinute : Z := 60000.

(** Day number of a civil date of the proleptic Gregorian calendar, day 0
    being 1970-01-01; [m] counts from 1. *)
Definition daysFromCivil (y m d : Z) : Z :=
  let y' := if m <=? 2 then y - 1 else y in
  let era := y' / 400 in
  let yoe := y' - era * 400 in
  let mp := (m + 9) mod 12 in
  let doy := (153 * mp + 2) / 5 + d - 1 in
  let doe := yoe * 365 + yoe / 4 - yoe / 100 + doy in
  era * 146097 + doe - 719468.

(** The civil date (year, month from 1, day) of a day number. *)
Definition civilFromDays (z : Z) : Z * Z * Z :=
  let z' := z + 719468 in
  let era := z' / 146097 in
  let doe := z' - era * 146097 in
  let yoe := (doe - doe / 1460 + doe / 36524 - doe / 146096) / 365 in
  let doy := doe - (365 * yoe + yoe / 4 - yoe / 100) in
  let mp := (5 * doy + 2) / 153 in
  let d := doy - (153 * mp + 2) / 5 + 1 in
  let m := if mp <? 10 then mp + 3 else mp - 9 in
  let y := yoe + era * 400 in
  (if m <=? 2 then y + 1 else y, m, d).

Definition Day (t : Z) : Z := t / msPerDay.
Definition TimeWithinDay (t : Z) : Z := t mod msPerDay.
Definition YearFromTime (t : Z) : Z := fst (fst (civilFromDays (Day t))).
(** Months count from 0 here, as in ECMAScript. *)
Definition MonthFromTime (t : Z) : Z := snd (fst (civilFromDays (Day t))) - 1.
Definition DateFromTime (t : Z) : Z := snd (civilFromDays (Day t)).

(** [MakeDay] for a month in range: the day number of the first of the
    month, plus [date - 1]; [date] may be zero or negative. *)
Definition MakeDay (year month date : Z) : Z :=
  daysFromCivil year (month + 1) 1 + date - 1.
Definition MakeDate (day time : Z) : Z := day * msPerDay + time.

Section Host.
(** ECMAScript's LocalTZA(t, isUTC): the offset of the host's local time
    from UTC in milliseconds, positive east of Greenwich, at the instant
    [t] when [isUTC] is true, at the local time [t] when it is false. *)
Variable LocalTZA : Z -> bool -> Z.

Definition LocalTime (t : Z) : Z := t + LocalTZA t true.
Definition UTC (t : Z) : Z := t - LocalTZA t false.

(** [new Date('YYYY-MM-DDT00:00:00')]: no offset in the string, so the
    fields are local time. *)
Definition localMidnight (y m d : Z) : Z := UTC (MakeDate (MakeDay y (m - 1) d) 0).

Definition getDate (t : Z) : Z := DateFromTime (LocalTime t).

(** [setDate(dt)]; [TimeClip] changes no instant of this century. *)
Definition setDate (t dt : Z) : Z :=
  let lt := LocalTime t in
  UTC (MakeDate (MakeDay (YearFromTime lt) (MonthFromTime lt) dt)
                (TimeWithinDay lt)).
End Host.

(** A host that keeps one offset of [tz] minutes at all times. *)
Definition fixedOffset (tz : Z) : Z -> bool -> Z :=
  fun _ _ => tz * msPerMinute.

(** Decimal digits, least significant last, padded to [width]. *)
Fixpoint digits (width : nat) (n : Z) : jsstring :=
  match width with
  | O => []
  | S w => digits w (n / 10) ++ [Z.to_N (48 + n mod 10)]
  end.

(** [d.toISOString().slice(0, 10)]: the UTC fields; four digits for the
    years 0 to 9999, a sign and six digits otherwise, and then the slice
    ends inside the month. *)
Definition toISODate (t : Z) : jsstring :=
  let '(y, m, d) := civilFromDays (Day t) in
  let year :=
    if (0 <=? y) && (y <=? 9999) then digits 4 y
    else (if y <? 0 then 45%N else 43%N) :: digits 6 (Z.abs y) in
  firstn 10 (year ++ [45%N] ++ digits 2 m ++ [45%N] ++ digits 2 d).

End JsDate.
Import JsDate.

(** ** Posting freshness *)

Module Freshness.

(** A range of the chart; [maxDays = None] is [Infinity].  The colour
    fields are carried through to the painting code untouched and are
    left out. *)
Record Range := mkRange { label : jsstring; maxDays : option Z }.

Record Bucket := mkBucket { range : Range; count : nat }.

Definition enDash : jsstring := [8211%N].

Definition ranges : list Range :=
  [ mkRange (js "Last 5 days") (Some 5);
    mkRange (js "6" ++ enDash ++ js "10 days") (Some 10);
    mkRange (js "11" ++ enDash ++ js "30 days") (Some 30);
    mkRange (js "31" ++ enDash ++ js "60 days") (Some 60);
    mkRange (js "60+ days") None ].

(** [ranges[ranges.indexOf(r) - 1]?.maxDays ?? 0].  Only the last range
    is unbounded and nothing follows it, so the unbounded case of the
    previous range is never read. *)
Definition prevMaxOf (i : nat) : Z :=
  match i with
  | O => 0
  | S k =>
      match ranges !! k with
      | Some r => default 0 (maxDays r)
      | None => 0
      end
  end.

Section Host.
Variable LocalTZA : Z -> bool -> Z.

(** [new Date('2026-02-27T00:00:00')] *)
Definition today : Z := localMidnight LocalTZA 2026 2 27.

(** [cutoff.setDate(cutoff.getDate() - r.maxDays); cutoff.toISOString().slice(0, 10)] *)
Definition cutoffStr (maxDays : Z) : jsstring :=
  toISODate (setDate LocalTZA today (getDate LocalTZA today - maxDays)).

(** [prevMax > 0 ? new Date(today.getTime() - prevMax * 86400000).toISOString().slice(0, 10) : ''] *)
Definition prevStr (prevMax : Z) : jsstring :=
  if 0 <? prevMax then toISODate (today - prevMax * 86400000) else [].

(** The predicate of [remaining.filter] for a bounded range. *)
Definition matches (maxDays prevMax : Z) (j : JobRecord) : bool :=
  if prevMax =? 0 then str_geb (datePosted j) (cutoffStr maxDays)
  else str_geb (datePosted j) (cutoffStr maxDays)
       && str_ltb (datePosted j) (prevStr prevMax).

(** The callback of [ranges.map]; [remaining] is threaded through.
    [matching.includes(j)] compares objects; records are values here, and
    a value equal to one the filter took has the same [datePosted], so
    it was taken too: either way a record leaves [remaining] exactly
    when the filter took it. *)
Definition bucketStep (remaining : list JobRecord) (i : nat) (r : Range)
    : list JobRecord * Bucket :=
  match maxDays r with
  | None => ([], mkBucket r (length remaining))
  | Some d =>
      let matching := List.filter (matches d (prevMaxOf i)) remaining in
      (List.filter (fun j => negb (bool_decide (j ∈ matching))) remaining,
       mkBucket r (length matching))
  end.

Fixpoint bucketLoop (remaining : list JobRecord) (i : nat) (rs : list Range)
    : list Bucket :=
  match rs with
  | [] => []
  | r :: rs' =>
      let '(remaining', b) := bucketStep remaining i r in
      b :: bucketLoop remaining' (S i) rs'
  end.

(** [buckets] of [PostingFreshness]. *)
Definition buckets (data : list JobRecord) : list Bucket :=
  bucketLoop data 0 ranges.

End Host.
End Freshness.
Import Freshness.

(** ** The filter pipeline *)

Module Pipeline.

(** [set.add(v)] on a set kept in insertion order. *)
Definition setAdd (v : jsstring) (set : list jsstring) : list jsstring :=
  if bool_decide (v ∈ set) then set else set ++ [v].

(** The filter state of [App]. *)
Record FilterState := mkFilterState {
  activeCategory : option jsstring;
  selectedEmployers : gset jsstring;
  selectedLocations : gset jsstring;
  selectedStatuses : gset jsstring;
  wageFilter : jsstring;
  dateFrom : jsstring;
  dateTo : jsstring;
  searchText : jsstring
}.

(** A string in a condition: the empty string is false. *)
Definition truthy (s : jsstring) : bool :=
  match s with [] => false | _ => true end.

(** The [switch (wageFilter)]; a tag with no [case] filters nothing. *)
Definition wageBand (tag : jsstring) (j : JobRecord) : bool :=
  if str_eqb tag (js "listed") then
    match wage j with Some w => negb (Qle_bool w 0) | None => false end
  else if str_eqb tag (js "unlisted") then
    match wage j with Some w => Qeq_bool w 0 | None => true end
  else if str_eqb tag (js "150k+") then
    match wage j with Some w => Qle_bool 150000 w | None => false end
  else if str_eqb tag (js "100k-150k") then
    match wage j with
    | Some w => Qle_bool 100000 w && negb (Qle_bool 150000 w)
    | None => false
    end
  else if str_eqb tag (js "50k-100k") then
    match wage j with
    | Some w => Qle_bool 50000 w && negb (Qle_bool 100000 w)
    | None => false
    end
  else if str_eqb tag (js "under50k") then
    match wage j with
    | Some w => negb (Qle_bool w 0) && negb (Qle_bool 50000 w)
    | None => false
    end
  else true.

(** The setters [setWageFilter], [setDateFrom] and [setDateTo] of [App]. *)
Definition setWageFilter (tag : jsstring) (fs : FilterState) : FilterState :=
  mkFilterState (activeCategory fs) (selectedEmployers fs)
    (selectedLocations fs) (selectedStatuses fs) tag (dateFrom fs)
    (dateTo fs) (searchText fs).

Definition setDateFrom (d : jsstring) (fs : FilterState) : FilterState :=
  mkFilterState (activeCategory fs) (selectedEmployers fs)
    (selectedLocations fs) (selectedStatuses fs) (wageFilter fs) d
    (dateTo fs) (searchText fs).

Definition setDateTo (d : jsstring) (fs : FilterState) : FilterState :=
  mkFilterState (activeCategory fs) (selectedEmployers fs)
    (selectedLocations fs) (selectedStatuses fs) (wageFilter fs)
    (dateFrom fs) d (searchText fs).

Section Host.
(** [Array.prototype.sort] with [localeCompare], and
    [String.prototype.toLowerCase]: both depend on the host's Unicode
    tables and are taken as given. *)
Variable localeSort : list jsstring -> list jsstring.
Variable toLowerCase : jsstring -> jsstring.

Definition getUniqueValues (data : list JobRecord)
    (field : JobRecord -> jsstring) : list jsstring :=
  localeSort
    (fold_left
       (fun set r =>
          let v := trim (field r) in
          if truthy v then setAdd v set else set)
       data []).

Definition step (cond : bool) (p : JobRecord -> bool) (data : list JobRecord)
    : list JobRecord :=
  if cond then List.filter p data else data.

(** [filteredJobs] of [App]; [jobs] is the record store. *)
Definition filteredJobs (jobs : list JobRecord) (fs : FilterState)
    : list JobRecord :=
  let allEmployers := getUniqueValues jobs employer in
  let allLocations := getUniqueValues jobs location in
  let allStatuses := getUniqueValues jobs status in
  let data := jobs in
  let data :=
    match activeCategory fs with
    | Some c => step (truthy c) (fun j => str_eqb (category j) c) data
    | None => data
    end in
  let data :=
    step (size (selectedEmployers fs) <? length allEmployers)%nat
         (fun j => bool_decide (employer j ∈ selectedEmployers fs)) data in
  let data :=
    step (size (selectedLocations fs) <? length allLocations)%nat
         (fun j => bool_decide (location j ∈ selectedLocations fs)) data in
  let data :=
    step (size (selectedStatuses fs) <? length allStatuses)%nat
         (fun j => bool_decide (status j ∈ selectedStatuses fs)) data in
  let data :=
    step (negb (str_eqb (wageFilter fs) (js "all")))
         (wageBand (wageFilter fs)) data in
  let data :=
    step (truthy (dateFrom fs))
         (fun j => str_geb (datePosted j) (dateFrom fs)) data in
  let data :=
    step (truthy (dateTo fs))
         (fun j => str_leb (datePosted j) (dateTo fs)) data in
  let data :=
    step (truthy (trim (searchText fs)))
         (fun j =>
            let q := toLowerCase (searchText fs) in
            includes (toLowerCase (jobTitle j)) q
            || includes (toLowerCase (employer j)) q
            || includes (toLowerCase (location j)) q) data in
  data.

(** The initial state of [App]: [new Set(allEmployers)] and so on,
    ['all'], and empty strings. *)
Definition initialState (jobs : list JobRecord) : FilterState :=
  mkFilterState None
    (list_to_set (getUniqueValues jobs employer))
    (list_to_set (getUniqueValues jobs location))
    (list_to_set (getUniqueValues jobs status))
    (js "all") [] [] [].

End Host.
End Pipeline.
Import Pipeline.

(** ** What the specification speaks of *)

Module Spec.

Section Groups.
Context {A K : Type} `{EqDecision K}.
Variable key : A -> K.

(** The number of records of the subset that carry the value. *)
Definition occurrences (k : K) (data : list A) : nat :=
  length (List.filter (fun j => bool_decide (key j = k)) data).

(** The position at which the value is first met when the subset is read
    in its given order; the length of the subset when it is never met. *)
Fixpoint firstSeen (k : K) (data : list A) : nat :=
  match data with
  | [] => 0%nat
  | j :: data' => if decide (key j = k) then 0%nat else S (firstSeen k data')
  end.

(** The order a stable sort by count descending leaves: a larger count
    first, and among equal counts whatever stood to the left [before]. *)
Definition byCountThen (before : K * nat -> K * nat -> Prop)
    (x y : K * nat) : Prop :=
  (snd y < snd x)%nat \/ (snd x = snd y /\ before x y).

(** The order of a ranking: a larger count first, and among equal counts
    the value met first. *)
Definition rankedBefore (data : list A) : K * nat -> K * nat -> Prop :=
  byCountThen
    (fun x y => (firstSeen (fst x) data < firstSeen (fst y) data)%nat).

End Groups.

(** The sum of the wages of a list of records. *)
Fixpoint wageSum (l : list JobRecord) : Q :=
  match l with
  | [] => 0%Q
  | r :: l' => (wageNum r + wageSum l')%Q
  end.

(** The mean wage of a non-empty list of records. *)
Definition wageMean (l : list JobRecord) : Q :=
  (wageSum l / inject_Z (Z.of_nat (length l)))%Q.

(** A whole number. *)
Definition isWhole (q : Q) : Prop := (q == inject_Z (Qfloor q))%Q.

(** The sum of the wages of a list of records as the reduction computes
    it: from the left, each partial sum rounded to a double. *)
Definition doubleSum (l : list JobRecord) : Number :=
  fold_left (fun s r => add s (Fin (wageNum r))) l (Fin 0).

(** That sum divided by the number of records, rounded to a double. *)
Definition doubleMean (l : list JobRecord) : Number :=
  div (doubleSum l) (ofLength (length l)).

(** A Number that is not negative. *)
Definition nonNegative (x : Number) : Prop :=
  x = Inf false \/ exists q, x = Fin q /\ (0 <= q)%Q.

(** A whole number that is not negative, or [Infinity]. *)
Definition wholeOrInfinite (x : Number) : Prop :=
  x = Inf false \/ exists z : Z, 0 <= z /\ x = Fin (inject_Z z).

(** *** Phrases *)

(** 1 for true, 0 for false. *)
Definition indicator (b : bool) : nat := if b then 1%nat else 0%nat.

(** The support of a phrase: the number of records of the subset whose
    title yields it, each record counting once however often the phrase
    occurs in its title. *)
Definition support (phrase : jsstring) (data : list JobRecord) : nat :=
  length
    (List.filter
       (fun j => bool_decide (phrase ∈ titlePhrases (cleanTitle (jobTitle j))))
       data).

(** What the selection loop keeps apart: a phrase kept later is no
    substring of one kept earlier, and it contains one kept earlier only
    when its own count is strictly smaller. *)
Definition keptApart (x y : jsstring * nat) : Prop :=
  includes (fst x) (fst y) = false
  /\ (includes (fst y) (fst x) = true -> (snd y < snd x)%nat).

(** *** Freshness *)

(** The index of the first range of the chart whose filter takes the
    record; 4, the unbounded range, when none of the bounded ones does. *)
Definition bandIndex (LocalTZA : Z -> bool -> Z) (j : JobRecord) : nat :=
  if matches LocalTZA 5 0 j then 0%nat
  else if matches LocalTZA 10 5 j then 1%nat
  else if matches LocalTZA 30 10 j then 2%nat
  else if matches LocalTZA 60 30 j then 3%nat
  else 4%nat.

(** How many records of the subset each of the five bands holds. *)
Definition bandCounts (band : JobRecord -> nat) (data : list JobRecord)
    : list nat :=
  List.map (fun i => length (List.filter (fun j => (band j =? i)%nat) data))
           [0; 1; 2; 3; 4]%nat.

(** The ISO form of the civil date with the given day number. *)
Definition isoOfDay (day : Z) : jsstring := toISODate (day * msPerDay).

(** The band of a posting date relative to a reference day: the edges are
    the ISO dates 5, 10, 30 and 60 days before it, each band ends where
    the one before it begins, and dates are compared as strings. *)
Definition bandRelativeTo (ref : Z) (d : jsstring) : nat :=
  if str_geb d (isoOfDay (ref - 5)) then 0%nat
  else if str_geb d (isoOfDay (ref - 10)) then 1%nat
  else if str_geb d (isoOfDay (ref - 30)) then 2%nat
  else if str_geb d (isoOfDay (ref - 60)) then 3%nat
  else 4%nat.

(** The ISO form of a civil date of the years 0 to 9999. *)
Definition isoDate (y m d : Z) : jsstring :=
  digits 4 y ++ [45%N] ++ digits 2 m ++ [45%N] ++ digits 2 d.

(** The band of an age in whole days: 0 to 5 (and any date after the
    reference), 6 to 10, 11 to 30, 31 to 60, 61 and more. *)
Definition ageBand (age : Z) : nat :=
  if age <=? 5 then 0%nat
  else if age <=? 10 then 1%nat
  else if age <=? 30 then 2%nat
  else if age <=? 60 then 3%nat
  else 4%nat.

(** The local time of the midnight [k] days before 2026-02-27. *)
Definition midnightBefore (k : Z) : Z :=
  (daysFromCivil 2026 2 27 - k) * msPerDay.

(** The host's offset is [tz] minutes at the reference instant and at
    the local midnights of 2026-02-27 and of the days [k] days before
    it, for the [k] listed. *)
Definition offsetHeld (LocalTZA : Z -> bool -> Z) (tz : Z) (ks : list Z)
    : Prop :=
  LocalTZA (today LocalTZA) true = tz * msPerMinute
  /\ Forall (fun k => LocalTZA (midnightBefore k) false = tz * msPerMinute)
            (0 :: ks).

(** A host that was an hour ahead of UTC until 2026-02-15 and has been
    on UTC since, as a zone is that sets its clocks back for a season. *)
Definition clockSetBack : Z -> bool -> Z :=
  fun t _ =>
    if t <? daysFromCivil 2026 2 15 * msPerDay then 60 * msPerMinute else 0.

(** A calendar date in ISO form: [YYYY-MM-DD] with a month from 01 to 12
    and a day from 01 to 31. *)
Definition isCalendarDate (s : jsstring) : bool :=
  match s with
  | [y1; y2; y3; y4; h1; m1; m2; h2; d1; d2] =>
      forallb isDigit [y1; y2; y3; y4; m1; m2; d1; d2]
      && (h1 =? 45)%N && (h2 =? 45)%N
      && (let m := ((m1 - 48) * 10 + (m2 - 48))%N in (1 <=? m)%N && (m <=? 12)%N)
      && (let d := ((d1 - 48) * 10 + (d2 - 48))%N in (1 <=? d)%N && (d <=? 31)%N)
  | _ => false
  end.

(** *** The filter pipeline *)

Section Host.
Variable localeSort : list jsstring -> list jsstring.
Variable toLowerCase : jsstring -> jsstring.

(** The predicate of each dimension, true when the dimension does not
    restrict. *)
Definition passCategory (fs : FilterState) (j : JobRecord) : bool :=
  match activeCategory fs with
  | Some c => negb (truthy c) || str_eqb (category j) c
  | None => true
  end.

Definition passInclusion (selected : gset jsstring) (all : list jsstring)
    (v : jsstring) : bool :=
  negb (size selected <? length all)%nat || bool_decide (v ∈ selected).

Definition passWage (fs : FilterState) (j : JobRecord) : bool :=
  str_eqb (wageFilter fs) (js "all") || wageBand (wageFilter fs) j.

Definition passDateFrom (fs : FilterState) (j : JobRecord) : bool :=
  negb (truthy (dateFrom fs)) || str_geb (datePosted j) (dateFrom fs).

Definition passDateTo (fs : FilterState) (j : JobRecord) : bool :=
  negb (truthy (dateTo fs)) || str_leb (datePosted j) (dateTo fs).

Definition passSearch (fs : FilterState) (j : JobRecord) : bool :=
  negb (truthy (trim (searchText fs)))
  || (let q := toLowerCase (searchText fs) in
      includes (toLowerCase (jobTitle j)) q
      || includes (toLowerCase (employer j)) q
      || includes (toLowerCase (location j)) q).

(** The conjunction of the eight predicates. *)
Definition passes (jobs : list JobRecord) (fs : FilterState) (j : JobRecord)
    : bool :=
  passCategory fs j
  && passInclusion (selectedEmployers fs)
       (getUniqueValues localeSort jobs employer) (employer j)
  && passInclusion (selectedLocations fs)
       (getUniqueValues localeSort jobs location) (location j)
  && passInclusion (selectedStatuses fs)
       (getUniqueValues localeSort jobs status) (status j)
  && passWage fs j
  && passDateFrom fs j
  && passDateTo fs j
  && passSearch fs j.

(** Every dimension of the filter state says "no restriction": no active
    category, each inclusion set the full set of distinct values, the
    wage band unselected, no date bound, a blank query. *)
Definition noRestriction (jobs : list JobRecord) (fs : FilterState) : Prop :=
  activeCategory fs = None
  /\ selectedEmployers fs = list_to_set (getUniqueValues localeSort jobs employer)
  /\ selectedLocations fs = list_to_set (getUniqueValues localeSort jobs location)
  /\ selectedStatuses fs = list_to_set (getUniqueValues localeSort jobs status)
  /\ wageFilter fs = js "all"
  /\ dateFrom fs = []
  /\ dateTo fs = []
  /\ trim (searchText fs) = [].

End Host.

(** *** Sample records *)

Definition sampleJob (n : Z) (title emp date : string) (w : option Q)
    : JobRecord :=
  mkJob n (js title) (js emp) (js "Phoenix, AZ") (js date) (js "Active") w
        (js "Software Developers") (js "Software Developers")
        (js "15-1252") (js "https://example.org").

(** The wages of the example of the specification: 90000, 120000,
    150000 and none. *)
Definition wageSample : list JobRecord :=
  [ sampleJob 1 "Developer" "Oracle" "2026-02-20" (Some 90000%Q);
    sampleJob 2 "Architect" "Intel" "2026-02-21" (Some 120000%Q);
    sampleJob 3 "Director" "Amazon" "2026-02-22" (Some 150000%Q);
    sampleJob 4 "Analyst" "Oracle" "2026-02-23" None ].

(** A record whose [datePosted] is no calendar date. *)
Definition badDateJob : JobRecord :=
  sampleJob 7 "Engineer" "Oracle" "not-a-date" None.

(** Four titles: "data center" and "center engineer" have support 3,
    "data center engineer" has support 2. *)
Definition containmentSample : list JobRecord :=
  [ sampleJob 1 "Data Center Engineer" "Oracle" "2026-02-20" None;
    sampleJob 2 "Data Center Engineer" "Intel" "2026-02-21" None;
    sampleJob 3 "Data Center Technician" "Oracle" "2026-02-22" None;
    sampleJob 4 "Call Center Engineer" "Amazon" "2026-02-23" None ].

(** The tags of the wage selector that name a band. *)
Definition bandTags : list jsstring :=
  List.map js ["unlisted"; "under50k"; "50k-100k"; "100k-150k"; "150k+"]%string.

End Spec.
Import Spec.

(** ** The rest of the dashboard *)

Module Dashboard.

(** [uniqueCount], for a key that holds a string. *)
Definition uniqueCount (arr : list JobRecord) (key : JobRecord -> jsstring)
    : nat :=
  size (list_to_set (List.map key arr) : gset jsstring).

(** [stats] of [App]. *)
Record Stats := mkStats {
  stat_total : nat;
  stat_employers : nat;
  stat_avgWage : Number;
  stat_withWage : nat
}.

Definition stats (filteredJobs : list JobRecord) : Stats :=
  mkStats (length filteredJobs)
          (uniqueCount filteredJobs employer)
          (avgWage filteredJobs)
          (length (List.filter hasWage filteredJobs)).

(** [max] of [TopEmployersChart] and of [TopKeywords]:
    [list.length > 0 ? list[0][1] : 1]. *)
Definition headCount (l : list (jsstring * nat)) : nat :=
  match l with
  | [] => 1%nat
  | e :: _ => snd e
  end.

(** [buckets[0].count + buckets[1].count], the figure in the middle of
    the freshness ring. *)
Definition withinTenDays (bs : list Bucket) : nat :=
  match bs with
  | b0 :: b1 :: _ => (count b0 + count b1)%nat
  | _ => 0%nat
  end.

(** The other setters of [App]. *)
Definition setActiveCategory (c : option jsstring) (fs : FilterState)
    : FilterState :=
  mkFilterState c (selectedEmployers fs) (selectedLocations fs)
    (selectedStatuses fs) (wageFilter fs) (dateFrom fs) (dateTo fs)
    (searchText fs).

Definition setSelectedEmployers (s : gset jsstring) (fs : FilterState)
    : FilterState :=
  mkFilterState (activeCategory fs) s (selectedLocations fs)
    (selectedStatuses fs) (wageFilter fs) (dateFrom fs) (dateTo fs)
    (searchText fs).

Definition setSelectedLocations (s : gset jsstring) (fs : FilterState)
    : FilterState :=
  mkFilterState (activeCategory fs) (selectedEmployers fs) s
    (selectedStatuses fs) (wageFilter fs) (dateFrom fs) (dateTo fs)
    (searchText fs).

Definition setSelectedStatuses (s : gset jsstring) (fs : FilterState)
    : FilterState :=
  mkFilterState (activeCategory fs) (selectedEmployers fs)
    (selectedLocations fs) s (wageFilter fs) (dateFrom fs) (dateTo fs)
    (searchText fs).

Definition setSearchText (q : jsstring) (fs : FilterState) : FilterState :=
  mkFilterState (activeCategory fs) (selectedEmployers fs)
    (selectedLocations fs) (selectedStatuses fs) (wageFilter fs)
    (dateFrom fs) (dateTo fs) q.

(** The updater of [toggleEmployer], [toggleLocation] and [toggleStatus]:
    a copy of the set with the value taken out if it was in, put in if it
    was not. *)
Definition toggle (val : jsstring) (prev : gset jsstring) : gset jsstring :=
  if bool_decide (val ∈ prev) then prev ∖ {[val]} else prev ∪ {[val]}.

Definition toggleEmployer (val : jsstring) (fs : FilterState) : FilterState :=
  setSelectedEmployers (toggle val (selectedEmployers fs)) fs.

Definition toggleLocation (val : jsstring) (fs : FilterState) : FilterState :=
  setSelectedLocations (toggle val (selectedLocations fs)) fs.

Definition toggleStatus (val : jsstring) (fs : FilterState) : FilterState :=
  setSelectedStatuses (toggle val (selectedStatuses fs)) fs.

(** [handleCategoryClick]; resetting the column filters of the grid is
    left to the grid. *)
Definition handleCategoryClick (cat : option jsstring) (fs : FilterState)
    : FilterState :=
  setActiveCategory cat fs.

Section Host.
Variable localeSort : list jsstring -> list jsstring.
Variable toLowerCase : jsstring -> jsstring.

(** [onClearAll] of the employer picker: [new Set()]. *)
Definition clearEmployers (fs : FilterState) : FilterState :=
  setSelectedEmployers ∅ fs.

(** [onSelectAll] of the employer picker: [new Set(allEmployers)]. *)
Definition selectAllEmployers (jobs : list JobRecord) (fs : FilterState)
    : FilterState :=
  setSelectedEmployers (list_to_set (getUniqueValues localeSort jobs employer)) fs.

(** [handleResetAll]: the eight setters in the order of the source. *)
Definition handleResetAll (jobs : list JobRecord) (fs : FilterState)
    : FilterState :=
  let fs := setActiveCategory None fs in
  let fs := setSelectedEmployers
              (list_to_set (getUniqueValues localeSort jobs employer)) fs in
  let fs := setSelectedLocations
              (list_to_set (getUniqueValues localeSort jobs location)) fs in
  let fs := setSelectedStatuses
              (list_to_set (getUniqueValues localeSort jobs status)) fs in
  let fs := setWageFilter (js "all") fs in
  let fs := setDateFrom [] fs in
  let fs := setDateTo [] fs in
  setSearchText [] fs.

(** [hasActiveFilters] of [App]. *)
Definition hasActiveFilters (jobs : list JobRecord) (fs : FilterState)
    : bool :=
  match activeCategory fs with Some _ => true | None => false end
  || (size (selectedEmployers fs)
      <? length (getUniqueValues localeSort jobs employer))%nat
  || (size (selectedLocations fs)
      <? length (getUniqueValues localeSort jobs location))%nat
  || (size (selectedStatuses fs)
      <? length (getUniqueValues localeSort jobs status))%nat
  || negb (str_eqb (wageFilter fs) (js "all"))
  || negb (str_eqb (dateFrom fs) [])
  || negb (str_eqb (dateTo fs) [])
  || negb (str_eqb (trim (searchText fs)) []).

End Host.

(** [timeline], [max] and the peak of [PostingsTimeline].  The sort by
    [localeCompare] on the dates depends on the host and is taken as
    given. *)
Section Timeline.
Variable dateSort : list (jsstring * nat) -> list (jsstring * nat).

Definition timelineCounts (data : list JobRecord) : list (jsstring * nat) :=
  fold_left
    (fun counts j =>
       if truthy (datePosted j) then bump (datePosted j) counts else counts)
    data [].

Definition timeline (data : list JobRecord) : list (jsstring * nat) :=
  dateSort (timelineCounts data).

(** [Math.max(...timeline.map(([, c]) => c), 1)] *)
Definition timelineMax (data : list JobRecord) : nat :=
  fold_right Nat.max 1%nat (List.map snd (timeline data)).

(** [timeline.find(([, c]) => c === max)] *)
Definition timelinePeak (data : list JobRecord) : option (jsstring * nat) :=
  List.find (fun e => (snd e =? timelineMax data)%nat) (timeline data).

End Timeline.

(** [employerOptions], [locationOptions] and [statusOptions] of [App]:
    the values of a field over the records of the active category, each
    with its count.  The sort by [localeCompare] on the values depends on
    the host and is taken as given. *)
Section Options.
Variable optionSort : list (jsstring * nat) -> list (jsstring * nat).

(** [activeCategory ? jobs.filter(...) : jobs] *)
Definition optionBase (jobs : list JobRecord)
    (activeCategory : option jsstring) : list JobRecord :=
  match activeCategory with
  | Some c =>
      if truthy c then List.filter (fun j => str_eqb (category j) c) jobs
      else jobs
  | None => jobs
  end.

Definition employerOptions (jobs : list JobRecord)
    (activeCategory : option jsstring) : list (jsstring * nat) :=
  optionSort (countBy employer (optionBase jobs activeCategory)).

Definition locationOptions (jobs : list JobRecord)
    (activeCategory : option jsstring) : list (jsstring * nat) :=
  optionSort (countBy location (optionBase jobs activeCategory)).

Definition statusOptions (jobs : list JobRecord)
    (activeCategory : option jsstring) : list (jsstring * nat) :=
  optionSort (countBy status (optionBase jobs activeCategory)).

End Options.

(** [isAllSelected], [activeCount] and [checked] of [MultiSelectFilter];
    the difference of the two sizes is a number and may be negative. *)
Definition isAllSelected (options : list (jsstring * nat))
    (selected : gset jsstring) : bool :=
  (size selected =? length options)%nat.

Definition activeCount (options : list (jsstring * nat))
    (selected : gset jsstring) : Z :=
  Z.of_nat (length options) - Z.of_nat (size selected).

Definition checked (selected : gset jsstring) (opt : jsstring * nat) : bool :=
  bool_decide (fst opt ∈ selected).

End Dashboard.
Import Dashboard.

(** The pipeline of the first version of [App] (src/App.tsx), which had
    the category pills only. *)
Module Legacy.

Definition filteredJobs (jobs : list JobRecord)
    (activeCategory : option jsstring) : list JobRecord :=
  match activeCategory with
  | None => jobs
  | Some c =>
      if truthy c then List.filter (fun j => str_eqb (category j) c) jobs
      else jobs
  end.

End Legacy.

(** *** What the extra properties speak of *)

Module Shapes.

(** A word of a cleaned title: two letters or more, lower-case ASCII
    letters only, not a stop word. *)
Definition isCleanWord (w : jsstring) : Prop :=
  (2 <= length w)%nat
  /\ Forall (fun c => isLowerAscii c = true) w
  /\ w ∉ stopWords.

(** A word with its first letter in upper case. *)
Definition capitalize (w : jsstring) : jsstring :=
  match w with
  | [] => []
  | c :: w' => upperAscii c :: w'
  end.

(** Counts in descending order. *)
Definition countDesc (x y : jsstring * nat) : Prop := (snd y <= snd x)%nat.

End Shapes.
Import Shapes.

(** * Properties *)

(** ** Counting maps *)

Section CountFacts.
Context {A K : Type} `{EqDecision K}.
Variable key : A -> K.

Lemma countBy_snoc (data : list A) (j : A) :
  countBy key (data ++ [j]) = bump (key j) (countBy key data).
Proof. unfold countBy. now rewrite fold_left_app. Qed.

Lemma bump_keys (k : K) (m : list (K * nat)) :
  List.map fst (bump k m)
  = if decide (k ∈ List.map fst m) then List.map fst m
    else List.map fst m ++ [k].
Proof.
  induction m as [|[k' c] m IH].
  - destruct (decide (k ∈ List.map fst [])) as [Hd|_]; [inversion Hd | reflexivity].
  - cbn [bump List.map fst].
    destruct (decide (k' = k)) as [->|Hne]; cbn [List.map fst].
    + destruct (decide (k ∈ k :: List.map fst m)) as [_|Hd];
        [reflexivity | exfalso; apply Hd; left].
    + rewrite IH.
      destruct (decide (k ∈ List.map fst m)) as [Hin|Hnin];
        destruct (decide (k ∈ k' :: List.map fst m)) as [Hin'|Hnin'];
        try reflexivity.
      * exfalso. apply Hnin'. now right.
      * apply elem_of_cons in Hin' as [?|?]; [congruence | contradiction].
Qed.

Lemma getCount_bump (k p : K) (m : list (K * nat)) :
  getCount p (bump k m)
  = if decide (k = p) then S (getCount p m) else getCount p m.
Proof.
  induction m as [|[k' c] m IH]; simpl.
  - destruct (decide (k = p)); reflexivity.
  - destruct (decide (k' = k)) as [->|Hne]; simpl.
    + destruct (decide (k = p)); reflexivity.
    + destruct (decide (k' = p)) as [->|Hne'].
      * destruct (decide (k = p)); [congruence | reflexivity].
      * exact IH.
Qed.

Lemma getCount_entry (m : list (K * nat)) (k : K) (c : nat) :
  NoDup (List.map fst m) -> In (k, c) m -> getCount k m = c.
Proof.
  induction m as [|[k' c'] m IH]; simpl; [tauto|].
  intros Hnd [Heq|Hin].
  - inversion Heq; subst. destruct (decide (k = k)); [reflexivity | congruence].
  - apply NoDup_cons in Hnd as [Hk' Hnd].
    destruct (decide (k' = k)) as [->|_].
    + exfalso. apply Hk'. apply list_elem_of_In.
      change k with (fst (k, c)). now apply in_map.
    + now apply IH.
Qed.

Lemma getCount_none (m : list (K * nat)) (k : K) :
  ~ In k (List.map fst m) -> getCount k m = 0%nat.
Proof.
  induction m as [|[k' c'] m IH]; simpl; [reflexivity|].
  intros Hn. destruct (decide (k' = k)) as [->|_]; [tauto|].
  apply IH. tauto.
Qed.

Lemma occurrences_snoc (k : K) (data : list A) (j : A) :
  occurrences key k (data ++ [j])
  = if decide (key j = k) then S (occurrences key k data)
    else occurrences key k data.
Proof.
  unfold occurrences. rewrite List.filter_app, length_app.
  cbn [List.filter].
  destruct (decide (key j = k)) as [e|n].
  - rewrite (bool_decide_eq_true_2 _ e). simpl. lia.
  - rewrite (bool_decide_eq_false_2 _ n). simpl. lia.
Qed.

Lemma getCount_countBy (k : K) (data : list A) :
  getCount k (countBy key data) = occurrences key k data.
Proof.
  induction data as [|j data IH] using rev_ind; [reflexivity|].
  rewrite countBy_snoc, getCount_bump, occurrences_snoc, IH. reflexivity.
Qed.

Lemma firstSeen_le (k : K) (data : list A) :
  (firstSeen key k data <= length data)%nat.
Proof.
  induction data as [|j data IH]; simpl; [lia|].
  destruct (decide (key j = k)); lia.
Qed.

Lemma firstSeen_lt (k : K) (data : list A) :
  (firstSeen key k data < length data)%nat <-> In k (List.map key data).
Proof.
  induction data as [|j data IH]; simpl; [split; [lia | tauto]|].
  destruct (decide (key j = k)) as [->|Hne].
  - split; [now left | lia].
  - rewrite <- IH. split; [intros; right; lia | intros [?|?]; [congruence | lia]].
Qed.

Lemma firstSeen_snoc_old (k : K) (data : list A) (j : A) :
  In k (List.map key data) ->
  firstSeen key k (data ++ [j]) = firstSeen key k data.
Proof.
  induction data as [|i data IH]; simpl; [tauto|].
  destruct (decide (key i = k)) as [->|Hne]; [reflexivity|].
  intros [?|Hin]; [congruence|]. now rewrite IH.
Qed.

Lemma firstSeen_snoc_new (data : list A) (j : A) :
  ~ In (key j) (List.map key data) ->
  firstSeen key (key j) (data ++ [j]) = length data.
Proof.
  induction data as [|i data IH]; simpl.
  - intros _. destruct (decide (key j = key j)); [reflexivity | congruence].
  - intros Hn. destruct (decide (key i = key j)) as [e|_]; [tauto|].
    rewrite IH; tauto.
Qed.

(** The keys of the counting map are the values of the subset, each
    once, in the order they are first met. *)
Lemma countBy_keys (data : list A) :
  let ks := List.map fst (countBy key data) in
  NoDup ks
  /\ (forall k, In k ks <-> In k (List.map key data))
  /\ StronglySorted
       (fun a b => (firstSeen key a data < firstSeen key b data)%nat) ks.
Proof.
  induction data as [|j data IH] using rev_ind; simpl.
  - repeat split; try tauto; constructor.
  - destruct IH as (Hnd & Hin & Hss).
    rewrite countBy_snoc, bump_keys.
    assert (Hmono : StronglySorted
      (fun a b => (firstSeen key a (data ++ [j]) < firstSeen key b (data ++ [j]))%nat)
      (List.map fst (countBy key data))).
    { assert (Hsub : forall k, In k (List.map fst (countBy key data)) ->
                               In k (List.map key data)) by (intros k; apply Hin).
      revert Hsub Hss. generalize (List.map fst (countBy key data)) as ks.
      induction ks as [|a ks IHks]; intros Hsub Hss; [constructor|].
      apply StronglySorted_cons in Hss as [Hall Hss].
      apply StronglySorted_cons. split.
      - rewrite Forall_forall in *. intros b Hb.
        rewrite !firstSeen_snoc_old.
        + now apply Hall.
        + apply Hsub. right. now apply list_elem_of_In.
        + apply Hsub. now left.
      - apply IHks; [|assumption]. intros k Hk. apply Hsub. now right. }
    destruct (decide (key j ∈ List.map fst (countBy key data))) as [Hold|Hnew].
    + split; [assumption|]. split; [|assumption].
      intros k. rewrite Hin, List.map_app, in_app_iff. simpl.
      split; [tauto|]. intros [?|[<-|[]]]; [assumption|]. now apply Hin, list_elem_of_In.
    + split; [|split].
      * apply NoDup_app. split; [assumption|]. split; [|apply NoDup_singleton].
        intros k Hk Hk'. apply list_elem_of_singleton in Hk'. now subst.
      * intros k. rewrite in_app_iff, Hin, List.map_app, in_app_iff. reflexivity.
      * apply StronglySorted_app. split; [|split; [assumption|]].
        -- intros a b Ha Hb. apply list_elem_of_singleton in Hb. subst b.
           apply list_elem_of_In, Hin in Ha.
           rewrite firstSeen_snoc_old by assumption.
           rewrite firstSeen_snoc_new by (rewrite <- Hin, <- list_elem_of_In; assumption).
           now apply firstSeen_lt.
        -- repeat constructor.
Qed.

End CountFacts.

(** ** The stable sort *)

Section SortFacts.
Context {K : Type} `{EqDecision K}.
Implicit Types (x y : K * nat) (l : list (K * nat)).

Lemma insertDesc_perm x l : insertDesc x l ≡ₚ x :: l.
Proof.
  induction l as [|y l IH]; simpl; [reflexivity|].
  destruct (snd x <? snd y)%nat; [|reflexivity].
  rewrite IH. apply Permutation_swap.
Qed.

Lemma sortDesc_perm l : sortDesc l ≡ₚ l.
Proof.
  induction l as [|x l IH]; simpl; [reflexivity|].
  now rewrite insertDesc_perm, IH.
Qed.

Lemma sortDesc_In l x : In x (sortDesc l) <-> In x l.
Proof.
  rewrite <- !list_elem_of_In. now rewrite sortDesc_perm.
Qed.

Section Stable.
(** [before x y]: [x] stood to the left of [y] before the sort. *)
Variable before : K * nat -> K * nat -> Prop.

Local Abbreviation sortedRel := (byCountThen before).

Lemma insertDesc_sorted x l :
  Forall (before x) l ->
  StronglySorted sortedRel l -> StronglySorted sortedRel (insertDesc x l).
Proof.
  induction l as [|y l IH]; simpl; intros Hx Hs.
  - repeat constructor.
  - apply Forall_cons in Hx as [Hxy Hx].
    apply StronglySorted_cons in Hs as [Hy Hs].
    destruct (snd x <? snd y)%nat eqn:Hlt.
    + apply Nat.ltb_lt in Hlt.
      apply StronglySorted_cons. split; [|now apply IH].
      rewrite insertDesc_perm. apply Forall_cons. split; [|assumption].
      now left.
    + apply Nat.ltb_ge in Hlt.
      apply StronglySorted_cons. split.
      * apply Forall_cons. split.
        -- unfold byCountThen. destruct (decide (snd y = snd x)) as [e|n];
             [right; split; [now symmetry | assumption] | left; lia].
        -- rewrite Forall_forall in *. intros z Hz.
           specialize (Hy z Hz). specialize (Hx z Hz).
           unfold byCountThen in *.
           destruct (decide (snd z = snd x)) as [e|n];
             [right; split; [now symmetry | assumption] | left; lia].
      * apply StronglySorted_cons. now split.
Qed.

Lemma sortDesc_sorted l :
  StronglySorted before l -> StronglySorted sortedRel (sortDesc l).
Proof.
  induction l as [|x l IH]; simpl; intros Hs; [constructor|].
  apply StronglySorted_cons in Hs as [Hx Hs].
  apply insertDesc_sorted; [|now apply IH].
  now rewrite sortDesc_perm.
Qed.

End Stable.
End SortFacts.

Lemma StronglySorted_firstn {A : Type} (R : A -> A -> Prop) (n : nat)
    (l : list A) :
  StronglySorted R l -> StronglySorted R (firstn n l).
Proof.
  intros Hs. rewrite <- (firstn_skipn n l) in Hs.
  now apply StronglySorted_app in Hs as (_ & ? & _).
Qed.

Section RankFacts.
Context {A K : Type} `{EqDecision K}.
Variable key : A -> K.

Lemma rank_sorted (data : list A) :
  StronglySorted (rankedBefore key data) (rank key data).
Proof.
  unfold rank.
  apply (sortDesc_sorted
           (fun x y => (firstSeen key (fst x) data < firstSeen key (fst y) data)%nat)).
  destruct (countBy_keys key data) as (_ & _ & Hss).
  revert Hss. generalize (countBy key data) as m.
  induction m as [|x m IH]; simpl; intros Hss; [constructor|].
  apply StronglySorted_cons in Hss as [Hx Hss].
  apply StronglySorted_cons. split; [|now apply IH].
  now rewrite Forall_map in Hx.
Qed.

Lemma rank_entries (data : list A) :
  Forall (fun e => snd e = occurrences key (fst e) data /\ (0 < snd e)%nat)
         (rank key data).
Proof.
  apply Forall_forall. intros [k c] Hin.
  apply list_elem_of_In in Hin. unfold rank in Hin.
  apply (proj1 (sortDesc_In _ _)) in Hin.
  destruct (countBy_keys key data) as (Hnd & Hkeys & _).
  pose proof (getCount_entry _ _ _ Hnd Hin) as Hc.
  rewrite getCount_countBy in Hc. simpl. split; [now symmetry|].
  rewrite <- Hc. unfold occurrences.
  assert (Hk : In k (List.map key data)).
  { apply Hkeys. change k with (fst (k, c)). now apply in_map. }
  apply in_map_iff in Hk as (j & Hj & Hjin).
  assert (Hf : In j (List.filter (fun j => bool_decide (key j = k)) data)).
  { apply filter_In. split; [assumption|]. now apply bool_decide_eq_true_2. }
  destruct (List.filter _ data); [destruct Hf | simpl; lia].
Qed.

Lemma rank_keys (data : list A) :
  NoDup (List.map fst (rank key data))
  /\ forall k, In k (List.map fst (rank key data)) <-> In k (List.map key data).
Proof.
  destruct (countBy_keys key data) as (Hnd & Hkeys & _).
  assert (Hp : List.map fst (rank key data) ≡ₚ List.map fst (countBy key data)).
  { unfold rank. apply Permutation_map, sortDesc_perm. }
  split.
  - now rewrite Hp.
  - intros k. rewrite <- Hkeys, <- !list_elem_of_In. now rewrite Hp.
Qed.

End RankFacts.

(** ** C7, C9: the employer ranking *)

(** C7.  The group-by-count ranking is ordered by count descending, and
    groups with equal counts stand in the order in which their values are
    first met in the subset: every entry of the ranking is [rankedBefore]
    every later one.  This holds for the employers by posting count, for
    the list the employer chart receives, and for the categories.  Each
    entry carries a value of the subset with the number of its records,
    and each value has exactly one entry. *)
Theorem rank_desc_first_seen (data : list JobRecord) :
  StronglySorted (rankedBefore employer data) (rank employer data)
  /\ StronglySorted (rankedBefore employer data) (topEmployers data)
  /\ StronglySorted (rankedBefore category data) (categories data)
  /\ Forall (fun e => snd e = occurrences employer (fst e) data
                      /\ (0 < snd e)%nat)
            (rank employer data)
  /\ NoDup (List.map fst (rank employer data))
  /\ (forall k, In k (List.map fst (rank employer data))
                <-> In k (List.map employer data)).
Proof.
  split; [apply rank_sorted|].
  split; [apply StronglySorted_firstn, rank_sorted|].
  split; [apply rank_sorted|].
  split; [apply rank_entries|].
  split; apply rank_keys.
Qed.

(** C9.  The employer chart receives at most 8 pairs: the first 8 of the
    ranking, or all of it when it has fewer; every employer left out has
    a count no larger than every employer kept. *)
Theorem topEmployers_at_most_8 (data : list JobRecord) :
  (length (topEmployers data) <= 8)%nat
  /\ length (topEmployers data) = Nat.min 8 (length (rank employer data))
  /\ rank employer data = topEmployers data ++ skipn 8 (rank employer data)
  /\ Forall (fun kept =>
       Forall (fun dropped => (snd dropped <= snd kept)%nat)
              (skipn 8 (rank employer data)))
       (topEmployers data).
Proof.
  unfold topEmployers.
  split; [rewrite length_firstn; lia|].
  split; [apply length_firstn|].
  split; [now rewrite firstn_skipn|].
  pose proof (rank_sorted employer data) as Hs.
  rewrite <- (firstn_skipn 8 (rank employer data)) in Hs at 1.
  apply StronglySorted_app in Hs as (Hcross & _ & _).
  apply Forall_forall. intros x Hx. apply Forall_forall. intros y Hy.
  destruct (Hcross x y) as [Hlt|[Heq _]].
  - exact Hx.
  - exact Hy.
  - lia.
  - lia.
Qed.

(** ** C6: the average wage *)

(** *** Doubles *)

Lemma pow2_pos_Z (e : Z) : 0 <= e -> 0 < 2 ^ e.
Proof. intros. apply Z.pow_pos_nonneg; lia. Qed.

Lemma binade_lower (a b : Z) :
  0 < b <= a ->
  0 <= binade a b /\ 2 ^ binade a b * b <= a.
Proof.
  intros [Hb Hab]. unfold binade, scaled.
  assert (Hl : 0 <= Z.log2 a - Z.log2 b).
  { pose proof (Z.log2_le_mono b a Hab). lia. }
  set (l := Z.log2 a - Z.log2 b) in *.
  destruct (l <=? 0) eqn:El.
  - apply Z.leb_le in El. assert (l = 0) as -> by lia.
    cbn [Z.opp Z.pow]. rewrite Z.mul_1_r.
    destruct (b <=? a) eqn:E; [|apply Z.leb_gt in E; lia].
    split; [lia|]. rewrite Z.pow_0_r. lia.
  - apply Z.leb_gt in El.
    destruct (b * 2 ^ l <=? a) eqn:E.
    + apply Z.leb_le in E. split; [lia|]. lia.
    + split; [lia|].
      pose proof (Z.log2_spec a ltac:(lia)) as [Ha _].
      pose proof (Z.log2_spec b Hb) as [_ Hb'].
      assert (H2 : 2 ^ (l - 1) * 2 ^ Z.succ (Z.log2 b) = 2 ^ Z.log2 a).
      { rewrite <- Z.pow_add_r by (pose proof (Z.log2_nonneg b); lia).
        f_equal. unfold l. lia. }
      assert (0 < 2 ^ (l - 1)) by (apply pow2_pos_Z; lia).
      nia.
Qed.

Lemma roundHalfEven_cases (n d : Z) :
  0 < d ->
  (roundHalfEven n d = n / d /\ 2 * (n mod d) <= d)
  \/ (roundHalfEven n d = n / d + 1 /\ d <= 2 * (n mod d)).
Proof.
  intros Hd. unfold roundHalfEven.
  destruct (Z.compare_spec (2 * (n mod d)) d) as [E|E|E].
  - destruct (Z.even (n / d)); [left | right]; lia.
  - left; lia.
  - right; lia.
Qed.

Lemma roundHalfEven_exact (n : Z) : roundHalfEven n 1 = n.
Proof.
  unfold roundHalfEven. rewrite Z.mod_1_r, Z.div_1_r. reflexivity.
Qed.

Lemma pow2_neg (j : Z) : 0 < j -> pow2 (- j) = 1 # Z.to_pos (2 ^ j).
Proof.
  intros Hj. unfold pow2. destruct (0 <=? - j) eqn:E; [apply Z.leb_le in E; lia|].
  now rewrite Z.opp_involutive.
Qed.

Lemma binade_whole (z : Z) : 0 < z -> binade z 1 = Z.log2 z.
Proof.
  intros Hz. unfold binade, scaled. change (Z.log2 1) with 0.
  rewrite Z.sub_0_r.
  pose proof (Z.log2_spec z Hz) as [Hl _].
  pose proof (Z.log2_nonneg z) as Hn.
  set (l := Z.log2 z) in *.
  destruct (l <=? 0) eqn:E; cbv iota beta.
  - apply Z.leb_le in E. assert (E0 : l = 0) by lia.
    destruct (1 <=? z * 2 ^ (- l)) eqn:E1; [reflexivity|].
    apply Z.leb_gt in E1. rewrite E0 in E1. simpl in E1. lia.
  - destruct (1 * 2 ^ l <=? z) eqn:E1; [reflexivity|].
    apply Z.leb_gt in E1. lia.
Qed.

(** A whole number below 2 to the 53 is a double. *)
Lemma NumberValue_whole (q : Q) (z : Z) :
  0 <= z < 2 ^ 53 -> (q == inject_Z z)%Q -> NumberValue q = Fin (inject_Z z).
Proof.
  intros [Hz0 Hz] Hq. unfold NumberValue.
  rewrite (Qred_complete _ _ Hq), inject_Z_Qred. cbn [Qnum inject_Z].
  destruct z as [|p|p]; [reflexivity| |lia].
  cbn zeta. change (QDen (Z.pos p # 1)) with 1.
  unfold magnitude. rewrite binade_whole by lia.
  assert (HL : 0 <= Z.log2 (Z.pos p) <= 52).
  { split; [apply Z.log2_nonneg|].
    assert (Z.log2 (Z.pos p) < 53) by (apply Z.log2_lt_pow2; lia). lia. }
  set (L := Z.log2 (Z.pos p)) in *.
  rewrite Z.max_l by lia.
  unfold scaled. destruct (L - 52 <=? 0) eqn:E; [|apply Z.leb_gt in E; lia].
  rewrite roundHalfEven_exact.
  replace (- (L - 52)) with (52 - L) by lia.
  assert (Hv : (inject_Z (Z.pos p * 2 ^ (52 - L)) * pow2 (L - 52)
                == inject_Z (Z.pos p))%Q).
  { destruct (Z.eq_dec L 52) as [->|Hne].
    - change (52 - 52) with 0. change (pow2 0) with (inject_Z 1).
      rewrite Z.pow_0_r, Z.mul_1_r.
      unfold Qeq, Qmult, inject_Z. cbn [Qnum Qden]. lia.
    - replace (L - 52) with (- (52 - L)) by lia. rewrite pow2_neg by lia.
      assert (0 < 2 ^ (52 - L)) by (apply pow2_pos_Z; lia).
      unfold Qeq, Qmult, inject_Z. cbn [Qnum Qden].
      rewrite Pos.mul_1_l, Z2Pos.id by lia. lia. }
  destruct (Qle_bool (pow2 1024) _) eqn:Eo.
  - exfalso. apply Qle_bool_iff in Eo. rewrite Hv in Eo.
    change (pow2 1024) with (inject_Z (2 ^ 1024)) in Eo.
    rewrite <- Zle_Qle in Eo.
    assert (2 ^ 53 < 2 ^ 1024) by (apply Z.pow_lt_mono_r; lia). lia.
  - f_equal. rewrite (Qred_complete _ _ Hv). apply inject_Z_Qred.
Qed.

(** The quotient of two whole numbers, the greater one below 2 to the
    52 on top: its double rounds to the integer the quotient itself
    rounds to. *)
Lemma magnitude_round (a b : Z) :
  0 < b <= a -> a < 2 ^ 52 ->
  Math_round (magnitude a b) = Fin (inject_Z ((2 * a + b) / (2 * b))).
Proof.
  intros [Hb Hab] Ha.
  destruct (binade_lower a b (conj Hb Hab)) as [HE0 HE].
  unfold magnitude.
  set (E := binade a b) in *.
  assert (HEpos : 0 < 2 ^ E) by (now apply pow2_pos_Z).
  assert (HE51 : E <= 51).
  { assert (2 ^ E < 2 ^ 52) by nia.
    apply Z.pow_lt_mono_r_iff in H; lia. }
  rewrite Z.max_l by lia.
  unfold scaled. destruct (E - 52 <=? 0) eqn:Ee; [|apply Z.leb_gt in Ee; lia].
  replace (- (E - 52)) with (52 - E) by lia.
  replace (E - 52) with (- (52 - E)) by lia. rewrite pow2_neg by lia.
  set (P' := 2 ^ (51 - E)).
  assert (HP' : 0 < P') by (apply pow2_pos_Z; lia).
  assert (HP : 2 ^ (52 - E) = 2 * P').
  { unfold P'. replace (52 - E) with (Z.succ (51 - E)) by lia.
    rewrite Z.pow_succ_r by lia. reflexivity. }
  assert (HPE : 2 * P' * 2 ^ E = 2 ^ 52).
  { rewrite <- HP, <- Z.pow_add_r by lia. f_equal. lia. }
  assert (HbP : b < 2 * P') by nia.
  rewrite HP.
  set (m := roundHalfEven (a * (2 * P')) b).
  pose proof (Z.div_mod (a * (2 * P')) b ltac:(lia)) as Hdm.
  pose proof (Z.mod_pos_bound (a * (2 * P')) b Hb) as Hr.
  pose proof (Z.div_mod (2 * a + b) (2 * b) ltac:(lia)) as Hk.
  pose proof (Z.mod_pos_bound (2 * a + b) (2 * b) ltac:(lia)) as Hr2.
  set (k := (2 * a + b) / (2 * b)) in *.
  set (f := a * (2 * P') / b) in *.
  set (r := (a * (2 * P')) mod b) in *.
  set (r2 := (2 * a + b) mod (2 * b)) in *.
  assert (Hm : (m = f /\ 2 * r <= b) \/ (m = f + 1 /\ b <= 2 * r)).
  { apply roundHalfEven_cases. exact Hb. }
  assert (Hk0 : 0 <= k) by (apply Z.div_pos; lia).
  assert (Hlow : (2 * k - 1) * P' <= f).
  { assert (b * ((2 * k - 1) * P') < b * (f + 1)) by nia.
    apply Z.mul_lt_mono_pos_l in H; lia. }
  assert (Hup : m < (2 * k + 1) * P').
  { assert (b * m < b * ((2 * k + 1) * P')) by (destruct Hm as [[-> ?]|[-> ?]]; nia).
    apply Z.mul_lt_mono_pos_l in H; lia. }
  assert (Hmf : f <= m) by (destruct Hm as [[-> _]|[-> _]]; lia).
  set (v := (inject_Z m * (1 # Z.to_pos (2 * P')))%Q).
  assert (Hnum : Qnum v = m) by (unfold v; simpl; lia).
  assert (Hden : QDen v = 2 * P').
  { unfold v. cbn [Qden Qmult inject_Z]. rewrite Pos.mul_1_l.
    apply Z2Pos.id. lia. }
  destruct (Qle_bool (pow2 1024) v) eqn:Eo.
  - exfalso. apply Qle_bool_iff in Eo. unfold Qle in Eo.
    rewrite Hnum, Hden in Eo.
    change (pow2 1024) with (inject_Z (2 ^ 1024)) in Eo.
    cbn [Qnum Qden inject_Z] in Eo.
    assert (2 ^ 52 < 2 ^ 1024) by (apply Z.pow_lt_mono_r; lia).
    assert (k <= a) by nia.
    nia.
  - unfold Math_round. do 2 f_equal.
    rewrite (Qfloor_comp (Qred v + (1 # 2)) (v + (1 # 2)))
      by (now rewrite Qred_correct).
    unfold Qfloor, Qplus. cbn [Qnum Qden].
    rewrite Pos2Z.inj_mul, Hnum, Hden.
    symmetry. apply (Z.div_unique _ _ _ (m * 2 + 1 * (2 * P') - 2 * P' * 2 * k)).
    + left. nia.
    + lia.
Qed.

Lemma Qred_num_le (q : Q) : 0 <= Qnum q -> 0 <= Qnum (Qred q) <= Qnum q.
Proof.
  destruct q as [a b]. cbn [Qnum]. intros Ha. unfold Qred.
  pose proof (Z.ggcd_correct_divisors a (Zpos b)) as Hd.
  pose proof (Z.ggcd_gcd a (Zpos b)) as Hg.
  pose proof (Z.gcd_nonneg a (Zpos b)) as Hg0.
  destruct (Z.ggcd a (Z.pos b)) as [g [aa bb]]. cbn [fst snd Qnum] in *.
  destruct Hd as [Hda Hdb]. rewrite <- Hg in Hg0.
  assert (0 < g).
  { destruct (Z.eq_dec g 0) as [E|E]; [|lia].
    rewrite E in Hdb. discriminate. }
  nia.
Qed.

(** The double of a quotient that is at least 1 and is written with a
    numerator below 2 to the 52 rounds to the integer the quotient
    rounds to. *)
Lemma NumberValue_round (x : Q) :
  (1 <= x)%Q -> Qnum x < 2 ^ 52 ->
  Math_round (NumberValue x) = Fin (inject_Z (Qfloor (x + (1 # 2)))).
Proof.
  intros Hx Hn.
  assert (Hn0 : 0 <= Qnum x).
  { unfold Qle in Hx. cbn [Qnum Qden] in Hx. lia. }
  pose proof (Qred_num_le x Hn0) as Hred.
  pose proof (Qred_correct x) as Hc.
  assert (Hx' : (1 <= Qred x)%Q) by now rewrite Hc.
  rewrite (Qfloor_comp (x + (1 # 2)) (Qred x + (1 # 2))) by now rewrite Hc.
  unfold NumberValue. cbn zeta.
  destruct (Qred x) as [a b]. cbn [Qnum Qden] in *.
  unfold Qle in Hx'. cbn [Qnum Qden] in Hx'.
  destruct a as [|a|a]; [lia| |lia].
  rewrite magnitude_round by lia.
  do 2 f_equal. unfold Qfloor, Qplus. cbn [Qnum Qden].
  rewrite Pos2Z.inj_mul. f_equal; lia.
Qed.

Lemma pow2_pos (e : Z) : (0 < pow2 e)%Q.
Proof.
  unfold pow2. destruct (0 <=? e) eqn:E.
  - apply Z.leb_le in E. change 0%Q with (inject_Z 0). rewrite <- Zlt_Qlt.
    now apply pow2_pos_Z.
  - reflexivity.
Qed.

Lemma magnitude_nonNegative (a b : Z) :
  0 < a -> 0 < b -> nonNegative (magnitude a b).
Proof.
  intros Ha Hb. unfold magnitude.
  set (e := Z.max _ _).
  assert (Hs : 0 <= fst (scaled a b e) /\ 0 < snd (scaled a b e)).
  { unfold scaled. destruct (e <=? 0) eqn:E; cbn [fst snd].
    - apply Z.leb_le in E. assert (0 < 2 ^ (- e)) by (apply pow2_pos_Z; lia). nia.
    - apply Z.leb_gt in E. assert (0 < 2 ^ e) by (apply pow2_pos_Z; lia). nia. }
  destruct (scaled a b e) as [n d]. cbn [fst snd] in Hs. destruct Hs as [Hn Hd].
  destruct (Qle_bool _ _); [now left|]. right. eexists. split; [reflexivity|].
  rewrite Qred_correct. apply Qmult_le_0_compat.
  - change 0%Q with (inject_Z 0). rewrite <- Zle_Qle.
    pose proof (Z.div_pos n d Hn Hd).
    destruct (roundHalfEven_cases n d Hd) as [[-> _]|[-> _]]; lia.
  - apply Qlt_le_weak, pow2_pos.
Qed.

Lemma NumberValue_nonNegative (x : Q) :
  (0 <= x)%Q -> nonNegative (NumberValue x).
Proof.
  intros Hx. rewrite <- (Qred_correct x) in Hx. unfold NumberValue. cbn zeta.
  destruct (Qred x) as [a b]. unfold Qle in Hx. cbn [Qnum Qden] in *.
  destruct a as [|a|a]; [|apply magnitude_nonNegative; lia | lia].
  right. exists 0%Q. split; [reflexivity | apply Qle_refl].
Qed.

(** On these values, among them a subnormal one, one that is no double
    and sums and quotients that pass the largest double, the sums and
    the quotients are those of binary64 arithmetic as the library
    specifies it. *)
Example doubles_as_in_binary64 :
  let values :=
    List.map NumberValue
      [ 0; 1 # 10; 2 # 10; 1 # 100; 99 # 100; 1 # 3; 5 # 7; 1 # 4; 3; 7;
        116898; 1234567 # 1000; inject_Z (2 ^ 53 + 1);
        inject_Z (10 ^ 308); 1 # Z.to_pos (10 ^ 320) ]%Q in
  forallb
    (fun x =>
       forallb
         (fun y =>
            bool_decide
              (toSpecFloat (add x y)
               = SpecFloat.SFadd 53 1024 (toSpecFloat x) (toSpecFloat y))
            && bool_decide
                 (toSpecFloat (div x y)
                  = SpecFloat.SFdiv 53 1024 (toSpecFloat x) (toSpecFloat y)))
         values)
    values
  = true.
Proof. vm_compute. reflexivity. Qed.

(** *** The reduction *)

Lemma hasWage_pos (r : JobRecord) : hasWage r = true -> (0 < wageNum r)%Q.
Proof.
  unfold hasWage, wageNum. destruct (wage r) as [w|]; [|discriminate].
  intros Hw. apply negb_true_iff in Hw.
  apply Qnot_le_lt. intros Hle. apply Qle_bool_iff in Hle. congruence.
Qed.

Lemma hasWage_iff (r : JobRecord) :
  hasWage r = true <-> exists w, wage r = Some w /\ (0 < w)%Q.
Proof.
  split.
  - intros Hw. pose proof (hasWage_pos r Hw) as Hp. unfold hasWage, wageNum in *.
    destruct (wage r) as [w|]; [eauto | discriminate].
  - intros (w & Hw & Hp). unfold hasWage. rewrite Hw.
    apply negb_true_iff. destruct (Qle_bool w 0) eqn:E; [|reflexivity].
    apply Qle_bool_iff in E. exfalso. now apply (Qlt_not_le 0 w).
Qed.

Lemma Qfloor_zero_iff (x : Q) : Qfloor x = 0 <-> (0 <= x /\ x < 1)%Q.
Proof.
  split.
  - intros H0. pose proof (Qfloor_le x) as Hle. pose proof (Qlt_floor x) as Hlt.
    rewrite H0 in Hle, Hlt. now split.
  - intros [Hle Hlt].
    assert (H1 : 0 <= Qfloor x).
    { change 0 with (Qfloor 0). now apply Qfloor_resp_le. }
    assert (H2 : Qfloor x < 1).
    { rewrite Zlt_Qlt. eapply Qle_lt_trans; [apply Qfloor_le | exact Hlt]. }
    lia.
Qed.

Lemma wageSum_lower (c : Q) (l : list JobRecord) :
  Forall (fun r => (c <= wageNum r)%Q) l ->
  (c * inject_Z (Z.of_nat (length l)) <= wageSum l)%Q.
Proof.
  induction 1 as [|r l Hr _ IH]; simpl length; simpl wageSum.
  - rewrite Qmult_0_r. apply Qle_refl.
  - rewrite Nat2Z.inj_succ, <- Z.add_1_r, inject_Z_plus.
    rewrite Qmult_plus_distr_r, Qmult_1_r, Qplus_comm.
    now apply Qplus_le_compat.
Qed.

Lemma wageSum_pos (l : list JobRecord) :
  l <> [] -> Forall (fun r => (0 < wageNum r)%Q) l -> (0 < wageSum l)%Q.
Proof.
  intros Hne Hall. destruct Hall as [|r l Hr Hall]; [congruence|].
  simpl. rewrite <- (Qplus_0_r 0).
  apply Qplus_lt_le_compat; [assumption|].
  pose proof (wageSum_lower 0 l) as Hl. rewrite Qmult_0_l in Hl.
  apply Hl. eapply Forall_impl; [exact Hall|]. intros; now apply Qlt_le_weak.
Qed.

Lemma length_pos_Q {A : Type} (l : list A) :
  l <> [] -> (0 < inject_Z (Z.of_nat (length l)))%Q.
Proof.
  intros Hne. destruct l; [congruence|].
  change 0%Q with (inject_Z 0). rewrite <- Zlt_Qlt. simpl length. lia.
Qed.

Lemma eligible_pos (arr : list JobRecord) :
  Forall (fun r => (0 < wageNum r)%Q) (List.filter hasWage arr).
Proof.
  apply Forall_forall. intros r Hr. apply list_elem_of_In, filter_In in Hr.
  now apply hasWage_pos.
Qed.

Lemma avgWage_unfold (arr : list JobRecord) :
  avgWage arr
  = match List.filter hasWage arr with
    | [] => Fin 0
    | _ :: _ => Math_round (doubleMean (List.filter hasWage arr))
    end.
Proof.
  unfold avgWage, doubleMean, doubleSum.
  now destruct (List.filter hasWage arr).
Qed.

(** *** Sums that stay finite and sums of whole numbers *)

Lemma add_nonNegative (x : Number) (w : Q) :
  nonNegative x -> (0 <= w)%Q -> nonNegative (add x (Fin w)).
Proof.
  intros [->|(q & -> & Hq)] Hw; [now left|].
  cbn [add]. apply NumberValue_nonNegative.
  rewrite <- (Qplus_0_r 0). now apply Qplus_le_compat.
Qed.

Lemma fold_add_nonNegative (l : list JobRecord) (x : Number) :
  nonNegative x -> Forall (fun r => (0 < wageNum r)%Q) l ->
  nonNegative (fold_left (fun s r => add s (Fin (wageNum r))) l x).
Proof.
  revert x. induction l as [|r l IH]; intros x Hx Hall; [exact Hx|].
  apply Forall_cons in Hall as [Hr Hall]. cbn [fold_left].
  apply IH; [|exact Hall]. apply add_nonNegative; [exact Hx|].
  now apply Qlt_le_weak.
Qed.

Lemma doubleMean_nonNegative (l : list JobRecord) :
  l <> [] -> Forall (fun r => (0 < wageNum r)%Q) l ->
  nonNegative (doubleMean l).
Proof.
  intros Hne Hall. unfold doubleMean, doubleSum, ofLength.
  pose proof (length_pos_Q l Hne) as Hn.
  assert (H0 : nonNegative (Fin 0)).
  { right. exists 0%Q. split; [reflexivity | apply Qle_refl]. }
  destruct (fold_add_nonNegative l (Fin 0) H0 Hall) as [->|(q & -> & Hq)].
  - left. cbn [div]. unfold isNegative.
    destruct (Qnum (inject_Z (Z.of_nat (length l))) <? 0) eqn:E; [|reflexivity].
    apply Z.ltb_lt in E. simpl in E. lia.
  - cbn [div].
    destruct (Qeq_bool (inject_Z (Z.of_nat (length l))) 0) eqn:E.
    + apply Qeq_bool_iff in E. rewrite E in Hn. now apply Qlt_irrefl in Hn.
    + apply NumberValue_nonNegative. apply Qle_shift_div_l; [exact Hn|].
      now rewrite Qmult_0_l.
Qed.

Lemma Math_round_whole (x : Number) :
  nonNegative x -> wholeOrInfinite (Math_round x).
Proof.
  intros [->|(q & -> & Hq)]; [now left|]. right.
  exists (Qfloor (q + (1 # 2))). split; [|reflexivity].
  change 0 with (Qfloor 0). apply Qfloor_resp_le.
  rewrite <- (Qplus_0_r 0). apply Qplus_le_compat; [exact Hq | discriminate].
Qed.

Lemma avgWage_whole (arr : list JobRecord) : wholeOrInfinite (avgWage arr).
Proof.
  rewrite avgWage_unfold.
  destruct (List.filter hasWage arr) as [|r l] eqn:E.
  - right. exists 0. split; [lia | reflexivity].
  - apply Math_round_whole, doubleMean_nonNegative; [discriminate|].
    rewrite <- E. apply eligible_pos.
Qed.

Lemma isWhole_plus (a b : Q) :
  isWhole a -> isWhole b ->
  isWhole (a + b) /\ Qfloor (a + b) = Qfloor a + Qfloor b.
Proof.
  unfold isWhole. intros Ha Hb.
  assert (Hs : (a + b == inject_Z (Qfloor a + Qfloor b))%Q).
  { rewrite inject_Z_plus, <- Ha, <- Hb. reflexivity. }
  assert (Hf : Qfloor (a + b) = Qfloor a + Qfloor b).
  { rewrite (Qfloor_comp _ _ Hs). apply Qfloor_Z. }
  split; [now rewrite Hf | exact Hf].
Qed.

Lemma wageSum_whole (l : list JobRecord) :
  Forall (fun r => isWhole (wageNum r)) l -> isWhole (wageSum l).
Proof.
  induction 1 as [|r l Hr _ IH]; cbn [wageSum].
  - unfold isWhole. reflexivity.
  - now apply isWhole_plus.
Qed.

(** Adding whole wages from a whole number: while the total stays below
    2 to the 53 no sum is rounded. *)
Lemma fold_add_whole (l : list JobRecord) :
  forall z : Z,
    0 <= z ->
    Forall (fun r => isWhole (wageNum r) /\ (0 < wageNum r)%Q) l ->
    (inject_Z z + wageSum l < inject_Z (2 ^ 53))%Q ->
    fold_left (fun s r => add s (Fin (wageNum r))) l (Fin (inject_Z z))
    = Fin (inject_Z (z + Qfloor (wageSum l))).
Proof.
  induction l as [|r l IH]; intros z Hz Hall Hlt.
  - cbn [fold_left wageSum]. change (Qfloor 0) with 0. now rewrite Z.add_0_r.
  - apply Forall_cons in Hall as [[Hw Hp] Hall].
    assert (Hwl : isWhole (wageSum l)).
    { apply wageSum_whole. eapply Forall_impl; [exact Hall|]. now intros ? []. }
    assert (Hl0 : (0 <= wageSum l)%Q).
    { pose proof (wageSum_lower 0 l) as H. rewrite Qmult_0_l in H. apply H.
      eapply Forall_impl; [exact Hall|]. intros ? [_ ?]. now apply Qlt_le_weak. }
    destruct (isWhole_plus _ _ Hw Hwl) as [_ Hf].
    cbn [fold_left wageSum add] in *.
    assert (Hr0 : 0 <= Qfloor (wageNum r)).
    { change 0 with (Qfloor 0). apply Qfloor_resp_le. now apply Qlt_le_weak. }
    unfold isWhole in Hw.
    rewrite (NumberValue_whole _ (z + Qfloor (wageNum r))).
    + rewrite IH; [f_equal; f_equal; lia | lia | exact Hall |].
      rewrite inject_Z_plus, <- Hw. lra.
    + split; [lia|]. rewrite Zlt_Qlt, inject_Z_plus, <- Hw. lra.
    + rewrite inject_Z_plus, <- Hw. reflexivity.
Qed.

Lemma Fin_whole_inj (z z' : Z) : Fin (inject_Z z) = Fin (inject_Z z') <-> z = z'.
Proof. split; [intros [= ->] | intros ->]; reflexivity. Qed.

Lemma whole_pos_ge_1 (q : Q) : isWhole q -> (0 < q)%Q -> (1 <= q)%Q.
Proof.
  unfold isWhole. intros Hw Hp. rewrite Hw in Hp |- *.
  change 0%Q with (inject_Z 0) in Hp. change 1%Q with (inject_Z 1).
  rewrite <- Zlt_Qlt in Hp. rewrite <- Zle_Qle. lia.
Qed.

(** The average of whole wages whose total is below 2 to the 52. *)
Lemma avgWage_whole_wages (l : list JobRecord) :
  l <> [] ->
  Forall (fun r => isWhole (wageNum r) /\ (0 < wageNum r)%Q) l ->
  (wageSum l < inject_Z (2 ^ 52))%Q ->
  doubleSum l = Fin (inject_Z (Qfloor (wageSum l)))
  /\ Math_round (doubleMean l)
     = Fin (inject_Z (Qfloor (wageMean l + (1 # 2))))
  /\ (1 <= wageMean l)%Q.
Proof.
  intros Hne Hall Hlt.
  assert (Hw : isWhole (wageSum l)).
  { apply wageSum_whole. eapply Forall_impl; [exact Hall|]. now intros ? []. }
  assert (Hn : (inject_Z (Z.of_nat (length l)) <= wageSum l)%Q).
  { rewrite <- (Qmult_1_l (inject_Z _)). apply wageSum_lower.
    eapply Forall_impl; [exact Hall|]. intros ? []. now apply whole_pos_ge_1. }
  pose proof (length_pos_Q l Hne) as Hn0.
  assert (Hmean : (1 <= wageMean l)%Q).
  { unfold wageMean. apply Qle_shift_div_l; [exact Hn0|]. now rewrite Qmult_1_l. }
  assert (Hsum : doubleSum l = Fin (inject_Z (Qfloor (wageSum l)))).
  { unfold doubleSum. change (Fin 0) with (Fin (inject_Z 0)).
    rewrite fold_add_whole; [reflexivity | lia | exact Hall |].
    rewrite Qplus_0_l. eapply Qlt_le_trans; [exact Hlt|].
    rewrite <- Zle_Qle. apply Z.pow_le_mono_r; lia. }
  split; [exact Hsum|]. split; [|exact Hmean].
  unfold doubleMean. rewrite Hsum. unfold ofLength. cbn [div].
  set (S := Qfloor (wageSum l)) in *.
  set (n := Z.of_nat (length l)) in *.
  unfold isWhole in Hw. fold S in Hw.
  assert (HS : S < 2 ^ 52) by (rewrite Zlt_Qlt, <- Hw; exact Hlt).
  assert (Hq : (wageMean l == inject_Z S / inject_Z n)%Q).
  { unfold wageMean. fold n. now rewrite Hw at 1. }
  destruct (Qeq_bool (inject_Z n) 0) eqn:E.
  { apply Qeq_bool_iff in E. rewrite E in Hn0. now apply Qlt_irrefl in Hn0. }
  rewrite NumberValue_round.
  - do 2 f_equal. apply Qfloor_comp. now rewrite Hq.
  - now rewrite <- Hq.
  - change 0%Q with (inject_Z 0) in Hn0. rewrite <- Zlt_Qlt in Hn0.
    destruct n as [|p|p]; [lia| |lia]. cbn. lia.
Qed.

(** C6, as the code has it.  The average wage is 0 when no record has a
    wage above 0.  When some record has one, it is [Math.round] of the
    sum of the wages above 0 divided by their number, the sum taken from
    the left and each sum and the quotient rounded to a double: records
    with no wage or a zero wage count neither in the sum nor in the
    number divided by.  The result is a whole number that is not
    negative, or [Infinity] when the sum has passed the largest double.
    It is 0 as well when the quotient is below one half.  When the
    listed wages are whole numbers with a total below 2 to the 52, no
    sum is rounded and the average is the mean of the listed wages
    rounded to the nearest integer, halves going up; it is then 0 only
    if no record has a wage above 0. *)
Theorem avgWage_rounded_mean (arr : list JobRecord) :
  let eligible := List.filter hasWage arr in
  (forall r, In r eligible
             <-> In r arr /\ exists w, wage r = Some w /\ (0 < w)%Q)
  /\ (eligible = [] -> avgWage arr = Fin 0)
  /\ (eligible <> [] -> avgWage arr = Math_round (doubleMean eligible))
  /\ wholeOrInfinite (avgWage arr)
  /\ (avgWage arr = Fin 0
      <-> eligible = []
          \/ exists q, doubleMean eligible = Fin q /\ (q < 1 # 2)%Q)
  /\ (Forall (fun r => isWhole (wageNum r)) eligible ->
      (wageSum eligible < inject_Z (2 ^ 52))%Q ->
      (eligible <> [] ->
       doubleSum eligible = Fin (inject_Z (Qfloor (wageSum eligible)))
       /\ avgWage arr = Fin (inject_Z (Qfloor (wageMean eligible + (1 # 2))))
       /\ (wageMean eligible - (1 # 2)
           < inject_Z (Qfloor (wageMean eligible + (1 # 2))))%Q
       /\ (inject_Z (Qfloor (wageMean eligible + (1 # 2)))
           <= wageMean eligible + (1 # 2))%Q)
      /\ (avgWage arr = Fin 0 <-> eligible = [])).
Proof.
  intros eligible.
  assert (Hpos : Forall (fun r => (0 < wageNum r)%Q) eligible)
    by apply eligible_pos.
  assert (Hun : eligible <> [] -> avgWage arr = Math_round (doubleMean eligible)).
  { intros Hne. rewrite avgWage_unfold. fold eligible.
    destruct eligible; [congruence | reflexivity]. }
  assert (Hnil : eligible = [] -> avgWage arr = Fin 0).
  { intros He. rewrite avgWage_unfold. fold eligible. now rewrite He. }
  split; [| split; [| split; [| split; [| split]]]].
  - intros r. unfold eligible. rewrite filter_In, hasWage_iff. reflexivity.
  - exact Hnil.
  - exact Hun.
  - apply avgWage_whole.
  - destruct (decide (eligible = [])) as [He|Hne].
    { split; [now left | intros _; now apply Hnil]. }
    rewrite (Hun Hne).
    destruct (doubleMean_nonNegative eligible Hne Hpos) as [->|(q & -> & Hq)].
    + split; [discriminate|]. intros [?|(q & Hq & _)]; [contradiction | discriminate].
    + cbn [Math_round]. change (Fin 0) with (Fin (inject_Z 0)).
      rewrite Fin_whole_inj, Qfloor_zero_iff. split.
      * intros [_ Hlt]. right. exists q. split; [reflexivity | lra].
      * intros [?|(q' & [= <-] & Hlt)]; [contradiction|]. split; lra.
  - intros Hwhole Hlt.
    assert (Hall : Forall (fun r => isWhole (wageNum r) /\ (0 < wageNum r)%Q)
                     eligible).
    { apply Forall_forall. intros r Hr. split.
      - now apply (proj1 (Forall_forall _ _) Hwhole).
      - now apply (proj1 (Forall_forall _ _) Hpos). }
    assert (Hex : eligible <> [] ->
              avgWage arr
              = Fin (inject_Z (Qfloor (wageMean eligible + (1 # 2))))
              /\ (1 <= wageMean eligible)%Q).
    { intros Hne. rewrite (Hun Hne).
      destruct (avgWage_whole_wages eligible Hne Hall Hlt) as (_ & -> & Hm).
      now split. }
    split.
    + intros Hne. destruct (Hex Hne) as [Ha _].
      destruct (avgWage_whole_wages eligible Hne Hall Hlt) as (Hs & _ & _).
      split; [exact Hs|]. split; [exact Ha|].
      pose proof (Qfloor_le (wageMean eligible + (1 # 2))) as Hle.
      pose proof (Qlt_floor (wageMean eligible + (1 # 2))) as Hlt'.
      rewrite inject_Z_plus in Hlt'. change (inject_Z 1) with 1%Q in Hlt'.
      split; [lra | exact Hle].
    + destruct (decide (eligible = [])) as [He|Hne].
      { split; [now intros _ | intros _; now apply Hnil]. }
      destruct (Hex Hne) as [-> Hm]. split; [|contradiction].
      change (Fin 0) with (Fin (inject_Z 0)). rewrite Fin_whole_inj.
      intros H0. apply Qfloor_zero_iff in H0. lra.
Qed.

(** C6 fails as stated.  The only record of the first subset lists a
    wage of 0.25, which is above 0 and is a double, and the average wage
    is 0.  The two wages of the second are the doubles nearest to 0.01
    and to 0.99: their sum divided by 2 rounds to 0, and the average wage
    is 1. *)
Lemma avgWage_zero_despite_listed_wage :
  let job w := mkJob 1 (js "Intern") (js "Acme") (js "Phoenix, AZ")
                 (js "2026-02-20") (js "Active") (Some w)
                 (js "Software Developers") [] [] [] in
  let r := job (1 # 4) in
  let data := [ job (5764607523034235 # 576460752303423488);
                job (4458563631096791 # 4503599627370496) ] in
  hasWage r = true /\ avgWage [r] = Fin 0
  /\ ~ (avgWage [r] = Fin 0 <-> List.filter hasWage [r] = [])
  /\ List.filter hasWage data = data
  /\ Qfloor (wageSum data / inject_Z (Z.of_nat (length data)) + (1 # 2)) = 0
  /\ avgWage data = Fin 1.
Proof.
  vm_compute. split; [reflexivity|]. split; [reflexivity|].
  split; [|repeat split; reflexivity].
  intros [H _]. specialize (H eq_refl). discriminate.
Qed.

(** The sums are those of doubles.  The doubles nearest to 0.01 and to
    0.99 add up to a little less than 1, and to the double 1: the average
    of the two wages is [Math.round(0.5)], which is 1, where their exact
    mean rounds to 0. *)
Example avgWage_sum_is_rounded :
  let job w := mkJob 1 (js "Intern") (js "Acme") (js "Phoenix, AZ")
                 (js "2026-02-20") (js "Active") (Some w)
                 (js "Software Developers") [] [] [] in
  let data := [ job (5764607523034235 # 576460752303423488);
                job (4458563631096791 # 4503599627370496) ] in
  NumberValue (1 # 100) = Fin (5764607523034235 # 576460752303423488)
  /\ NumberValue (99 # 100) = Fin (4458563631096791 # 4503599627370496)
  /\ doubleSum data = Fin 1
  /\ avgWage data = Fin 1
  /\ Qfloor (wageMean data + (1 # 2)) = 0.
Proof. vm_compute. repeat split; reflexivity. Qed.

(** Whole wages: the average of 90000, 120000 and 150000 is 120000, and
    that of 1 and 2 is 2, the half going up. *)
Example avgWage_whole_example :
  avgWage wageSample = Fin 120000
  /\ avgWage [sampleJob 1 "A" "Acme" "2026-02-20" (Some 1%Q);
              sampleJob 2 "B" "Acme" "2026-02-20" (Some 2%Q)] = Fin 2.
Proof. vm_compute. split; reflexivity. Qed.

(** ** C3, C10: the freshness chart *)

Section FilterFacts.
Context {A : Type} `{EqDecision A}.

(** Taking out of [l] what [p] took leaves what [p] refused. *)
Lemma filter_not_in_filter (p : A -> bool) (l : list A) :
  List.filter (fun j => negb (bool_decide (j ∈ List.filter p l))) l
  = List.filter (fun j => negb (p j)) l.
Proof.
  apply filter_ext_in. intros j Hj. f_equal.
  destruct (p j) eqn:Hp.
  - apply bool_decide_eq_true_2, list_elem_of_In, filter_In. now split.
  - apply bool_decide_eq_false_2. intros Hin.
    apply list_elem_of_In, filter_In in Hin as [_ Hin]. congruence.
Qed.

Lemma filter_filter_and (p q : A -> bool) (l : list A) :
  List.filter p (List.filter q l) = List.filter (fun j => q j && p j) l.
Proof.
  induction l as [|j l IH]; simpl; [reflexivity|].
  destruct (q j); simpl; [destruct (p j)|]; now rewrite IH.
Qed.

Lemma filter_length_split (p : A -> bool) (l : list A) :
  (length (List.filter p l) + length (List.filter (fun j => negb (p j)) l)
   = length l)%nat.
Proof.
  induction l as [|j l IH]; simpl; [reflexivity|].
  destruct (p j); simpl; lia.
Qed.

End FilterFacts.

Lemma bandIndex_lt (host : Z -> bool -> Z) (j : JobRecord) :
  (bandIndex host j < 5)%nat.
Proof. unfold bandIndex. repeat destruct (matches _ _ _ _); lia. Qed.

Lemma bandCounts_sum (band : JobRecord -> nat) (data : list JobRecord) :
  (forall j, (band j < 5)%nat) ->
  list_sum (bandCounts band data) = length data.
Proof.
  intros Hb. unfold bandCounts. induction data as [|j data IH]; [reflexivity|].
  cbn [List.map List.filter list_sum] in *.
  specialize (Hb j).
  destruct (band j) as [|[|[|[|[|n]]]]]; cbn [Nat.eqb length];
    unfold list_sum in *; cbn [fold_right] in *; lia.
Qed.

Lemma buckets_counts (host : Z -> bool -> Z) (data : list JobRecord) :
  List.map count (buckets host data) = bandCounts (bandIndex host) data.
Proof.
  unfold buckets, ranges, bandCounts.
  cbn [bucketLoop bucketStep maxDays prevMaxOf lookup list_lookup default
       List.map count ranges].
  rewrite !filter_not_in_filter, !filter_filter_and.
  repeat (apply (f_equal2 cons);
          [ apply (f_equal (@length JobRecord)), filter_ext; intros j;
            unfold bandIndex; repeat destruct (matches _ _ _ j); reflexivity
          | ]).
  reflexivity.
Qed.

(** *** The fixed reference date *)

Lemma today_value (host : Z -> bool -> Z) :
  today host = midnightBefore 0 - host (midnightBefore 0) false.
Proof. reflexivity. Qed.

Lemma offsetHeld_fixed (tz : Z) (ks : list Z) :
  offsetHeld (fixedOffset tz) tz ks.
Proof. split; [reflexivity|]. apply Forall_forall. now intros k _. Qed.

Lemma toISODate_Day (t t' : Z) : Day t = Day t' -> toISODate t = toISODate t'.
Proof. unfold toISODate. now intros ->. Qed.

Lemma Day_back (t k : Z) : Day (t - k * msPerDay) = Day t - k.
Proof.
  unfold Day. replace (t - k * msPerDay) with (t + (- k) * msPerDay) by lia.
  rewrite Z.div_add by (unfold msPerDay; lia). lia.
Qed.

Lemma Day_of_day (d : Z) : Day (d * msPerDay) = d.
Proof. unfold Day. apply Z.div_mul. unfold msPerDay. lia. Qed.

(** The other edge of a range is a number of milliseconds before the
    reference, on any host. *)
Lemma prevStr_iso (host : Z -> bool -> Z) (k : Z) :
  0 < k -> prevStr host k = isoOfDay (Day (today host) - k).
Proof.
  intros Hk. unfold prevStr, isoOfDay.
  destruct (0 <? k) eqn:E; [|apply Z.ltb_ge in E; lia].
  apply toISODate_Day.
  change 86400000 with msPerDay. now rewrite Day_back, Day_of_day.
Qed.

Section SteadyHost.
Variable host : Z -> bool -> Z.
Variable tz : Z.
Variable ks : list Z.
Hypothesis held : offsetHeld host tz ks.

Lemma held_reference : host (today host) true = tz * msPerMinute.
Proof. exact (proj1 held). Qed.

Lemma held_midnight (k : Z) :
  In k (0 :: ks) -> host (midnightBefore k) false = tz * msPerMinute.
Proof.
  intros Hk. apply list_elem_of_In in Hk.
  exact (proj1 (Forall_forall _ _) (proj2 held) k Hk).
Qed.

Lemma today_held : today host = midnightBefore 0 - tz * msPerMinute.
Proof. rewrite today_value, held_midnight by now left. reflexivity. Qed.

Lemma LocalTime_today :
  LocalTime host (today host) = daysFromCivil 2026 2 27 * msPerDay.
Proof.
  unfold LocalTime. rewrite held_reference, today_held.
  unfold midnightBefore. lia.
Qed.

Lemma getDate_today : getDate host (today host) = 27.
Proof. unfold getDate. rewrite LocalTime_today. reflexivity. Qed.

(** Going back [k] calendar days from the reference midnight is going
    back [k] times 24 hours when the host has the same offset there. *)
Lemma setDate_today (k : Z) :
  In k ks ->
  setDate host (today host) (getDate host (today host) - k)
  = today host - k * msPerDay.
Proof.
  intros Hk. rewrite getDate_today. unfold setDate. rewrite LocalTime_today.
  change (YearFromTime (daysFromCivil 2026 2 27 * msPerDay)) with 2026.
  change (MonthFromTime (daysFromCivil 2026 2 27 * msPerDay)) with 1.
  change (TimeWithinDay (daysFromCivil 2026 2 27 * msPerDay)) with 0.
  unfold UTC, MakeDate, MakeDay.
  change (daysFromCivil 2026 (1 + 1) 1) with 20485.
  replace ((20485 + (27 - k) - 1) * msPerDay + 0) with (midnightBefore k)
    by (unfold midnightBefore; change (daysFromCivil 2026 2 27) with 20511; lia).
  rewrite held_midnight by now right. rewrite today_held.
  unfold midnightBefore. lia.
Qed.

Lemma cutoffStr_iso (k : Z) :
  In k ks -> cutoffStr host k = isoOfDay (Day (today host) - k).
Proof.
  intros Hk. unfold cutoffStr, isoOfDay. rewrite setDate_today by exact Hk.
  apply toISODate_Day. now rewrite Day_back, Day_of_day.
Qed.

(** The UTC day of the reference midnight: the 27th at or west of
    Greenwich, the 26th east of it. *)
Lemma Day_today :
  -1440 < tz <= 1440 ->
  Day (today host) = daysFromCivil 2026 2 27 - (if 0 <? tz then 1 else 0).
Proof.
  intros Htz. rewrite today_held. unfold midnightBefore.
  change (daysFromCivil 2026 2 27) with 20511.
  unfold Day, msPerDay, msPerMinute.
  destruct (0 <? tz) eqn:E; [apply Z.ltb_lt in E | apply Z.ltb_ge in E];
    symmetry.
  - apply (Z.div_unique_pos _ _ _ (86400000 - tz * 60000)); lia.
  - apply (Z.div_unique_pos _ _ _ (- tz * 60000)); lia.
Qed.

End SteadyHost.

Lemma bandIndex_relative (host : Z -> bool -> Z) (tz : Z) (j : JobRecord) :
  offsetHeld host tz [5; 10; 30; 60] ->
  bandIndex host j = bandRelativeTo (Day (today host)) (datePosted j).
Proof.
  intros Hh. unfold bandIndex, bandRelativeTo, matches.
  cbn [Z.eqb].
  rewrite !(cutoffStr_iso host tz _ Hh) by (cbn [In]; lia).
  rewrite !prevStr_iso by lia.
  unfold str_geb.
  repeat (destruct (str_ltb (datePosted j) _); cbn [negb andb]; try reflexivity).
Qed.

(** *** Bands by age in days *)

Lemma to_N_ltb (a b : Z) :
  0 <= a -> 0 <= b -> (Z.to_N a <? Z.to_N b)%N = (a <? b).
Proof.
  intros Ha Hb. destruct (a <? b) eqn:E.
  - apply Z.ltb_lt in E. apply N.ltb_lt. lia.
  - apply Z.ltb_ge in E. apply N.ltb_ge. lia.
Qed.

(** Decimal strings of one width compare as the numbers they write. *)
Lemma str_ltb_digits (w : nat) :
  forall (x y : Z) (s t : jsstring),
    0 <= x < 10 ^ Z.of_nat w -> 0 <= y < 10 ^ Z.of_nat w ->
    str_ltb (digits w x ++ s) (digits w y ++ t)
    = if x <? y then true else if y <? x then false else str_ltb s t.
Proof.
  induction w as [|w IH]; intros x y s t Hx Hy.
  - simpl in Hx, Hy. assert (x = 0) by lia. assert (y = 0) by lia. now subst.
  - rewrite Nat2Z.inj_succ, Z.pow_succ_r in Hx, Hy by lia.
    cbn [digits]. rewrite <- !app_assoc.
    rewrite IH by (split; [apply Z.div_pos; lia | apply Z.div_lt_upper_bound; lia]).
    cbn [app str_ltb].
    rewrite !to_N_ltb by (pose proof (Z.mod_pos_bound x 10); pose proof (Z.mod_pos_bound y 10); lia).
    pose proof (Z.div_mod x 10 ltac:(lia)) as Ex.
    pose proof (Z.div_mod y 10 ltac:(lia)) as Ey.
    pose proof (Z.mod_pos_bound x 10 ltac:(lia)) as Bx.
    pose proof (Z.mod_pos_bound y 10 ltac:(lia)) as By.
    repeat match goal with
      | |- context [?a <? ?b] =>
          let E := fresh "E" in
          destruct (a <? b) eqn:E; [apply Z.ltb_lt in E | apply Z.ltb_ge in E]
      end; try reflexivity; lia.
Qed.

Lemma str_ltb_isoDate (y m d y0 m0 d0 : Z) :
  0 <= y <= 9999 -> 0 <= m <= 99 -> 0 <= d <= 99 ->
  0 <= y0 <= 9999 -> 0 <= m0 <= 99 -> 0 <= d0 <= 99 ->
  str_ltb (isoDate y m d) (isoDate y0 m0 d0)
  = if y <? y0 then true else if y0 <? y then false
    else if m <? m0 then true else if m0 <? m then false
    else d <? d0.
Proof.
  intros. unfold isoDate.
  rewrite str_ltb_digits by (simpl; lia).
  cbn [app str_ltb N.ltb N.compare Pos.compare Pos.compare_cont].
  rewrite str_ltb_digits by (simpl; lia).
  cbn [app str_ltb N.ltb N.compare Pos.compare Pos.compare_cont].
  rewrite <- (app_nil_r (digits 2 d)), <- (app_nil_r (digits 2 d0)).
  rewrite str_ltb_digits by (simpl; lia).
  cbn [str_ltb].
  destruct (d <? d0) eqn:E; [reflexivity|].
  now destruct (d0 <? d), (m <? m0), (m0 <? m), (y <? y0), (y0 <? y).
Qed.

Ltac z_bools :=
  repeat match goal with
    | H : (_ <? _) = true |- _ => apply Z.ltb_lt in H
    | H : (_ <? _) = false |- _ => apply Z.ltb_ge in H
    | H : (_ <=? _) = true |- _ => apply Z.leb_le in H
    | H : (_ <=? _) = false |- _ => apply Z.leb_gt in H
    end.

Lemma str_geb_edge (y m d y0 m0 d0 : Z) :
  0 <= y <= 9999 -> 1 <= m <= 12 -> 1 <= d <= 31 ->
  0 <= y0 <= 9999 -> 1 <= m0 <= 12 -> 1 <= d0 <= 31 ->
  str_geb (isoDate y m d) (isoDate y0 m0 d0) = true
  <-> (y0 < y \/ (y = y0 /\ (m0 < m \/ (m = m0 /\ d0 <= d)))).
Proof.
  intros. unfold str_geb. rewrite str_ltb_isoDate by lia.
  destruct (y <? y0) eqn:E1, (y0 <? y) eqn:E2, (m <? m0) eqn:E3,
    (m0 <? m) eqn:E4, (d <? d0) eqn:E5; z_bools; cbn [negb];
    split; intros; try discriminate; try reflexivity; lia.
Qed.

Lemma daysFromCivil_edges (y m d : Z) :
  0 <= y <= 9999 -> 1 <= m <= 12 -> 1 <= d <= 31 ->
  let n := daysFromCivil y m d in
  (20506 <= n <-> (2026 < y \/ (y = 2026 /\ (2 < m \/ (m = 2 /\ 22 <= d)))))
  /\ (20501 <= n <-> (2026 < y \/ (y = 2026 /\ (2 < m \/ (m = 2 /\ 17 <= d)))))
  /\ (20481 <= n <-> (2026 < y \/ (y = 2026 /\ (1 < m \/ (m = 1 /\ 28 <= d)))))
  /\ (20451 <= n <-> (2025 < y \/ (y = 2025 /\ (12 < m \/ (m = 12 /\ 29 <= d))))).
Proof.
  intros Hy Hm Hd. unfold daysFromCivil.
  destruct (m <=? 2) eqn:E; z_bools; cbv zeta; Z.div_mod_to_equations; lia.
Qed.

Lemma daysFromCivil_edges_east (y m d : Z) :
  0 <= y <= 9999 -> 1 <= m <= 12 -> 1 <= d <= 31 ->
  let n := daysFromCivil y m d in
  (20505 <= n <-> (2026 < y \/ (y = 2026 /\ (2 < m \/ (m = 2 /\ 21 <= d)))))
  /\ (20500 <= n <-> (2026 < y \/ (y = 2026 /\ (2 < m \/ (m = 2 /\ 16 <= d)))))
  /\ (20480 <= n <-> (2026 < y \/ (y = 2026 /\ (1 < m \/ (m = 1 /\ 27 <= d)))))
  /\ (20450 <= n <-> (2025 < y \/ (y = 2025 /\ (12 < m \/ (m = 12 /\ 28 <= d))))).
Proof.
  intros Hy Hm Hd. unfold daysFromCivil.
  destruct (m <=? 2) eqn:E; z_bools; cbv zeta; Z.div_mod_to_equations; lia.
Qed.

Lemma bool_eq_iff (a b : bool) : (a = true <-> b = true) -> a = b.
Proof. destruct a, b; intuition congruence. Qed.

Ltac edge_by G H :=
  apply bool_eq_iff; rewrite Z.leb_le, G by lia; apply H.

Ltac split_leb :=
  repeat match goal with
    | |- context [if ?a <=? ?b then _ else _] =>
        let E := fresh "E" in
        destruct (a <=? b) eqn:E; z_bools; try lia
    end.

Lemma bandRelativeTo_age (ref y m d : Z) :
  ref = daysFromCivil 2026 2 27 \/ ref = daysFromCivil 2026 2 27 - 1 ->
  0 <= y <= 9999 -> 1 <= m <= 12 -> 1 <= d <= 31 ->
  bandRelativeTo ref (isoDate y m d) = ageBand (ref - daysFromCivil y m d).
Proof.
  intros Href Hy Hm Hd. unfold bandRelativeTo, ageBand.
  destruct Href as [-> | ->].
  - change (isoOfDay (daysFromCivil 2026 2 27 - 5)) with (isoDate 2026 2 22).
    change (isoOfDay (daysFromCivil 2026 2 27 - 10)) with (isoDate 2026 2 17).
    change (isoOfDay (daysFromCivil 2026 2 27 - 30)) with (isoDate 2026 1 28).
    change (isoOfDay (daysFromCivil 2026 2 27 - 60)) with (isoDate 2025 12 29).
    change (daysFromCivil 2026 2 27) with 20511.
    destruct (daysFromCivil_edges y m d Hy Hm Hd) as (H5 & H10 & H30 & H60).
    replace (str_geb (isoDate y m d) (isoDate 2026 2 22))
      with (20506 <=? daysFromCivil y m d)
      by (edge_by (str_geb_edge y m d 2026 2 22) H5).
    replace (str_geb (isoDate y m d) (isoDate 2026 2 17))
      with (20501 <=? daysFromCivil y m d)
      by (edge_by (str_geb_edge y m d 2026 2 17) H10).
    replace (str_geb (isoDate y m d) (isoDate 2026 1 28))
      with (20481 <=? daysFromCivil y m d)
      by (edge_by (str_geb_edge y m d 2026 1 28) H30).
    replace (str_geb (isoDate y m d) (isoDate 2025 12 29))
      with (20451 <=? daysFromCivil y m d)
      by (edge_by (str_geb_edge y m d 2025 12 29) H60).
    clear. generalize (daysFromCivil y m d) as n. intros n.
    split_leb; reflexivity.
  - change (isoOfDay (daysFromCivil 2026 2 27 - 1 - 5)) with (isoDate 2026 2 21).
    change (isoOfDay (daysFromCivil 2026 2 27 - 1 - 10)) with (isoDate 2026 2 16).
    change (isoOfDay (daysFromCivil 2026 2 27 - 1 - 30)) with (isoDate 2026 1 27).
    change (isoOfDay (daysFromCivil 2026 2 27 - 1 - 60)) with (isoDate 2025 12 28).
    change (daysFromCivil 2026 2 27 - 1) with 20510.
    destruct (daysFromCivil_edges_east y m d Hy Hm Hd) as (H5 & H10 & H30 & H60).
    replace (str_geb (isoDate y m d) (isoDate 2026 2 21))
      with (20505 <=? daysFromCivil y m d)
      by (edge_by (str_geb_edge y m d 2026 2 21) H5).
    replace (str_geb (isoDate y m d) (isoDate 2026 2 16))
      with (20500 <=? daysFromCivil y m d)
      by (edge_by (str_geb_edge y m d 2026 2 16) H10).
    replace (str_geb (isoDate y m d) (isoDate 2026 1 27))
      with (20480 <=? daysFromCivil y m d)
      by (edge_by (str_geb_edge y m d 2026 1 27) H30).
    replace (str_geb (isoDate y m d) (isoDate 2025 12 28))
      with (20450 <=? daysFromCivil y m d)
      by (edge_by (str_geb_edge y m d 2025 12 28) H60).
    clear. generalize (daysFromCivil y m d) as n. intros n.
    split_leb; reflexivity.
Qed.

(** C3.  The chart has five buckets, for the ranges of at most 5, 10, 30
    and 60 days and the unbounded one.  The count of each is the number
    of records whose band it is, the band of a record being one number
    below 5: no record is counted twice and none is left out, so the five
    counts sum to the size of the subset, on any host.  On a host whose
    offset is the same at the reference and at the midnights 5, 10, 30
    and 60 days before it, the band of a record posted on a calendar date
    is that of its age in whole days, counted from the UTC day of the
    reference: 0 to 5, 6 to 10, 11 to 30, 31 to 60, 61 and more. *)
Theorem freshness_counts_sum (host : Z -> bool -> Z) (data : list JobRecord) :
  List.map (fun b => maxDays (range b)) (buckets host data)
    = [Some 5; Some 10; Some 30; Some 60; None]
  /\ List.map count (buckets host data) = bandCounts (bandIndex host) data
  /\ (forall j, (bandIndex host j < 5)%nat)
  /\ list_sum (List.map count (buckets host data)) = length data
  /\ (forall tz,
        -1440 < tz <= 1440 -> offsetHeld host tz [5; 10; 30; 60] ->
        forall j y m d,
          0 <= y <= 9999 -> 1 <= m <= 12 -> 1 <= d <= 31 ->
          datePosted j = isoDate y m d ->
          bandIndex host j = ageBand (Day (today host) - daysFromCivil y m d)).
Proof.
  split; [reflexivity|].
  split; [apply buckets_counts|].
  split; [apply bandIndex_lt|].
  split; [rewrite buckets_counts; apply bandCounts_sum, bandIndex_lt|].
  intros tz Htz Hh j y m d Hy Hm Hd Hj.
  rewrite (bandIndex_relative host tz j Hh), Hj.
  apply bandRelativeTo_age; try assumption.
  rewrite (Day_today host tz _ Hh) by assumption.
  destruct (0 <? tz); [right | left]; lia.
Qed.

(** C10.  The reference of the chart is the constant local midnight of
    2026-02-27 and the chart takes the subset only, but the edges of the
    bands are the UTC dates of local midnights.  On a host that keeps one
    offset over the sixty days, the band of a record is its band relative
    to the UTC day of the reference.  At or west of Greenwich that day is
    2026-02-27, the edges are 2026-02-22, 2026-02-17, 2026-01-28 and
    2025-12-29, and a record posted on a calendar date has the band of
    its age in days on 2026-02-27.  East of Greenwich the day is
    2026-02-26 and every edge is one day earlier: an hour east, a record
    posted on 2026-02-21, six days before the reference, is counted in
    the range of the last 5 days.  On a host that set its clocks back an
    hour in between, the two edges before the change are a day earlier
    than those after it, and the lower edge of one range, 2026-01-27, is
    no longer the upper edge of the next, 2026-01-28. *)
Theorem freshness_reference_date
    (host : Z -> bool -> Z) (tz : Z) (data : list JobRecord) :
  today host = localMidnight host 2026 2 27
  /\ (offsetHeld host tz [5; 10; 30; 60] ->
      LocalTime host (today host) = daysFromCivil 2026 2 27 * msPerDay
      /\ (forall j,
            bandIndex host j
            = bandRelativeTo (Day (today host)) (datePosted j))
      /\ List.map count (buckets host data)
         = bandCounts
             (fun j => bandRelativeTo (Day (today host)) (datePosted j)) data
      /\ (-1440 < tz <= 0 ->
          Day (today host) = daysFromCivil 2026 2 27
          /\ List.map (cutoffStr host) [5; 10; 30; 60]
             = List.map js
                 ["2026-02-22"; "2026-02-17"; "2026-01-28"; "2025-12-29"]%string
          /\ forall j y m d,
               0 <= y <= 9999 -> 1 <= m <= 12 -> 1 <= d <= 31 ->
               datePosted j = isoDate y m d ->
               bandIndex host j
               = ageBand (daysFromCivil 2026 2 27 - daysFromCivil y m d))
      /\ (0 < tz <= 1440 ->
          Day (today host) = daysFromCivil 2026 2 26
          /\ List.map (cutoffStr host) [5; 10; 30; 60]
             = List.map js
                 ["2026-02-21"; "2026-02-16"; "2026-01-27"; "2025-12-28"]%string
          /\ forall j y m d,
               0 <= y <= 9999 -> 1 <= m <= 12 -> 1 <= d <= 31 ->
               datePosted j = isoDate y m d ->
               bandIndex host j
               = ageBand (daysFromCivil 2026 2 26 - daysFromCivil y m d)))
  /\ (let posted := sampleJob 1 "Developer" "Oracle" "2026-02-21" None in
      offsetHeld (fixedOffset 60) 60 [5; 10; 30; 60]
      /\ datePosted posted = isoDate 2026 2 21
      /\ ageBand (daysFromCivil 2026 2 27 - daysFromCivil 2026 2 21) = 1%nat
      /\ bandIndex (fixedOffset 60) posted = 0%nat
      /\ List.map count (buckets (fixedOffset 60) [posted])
         = [1; 0; 0; 0; 0]%nat
      /\ List.map count (buckets (fixedOffset 0) [posted])
         = [0; 1; 0; 0; 0]%nat)
  /\ (let posted := sampleJob 1 "Developer" "Oracle" "2026-01-27" None in
      List.map (cutoffStr clockSetBack) [5; 10; 30; 60]
      = List.map js
          ["2026-02-22"; "2026-02-17"; "2026-01-27"; "2025-12-28"]%string
      /\ List.map (prevStr clockSetBack) [5; 10; 30]
         = List.map js ["2026-02-22"; "2026-02-17"; "2026-01-28"]%string
      /\ ageBand (daysFromCivil 2026 2 27 - daysFromCivil 2026 1 27) = 3%nat
      /\ bandIndex clockSetBack posted = 2%nat).
Proof.
  split; [reflexivity|].
  split; [|split; [vm_compute; repeat split; try reflexivity;
                   apply Forall_forall; now intros k _
                  | vm_compute; repeat split; reflexivity]].
  intros Hh.
  split; [exact (LocalTime_today host tz _ Hh)|].
  split; [intros j; exact (bandIndex_relative host tz j Hh)|].
  split.
  { rewrite buckets_counts. unfold bandCounts.
    apply map_ext. intros i. f_equal. apply filter_ext. intros j.
    now rewrite (bandIndex_relative host tz j Hh). }
  split; intros Htz.
  - assert (Hd : Day (today host) = daysFromCivil 2026 2 27).
    { rewrite (Day_today host tz _ Hh) by lia.
      destruct (0 <? tz) eqn:E; [apply Z.ltb_lt in E|]; lia. }
    split; [exact Hd|]. split.
    + cbn [List.map].
      rewrite !(cutoffStr_iso host tz _ Hh) by (cbn [In]; lia).
      rewrite Hd. reflexivity.
    + intros j y m d Hy Hm Hdd Hj.
      rewrite (bandIndex_relative host tz j Hh), Hj, Hd.
      apply bandRelativeTo_age; try assumption. now left.
  - assert (Hd : Day (today host) = daysFromCivil 2026 2 26).
    { rewrite (Day_today host tz _ Hh) by lia.
      destruct (0 <? tz) eqn:E; [reflexivity | apply Z.ltb_ge in E; lia]. }
    split; [exact Hd|]. split.
    + cbn [List.map].
      rewrite !(cutoffStr_iso host tz _ Hh) by (cbn [In]; lia).
      rewrite Hd. reflexivity.
    + intros j y m d Hy Hm Hdd Hj.
      rewrite (bandIndex_relative host tz j Hh), Hj, Hd.
      apply bandRelativeTo_age; try assumption. now right.
Qed.

(** ** C4, C8, C2: the filter pipeline *)

Section PipelineFacts.
Variable localeSort : list jsstring -> list jsstring.
Variable toLowerCase : jsstring -> jsstring.
Hypothesis localeSort_perm : forall l, localeSort l ≡ₚ l.

Lemma step_filter (c : bool) (p : JobRecord -> bool) (l : list JobRecord) :
  step c p l = List.filter (fun j => negb c || p j) l.
Proof.
  unfold step. destruct c; simpl.
  - reflexivity.
  - induction l as [|j l IH]; simpl; [reflexivity | now rewrite <- IH].
Qed.

(** The pipeline keeps the records that pass every restricting
    dimension, in the order of the store. *)
Lemma filteredJobs_filter (jobs : list JobRecord) (fs : FilterState) :
  filteredJobs localeSort toLowerCase jobs fs
  = List.filter (passes localeSort toLowerCase jobs fs) jobs.
Proof.
  unfold filteredJobs, passes, passCategory, passInclusion, passWage, passDateFrom, passDateTo, passSearch.
  rewrite !step_filter, !filter_filter_and.
  destruct (activeCategory fs) as [c|].
  - rewrite step_filter, !filter_filter_and.
    apply filter_ext. intros j.
    rewrite negb_involutive, ?andb_assoc. reflexivity.
  - rewrite ?filter_filter_and.
    apply filter_ext. intros j.
    rewrite negb_involutive, ?andb_assoc, ?andb_true_l. reflexivity.
Qed.

Lemma setAdd_NoDup (v : jsstring) (set : list jsstring) :
  NoDup set -> NoDup (setAdd v set).
Proof.
  intros Hnd. unfold setAdd. case_bool_decide as Hin; [assumption|].
  apply NoDup_app. split; [assumption|]. split; [|apply NoDup_singleton].
  intros x Hx Hx'. apply list_elem_of_singleton in Hx'. now subst.
Qed.

Lemma getUniqueValues_NoDup (data : list JobRecord) (field : JobRecord -> jsstring) :
  NoDup (getUniqueValues localeSort data field).
Proof.
  unfold getUniqueValues. rewrite localeSort_perm.
  assert (H : forall set, NoDup set ->
    NoDup (fold_left (fun set r => let v := trim (field r) in
                                   if truthy v then setAdd v set else set)
                     data set)).
  { induction data as [|r data IH]; intros set Hset; simpl; [assumption|].
    apply IH. destruct (truthy (trim (field r))); [now apply setAdd_NoDup | assumption]. }
  apply H. constructor.
Qed.

Lemma full_set_size (data : list JobRecord) (field : JobRecord -> jsstring) :
  size (list_to_set (getUniqueValues localeSort data field) : gset jsstring)
  = length (getUniqueValues localeSort data field).
Proof. apply size_list_to_set, getUniqueValues_NoDup. Qed.

Lemma filter_all {A : Type} (p : A -> bool) (l : list A) :
  (forall x, In x l -> p x = true) -> List.filter p l = l.
Proof.
  induction l as [|x l IH]; simpl; intros H; [reflexivity|].
  rewrite (H x) by now left. f_equal. apply IH. intros; apply H; now right.
Qed.

(** A dimension in its "no restriction" state lets every record pass. *)
Lemma passCategory_none (fs : FilterState) (j : JobRecord) :
  activeCategory fs = None -> passCategory fs j = true.
Proof. unfold passCategory. now intros ->. Qed.

Lemma passInclusion_full (data : list JobRecord)
    (field : JobRecord -> jsstring) (v : jsstring) :
  passInclusion (list_to_set (getUniqueValues localeSort data field))
                (getUniqueValues localeSort data field) v = true.
Proof. unfold passInclusion. now rewrite full_set_size, Nat.ltb_irrefl. Qed.

Lemma passWage_all (fs : FilterState) (j : JobRecord) :
  wageFilter fs = js "all" -> passWage fs j = true.
Proof. unfold passWage. now intros ->. Qed.

Lemma passDateFrom_empty (fs : FilterState) (j : JobRecord) :
  dateFrom fs = [] -> passDateFrom fs j = true.
Proof. unfold passDateFrom. now intros ->. Qed.

Lemma passDateTo_empty (fs : FilterState) (j : JobRecord) :
  dateTo fs = [] -> passDateTo fs j = true.
Proof. unfold passDateTo. now intros ->. Qed.

Lemma passSearch_blank (fs : FilterState) (j : JobRecord) :
  trim (searchText fs) = [] -> passSearch toLowerCase fs j = true.
Proof. unfold passSearch. now intros ->. Qed.

Lemma passes_noRestriction (jobs : list JobRecord) (fs : FilterState) (j : JobRecord) :
  noRestriction localeSort jobs fs -> passes localeSort toLowerCase jobs fs j = true.
Proof.
  intros (Hc & He & Hl & Hs & Hw & Hf & Ht & Hq). unfold passes.
  rewrite passCategory_none, He, Hl, Hs, !passInclusion_full, passWage_all,
    passDateFrom_empty, passDateTo_empty, passSearch_blank by assumption.
  reflexivity.
Qed.

End PipelineFacts.

(** C4.  The pipeline keeps, in the order of the store, the records
    that pass the predicate of every dimension, and the predicate of a
    dimension whose state says "no restriction" is true of every record:
    no active category, an inclusion set that is the full set of distinct
    values, the wage selector on 'all', an empty date bound, a blank
    query.  When every dimension is in that state the pipeline returns
    the record store itself, hence the same set of ids.  The sort of the
    distinct values is any function that returns a permutation of its
    argument. *)
Theorem filteredJobs_no_restriction
    (localeSort : list jsstring -> list jsstring)
    (toLowerCase : jsstring -> jsstring)
    (jobs : list JobRecord) (fs : FilterState) :
  (forall l, localeSort l ≡ₚ l) ->
  filteredJobs localeSort toLowerCase jobs fs
    = List.filter (passes localeSort toLowerCase jobs fs) jobs
  /\ (activeCategory fs = None -> forall j, passCategory fs j = true)
  /\ (forall field v,
        passInclusion (list_to_set (getUniqueValues localeSort jobs field))
                      (getUniqueValues localeSort jobs field) v = true)
  /\ (wageFilter fs = js "all" -> forall j, passWage fs j = true)
  /\ (dateFrom fs = [] -> forall j, passDateFrom fs j = true)
  /\ (dateTo fs = [] -> forall j, passDateTo fs j = true)
  /\ (trim (searchText fs) = [] ->
      forall j, passSearch toLowerCase fs j = true)
  /\ (noRestriction localeSort jobs fs ->
      filteredJobs localeSort toLowerCase jobs fs = jobs
      /\ List.map id (filteredJobs localeSort toLowerCase jobs fs)
         = List.map id jobs).
Proof.
  intros Hperm.
  split; [apply filteredJobs_filter|].
  split; [intros H j; now apply passCategory_none|].
  split; [intros field v; now apply passInclusion_full|].
  split; [intros H j; now apply passWage_all|].
  split; [intros H j; now apply passDateFrom_empty|].
  split; [intros H j; now apply passDateTo_empty|].
  split; [intros H j; now apply passSearch_blank|].
  intros Hno.
  assert (H : filteredJobs localeSort toLowerCase jobs fs = jobs).
  { rewrite filteredJobs_filter. apply filter_all. intros j _.
    now apply passes_noRestriction. }
  split; [exact H | now rewrite H].
Qed.

Lemma Qle_bool_false (x y : Q) : Qle_bool x y = false <-> (y < x)%Q.
Proof.
  split.
  - intros H. apply Qnot_le_lt. intros Hle. apply Qle_bool_iff in Hle. congruence.
  - intros H. destruct (Qle_bool x y) eqn:E; [|reflexivity].
    apply Qle_bool_iff in E. exfalso. now apply (Qlt_not_le _ _ H).
Qed.

Ltac q_bools :=
  repeat match goal with
    | H : Qle_bool _ _ = true |- _ => apply Qle_bool_iff in H
    | H : Qle_bool _ _ = false |- _ => apply Qle_bool_false in H
    | H : Qeq_bool _ _ = true |- _ => apply Qeq_bool_iff in H
    | H : Qeq_bool _ _ = false |- _ => apply Qeq_bool_neq in H
    end.

(** The [case] each tag reaches. *)
Lemma wageBand_cases (j : JobRecord) :
  wageBand (js "listed") j = hasWage j
  /\ wageBand (js "unlisted") j
     = match wage j with Some w => Qeq_bool w 0 | None => true end
  /\ wageBand (js "150k+") j
     = match wage j with Some w => Qle_bool 150000 w | None => false end
  /\ wageBand (js "100k-150k") j
     = match wage j with
       | Some w => Qle_bool 100000 w && negb (Qle_bool 150000 w)
       | None => false
       end
  /\ wageBand (js "50k-100k") j
     = match wage j with
       | Some w => Qle_bool 50000 w && negb (Qle_bool 100000 w)
       | None => false
       end
  /\ wageBand (js "under50k") j
     = match wage j with
       | Some w => negb (Qle_bool w 0) && negb (Qle_bool 50000 w)
       | None => false
       end.
Proof. repeat split; reflexivity. Qed.

(** What each tag of the wage selector keeps. *)
Lemma wageBand_semantics (j : JobRecord) :
  (wageBand (js "listed") j = true <-> exists w, wage j = Some w /\ (0 < w)%Q)
  /\ (wageBand (js "unlisted") j = true
      <-> wage j = None \/ exists w, wage j = Some w /\ (w == 0)%Q)
  /\ (wageBand (js "150k+") j = true
      <-> exists w, wage j = Some w /\ (150000 <= w)%Q)
  /\ (wageBand (js "100k-150k") j = true
      <-> exists w, wage j = Some w /\ (100000 <= w)%Q /\ (w < 150000)%Q)
  /\ (wageBand (js "50k-100k") j = true
      <-> exists w, wage j = Some w /\ (50000 <= w)%Q /\ (w < 100000)%Q)
  /\ (wageBand (js "under50k") j = true
      <-> exists w, wage j = Some w /\ (0 < w)%Q /\ (w < 50000)%Q).
Proof.
  destruct (wageBand_cases j) as (-> & -> & -> & -> & -> & ->).
  split; [apply hasWage_iff|].
  destruct (wage j) as [w|].
  - repeat split.
    all: try (intros H; exists w).
    all: try (intros (w' & [= <-] & H)).
    all: try (intros [[=] | (w' & [= <-] & H)]).
    all: rewrite ?andb_true_iff, ?negb_true_iff in *.
    all: rewrite ?Qle_bool_false, ?Qle_bool_iff, ?Qeq_bool_iff in *.
    all: try tauto.
    all: try (right; exists w; tauto).
  - repeat split; try discriminate; try (intros (w' & [=] & _)); try tauto.
Qed.

(** The bands exclude one another, and a wage that is absent or not
    negative lies in one of them. *)
Lemma wageBand_exclusive (j : JobRecord) :
  (length (List.filter (fun t => wageBand t j) bandTags) <= 1)%nat
  /\ (wage j = None \/ (exists w, wage j = Some w /\ (0 <= w)%Q) ->
      length (List.filter (fun t => wageBand t j) bandTags) = 1%nat).
Proof.
  unfold bandTags. cbn [List.map List.filter].
  destruct (wageBand_cases j) as (_ & -> & -> & -> & -> & ->).
  destruct (wage j) as [w|].
  - destruct (Qeq_bool w 0) eqn:E0, (Qle_bool w 0) eqn:E1,
      (Qle_bool 50000 w) eqn:E2, (Qle_bool 100000 w) eqn:E3,
      (Qle_bool 150000 w) eqn:E4; q_bools; cbn [negb andb length];
      (split; [try lia; exfalso; lra
              | intros [[=] | (w' & [= <-] & Hw)]; try lia; exfalso; lra]).
  - split; [simpl; lia | reflexivity].
Qed.

(** C8.  With the wage selector on a tag other than ['all'] and no other
    restriction, the pipeline keeps the records the tag's predicate
    takes.  The tag "100k-150k" takes the records with a listed wage in
    [100000, 150000): of the wages 90000, 120000, 150000 and none it
    selects the record with 120000 only.  The other tags take a wage
    present and above 0; absent or 0; at least 150000; in
    [50000, 100000); in (0, 50000).  The bands exclude one another. *)
Theorem wage_band_selects
    (localeSort : list jsstring -> list jsstring)
    (toLowerCase : jsstring -> jsstring)
    (jobs : list JobRecord) (tag : jsstring) :
  (forall l, localeSort l ≡ₚ l) ->
  tag <> js "all" ->
  filteredJobs localeSort toLowerCase jobs
    (setWageFilter tag (initialState localeSort jobs))
    = List.filter (wageBand tag) jobs
  /\ List.map wage
       (filteredJobs localeSort toLowerCase wageSample
          (setWageFilter (js "100k-150k") (initialState localeSort wageSample)))
     = [Some 120000%Q]
  /\ (forall j,
       (wageBand (js "listed") j = true
        <-> exists w, wage j = Some w /\ (0 < w)%Q)
       /\ (wageBand (js "unlisted") j = true
           <-> wage j = None \/ exists w, wage j = Some w /\ (w == 0)%Q)
       /\ (wageBand (js "150k+") j = true
           <-> exists w, wage j = Some w /\ (150000 <= w)%Q)
       /\ (wageBand (js "100k-150k") j = true
           <-> exists w, wage j = Some w /\ (100000 <= w)%Q /\ (w < 150000)%Q)
       /\ (wageBand (js "50k-100k") j = true
           <-> exists w, wage j = Some w /\ (50000 <= w)%Q /\ (w < 100000)%Q)
       /\ (wageBand (js "under50k") j = true
           <-> exists w, wage j = Some w /\ (0 < w)%Q /\ (w < 50000)%Q))
  /\ (forall j,
       (length (List.filter (fun t => wageBand t j) bandTags) <= 1)%nat).
Proof.
  intros Hperm Htag.
  assert (Hwage : forall jobs' tag', tag' <> js "all" ->
    filteredJobs localeSort toLowerCase jobs'
      (setWageFilter tag' (initialState localeSort jobs'))
    = List.filter (wageBand tag') jobs').
  { intros jobs' tag' Htag'. rewrite filteredJobs_filter.
    apply filter_ext. intros j.
    unfold passes, passCategory, passInclusion, passWage, passDateFrom, passDateTo, passSearch,
      setWageFilter, initialState.
    cbn [activeCategory selectedEmployers selectedLocations selectedStatuses
         wageFilter dateFrom dateTo searchText].
    rewrite !full_set_size by assumption. rewrite !Nat.ltb_irrefl.
    unfold str_eqb. rewrite (bool_decide_eq_false_2 _ Htag').
    change (trim []) with (@nil N).
    cbn [negb orb andb truthy]. now rewrite !andb_true_r. }
  split; [now apply Hwage|].
  split; [rewrite Hwage by discriminate; reflexivity|].
  split; [apply wageBand_semantics | apply wageBand_exclusive].
Qed.

(** C8 at the records of the example, with the identity for both host
    functions. *)
Lemma wage_band_selects_witness :
  List.map id
    (filteredJobs (fun l => l) (fun s => s) wageSample
       (setWageFilter (js "100k-150k") (initialState (fun l => l) wageSample)))
  = [2].
Proof.
  destruct (wage_band_selects (fun l => l) (fun s => s) wageSample
              (js "100k-150k")) as (H & _).
  - intros l. reflexivity.
  - discriminate.
  - rewrite H. reflexivity.
Defined.

(** C4 at the records of the example, in the initial state of the
    application. *)
Lemma filteredJobs_no_restriction_witness :
  filteredJobs (fun l => l) (fun s => s) wageSample
    (initialState (fun l => l) wageSample) = wageSample.
Proof.
  destruct (filteredJobs_no_restriction (fun l => l) (fun s => s) wageSample
              (initialState (fun l => l) wageSample))
    as (_ & _ & _ & _ & _ & _ & _ & Hall).
  - intros l. reflexivity.
  - apply Hall. repeat split.
Defined.

Lemma truthy_false_iff (s : jsstring) : truthy s = false <-> s = [].
Proof. destruct s; simpl; split; congruence. Qed.

Lemma bandCounts_nth (band : JobRecord -> nat) (data : list JobRecord) (i : nat) :
  (i < 5)%nat ->
  nth i (bandCounts band data) 0%nat
  = length (List.filter (fun j => (band j =? i)%nat) data).
Proof.
  intros Hi. unfold bandCounts.
  destruct i as [|[|[|[|[|i]]]]]; [reflexivity .. | lia].
Qed.

(** C2, as the code has it.  No date is parsed, so a record whose
    [datePosted] is no calendar date is treated like any other.  With
    nothing but date bounds set, it is kept exactly when its [datePosted]
    is, as a string, not below [dateFrom] and not above [dateTo], each
    bound counting only when it is not empty.  The freshness chart counts
    it in the bucket of its band, and the five counts still sum to the
    size of the subset.  Neither computation returns anything besides
    the records kept and the buckets. *)
Theorem malformed_date_compared_as_string
    (localeSort : list jsstring -> list jsstring)
    (toLowerCase : jsstring -> jsstring)
    (host : Z -> bool -> Z)
    (jobs : list JobRecord) (from to : jsstring) (bad : JobRecord) :
  (forall l, localeSort l ≡ₚ l) ->
  In bad jobs ->
  isCalendarDate (datePosted bad) = false ->
  (In bad (filteredJobs localeSort toLowerCase jobs
             (setDateTo to (setDateFrom from (initialState localeSort jobs))))
   <-> (from = [] \/ str_geb (datePosted bad) from = true)
       /\ (to = [] \/ str_leb (datePosted bad) to = true))
  /\ (bandIndex host bad < 5)%nat
  /\ (0 < nth (bandIndex host bad) (List.map count (buckets host jobs)) 0)%nat
  /\ list_sum (List.map count (buckets host jobs)) = length jobs.
Proof.
  intros Hperm Hin _.
  split; [| split; [apply bandIndex_lt | split]].
  - rewrite filteredJobs_filter, filter_In.
    unfold passes, passCategory, passInclusion, passWage, passDateFrom, passDateTo, passSearch,
      setDateTo, setDateFrom, initialState.
    cbn [activeCategory selectedEmployers selectedLocations selectedStatuses
         wageFilter dateFrom dateTo searchText].
    rewrite !full_set_size by assumption. rewrite !Nat.ltb_irrefl.
    change (trim []) with (@nil N).
    change (str_eqb (js "all") (js "all")) with true.
    cbn [negb orb andb truthy].
    rewrite !andb_true_r, andb_true_iff, !orb_true_iff, !negb_true_iff,
      !truthy_false_iff.
    tauto.
  - rewrite buckets_counts, bandCounts_nth by apply bandIndex_lt.
    assert (Hf : In bad (List.filter
                           (fun j => (bandIndex host j =? bandIndex host bad)%nat) jobs)).
    { apply filter_In. split; [assumption | apply Nat.eqb_refl]. }
    destruct (List.filter _ jobs); [destruct Hf | simpl; lia].
  - rewrite buckets_counts. apply bandCounts_sum, bandIndex_lt.
Qed.

(** C2 at a store that holds the one record dated "not-a-date", with a
    lower bound of 2026-02-01, in Phoenix. *)
Lemma malformed_date_compared_as_string_witness :
  In badDateJob
     (filteredJobs (fun l => l) (fun s => s) [badDateJob]
        (setDateTo [] (setDateFrom (js "2026-02-01")
                         (initialState (fun l => l) [badDateJob]))))
  /\ (0 < nth (bandIndex (fixedOffset (-420)) badDateJob)
               (List.map count (buckets (fixedOffset (-420)) [badDateJob]))
               0)%nat.
Proof.
  destruct (malformed_date_compared_as_string (fun l => l) (fun s => s)
              (fixedOffset (-420)) [badDateJob] (js "2026-02-01") [] badDateJob)
    as (Hkeep & _ & Hcount & _).
  - intros l. reflexivity.
  - now left.
  - reflexivity.
  - split; [|exact Hcount].
    apply Hkeep. split; [right; reflexivity | left; reflexivity].
Defined.

(** C2 fails as stated: the record dated "not-a-date" is no calendar
    date, yet the freshness chart counts it, in its first bucket, and a
    lower date bound of 2026-02-01 keeps it. *)
Lemma malformed_date_is_bucketed_and_kept :
  isCalendarDate (datePosted badDateJob) = false
  /\ List.map count (buckets (fixedOffset (-420)) [badDateJob])
     = [1; 0; 0; 0; 0]%nat
  /\ filteredJobs (fun l => l) (fun s => s) [badDateJob]
       (setDateFrom (js "2026-02-01") (initialState (fun l => l) [badDateJob]))
     = [badDateJob].
Proof. vm_compute. repeat split. Qed.

(** ** C5, C1: the phrase extractor *)

Lemma bump_NoDup {K : Type} `{EqDecision K} (k : K) (m : list (K * nat)) :
  NoDup (List.map fst m) -> NoDup (List.map fst (bump k m)).
Proof.
  intros Hnd. rewrite bump_keys.
  destruct (decide (k ∈ List.map fst m)) as [Hin|Hnin]; [assumption|].
  apply NoDup_app. split; [assumption|]. split; [|apply NoDup_singleton].
  intros x Hx Hx'. apply list_elem_of_singleton in Hx'. now subst.
Qed.

Lemma countPhrase_fold (L : list jsstring) :
  forall (pc : list (jsstring * nat)) (seen : list jsstring) (p : jsstring),
    getCount p (fst (fold_left countPhrase L (pc, seen)))
    = (getCount p pc
       + indicator (bool_decide (p ∈ L) && negb (bool_decide (p ∈ seen))))%nat.
Proof.
  induction L as [|x L IH]; intros pc seen p; cbn [fold_left].
  - simpl. lia.
  - unfold countPhrase at 2.
    destruct (bool_decide (x ∈ seen)) eqn:Hx.
    + rewrite IH. f_equal. f_equal.
      apply bool_decide_eq_true in Hx.
      destruct (decide (p = x)) as [->|Hne].
      * rewrite (bool_decide_eq_true_2 (x ∈ seen)) by assumption.
        now rewrite !andb_false_r.
      * f_equal. apply bool_decide_ext. rewrite elem_of_cons. intuition congruence.
    + rewrite IH, getCount_bump.
      apply bool_decide_eq_false in Hx.
      destruct (decide (x = p)) as [->|Hne].
      * rewrite (bool_decide_eq_true_2 (p ∈ seen ++ [p]))
          by (apply elem_of_app; right; now left).
        rewrite (bool_decide_eq_true_2 (p ∈ p :: L)) by now left.
        rewrite (bool_decide_eq_false_2 (p ∈ seen)) by assumption.
        rewrite andb_false_r. simpl. lia.
      * f_equal. f_equal. f_equal.
        -- apply bool_decide_ext. rewrite elem_of_cons. intuition congruence.
        -- f_equal. apply bool_decide_ext.
           rewrite elem_of_app, list_elem_of_singleton. intuition congruence.
Qed.

Lemma countPhrase_fold_NoDup (L : list jsstring) :
  forall (pc : list (jsstring * nat)) (seen : list jsstring),
    NoDup (List.map fst pc) ->
    NoDup (List.map fst (fst (fold_left countPhrase L (pc, seen)))).
Proof.
  induction L as [|x L IH]; intros pc seen Hnd; cbn [fold_left]; [assumption|].
  unfold countPhrase at 2.
  destruct (bool_decide (x ∈ seen)); apply IH; [assumption | now apply bump_NoDup].
Qed.

Lemma getCount_countTitle (pc : list (jsstring * nat)) (j : JobRecord)
    (p : jsstring) :
  getCount p (countTitle pc j)
  = (getCount p pc
     + indicator (bool_decide (p ∈ titlePhrases (cleanTitle (jobTitle j)))))%nat.
Proof.
  unfold countTitle. rewrite countPhrase_fold.
  rewrite (bool_decide_eq_false_2 (p ∈ [])) by apply not_elem_of_nil.
  now rewrite andb_true_r.
Qed.

Lemma support_cons (p : jsstring) (j : JobRecord) (data : list JobRecord) :
  support p (j :: data)
  = (indicator (bool_decide (p ∈ titlePhrases (cleanTitle (jobTitle j))))
     + support p data)%nat.
Proof.
  unfold support. cbn [List.filter].
  destruct (bool_decide _); reflexivity.
Qed.

Lemma support_le (p : jsstring) (data : list JobRecord) :
  (support p data <= length data)%nat.
Proof. unfold support. apply List.filter_length_le. Qed.

Lemma getCount_phraseCounts (data : list JobRecord) (p : jsstring) :
  getCount p (phraseCounts data) = support p data.
Proof.
  unfold phraseCounts.
  assert (H : forall pc, getCount p (fold_left countTitle data pc)
                         = (getCount p pc + support p data)%nat).
  { induction data as [|j data IH]; intros pc; cbn [fold_left].
    - unfold support. simpl. lia.
    - rewrite IH, getCount_countTitle, support_cons. lia. }
  now rewrite H.
Qed.

Lemma phraseCounts_NoDup (data : list JobRecord) :
  NoDup (List.map fst (phraseCounts data)).
Proof.
  unfold phraseCounts.
  assert (H : forall pc, NoDup (List.map fst pc) ->
                         NoDup (List.map fst (fold_left countTitle data pc))).
  { induction data as [|j data IH]; intros pc Hnd; cbn [fold_left]; [assumption|].
    apply IH. unfold countTitle. now apply countPhrase_fold_NoDup. }
  apply H. constructor.
Qed.

(** Every candidate is a phrase with its support, which is at least 2. *)
Lemma candidates_entry (data : list JobRecord) (e : jsstring * nat) :
  In e (candidates data) -> snd e = support (fst e) data /\ (2 <= snd e)%nat.
Proof.
  unfold candidates. rewrite sortDesc_In, filter_In.
  intros [Hin Hge]. split; [|now apply Nat.leb_le].
  destruct e as [p c]. simpl.
  rewrite <- getCount_phraseCounts. symmetry.
  apply getCount_entry; [apply phraseCounts_NoDup | assumption].
Qed.

Lemma selectLoop_spec (cands : list (jsstring * nat)) :
  forall (sel : list (jsstring * nat)) (cov : list jsstring),
    (forall e, In e (selectLoop cands sel cov) -> In e sel \/ In e cands)
    /\ ((length sel < 15)%nat -> (length (selectLoop cands sel cov) <= 15)%nat).
Proof.
  induction cands as [|[phrase cnt] cands IH]; intros sel cov; cbn [selectLoop].
  - split; [tauto | lia].
  - destruct (dominatedBy sel phrase cnt cov).
    + destruct (15 <=? length sel)%nat eqn:E.
      * split; [tauto | lia].
      * destruct (IH sel cov) as [Hin Hlen]. split; [|assumption].
        intros e He. destruct (Hin e He); [now left | right; now right].
    + destruct (15 <=? length (sel ++ [(phrase, cnt)]))%nat eqn:E.
      * split.
        -- intros e He. apply in_app_iff in He as [?|[<-|[]]];
             [now left | right; now left].
        -- rewrite length_app. simpl. lia.
      * apply Nat.leb_gt in E.
        destruct (IH (sel ++ [(phrase, cnt)]) (cov ++ [phrase])) as [Hin Hlen].
        split.
        -- intros e He. destruct (Hin e He) as [H|H]; [|right; now right].
           apply in_app_iff in H as [?|[<-|[]]]; [now left | right; now left].
        -- intros _. now apply Hlen.
Qed.

(** C5.  Every phrase the extractor emits is the title-cased form of a
    phrase whose support is the count it is emitted with, and that count
    is at least 2: a record adds at most one to the support of a phrase.
    At most 15 phrases are emitted, and a subset of fewer than 2 records
    yields none. *)
Theorem keywords_support (data : list JobRecord) :
  Forall (fun e => (2 <= snd e)%nat
                   /\ exists p, fst e = titleCase p /\ snd e = support p data)
         (keywords data)
  /\ (length (keywords data) <= 15)%nat
  /\ ((length data < 2)%nat -> keywords data = []).
Proof.
  assert (Hsel : forall e, In e (selected data) ->
            snd e = support (fst e) data /\ (2 <= snd e)%nat).
  { intros e He. unfold selected in He.
    destruct (selectLoop_spec (candidates data) [] []) as [Hin _].
    destruct (Hin e He) as [[]|Hc]. now apply candidates_entry. }
  split; [|split].
  - unfold keywords. apply Forall_forall. intros e He.
    apply list_elem_of_In, in_map_iff in He as (e0 & <- & He0).
    destruct (Hsel e0 He0) as [Hs Hge]. simpl. split; [assumption|].
    exists (fst e0). now split.
  - unfold keywords, selected. rewrite length_map.
    destruct (selectLoop_spec (candidates data) [] []) as [_ Hlen].
    apply Hlen. simpl. lia.
  - intros Hlen. unfold keywords.
    destruct (selected data) as [|e l] eqn:E; [reflexivity|].
    destruct (Hsel e (or_introl eq_refl)) as [Hs Hge].
    pose proof (support_le (fst e) data). lia.
Qed.

Lemma startsWith_refl (s : jsstring) : startsWith s s = true.
Proof. induction s as [|c s IH]; simpl; [reflexivity|]. now rewrite N.eqb_refl. Qed.

Lemma includes_refl (s : jsstring) : includes s s = true.
Proof. destruct s; simpl; [reflexivity|]. now rewrite N.eqb_refl, startsWith_refl. Qed.

Lemma dominatedBy_false (sel : list (jsstring * nat)) (phrase : jsstring)
    (cnt : nat) (cov : list jsstring) :
  dominatedBy sel phrase cnt cov = false ->
  Forall (fun existing =>
            includes existing phrase = false
            /\ (includes phrase existing = true ->
                (cnt < existingCountOf sel existing)%nat)) cov.
Proof.
  induction cov as [|existing cov IH]; cbn [dominatedBy]; intros Hd;
    [constructor|].
  destruct (includes existing phrase) eqn:E1; cbn [orb] in Hd; [discriminate|].
  destruct (includes phrase existing) eqn:E2; cbn [andb] in Hd.
  - destruct (existingCountOf sel existing <=? cnt)%nat eqn:E3; [discriminate|].
    apply Nat.leb_gt in E3. constructor; [split; [exact E1 | now intros _]|].
    now apply IH.
  - constructor; [split; [exact E1 | rewrite E2; discriminate]|]. now apply IH.
Qed.

Lemma existingCountOf_entry (sel : list (jsstring * nat)) (x : jsstring * nat) :
  StronglySorted keptApart sel -> In x sel ->
  existingCountOf sel (fst x) = snd x.
Proof.
  unfold existingCountOf.
  induction sel as [|a sel IH]; intros Hs Hin; [destruct Hin|].
  apply StronglySorted_cons in Hs as [Ha Hs]. cbn [List.find].
  destruct Hin as [->|Hin].
  - unfold str_eqb. now rewrite bool_decide_eq_true_2.
  - unfold str_eqb. rewrite bool_decide_eq_false_2; [now apply IH|].
    intros Heq. rewrite Forall_forall in Ha.
    destruct (Ha x) as [Hinc _]; [now apply list_elem_of_In|].
    rewrite Heq, includes_refl in Hinc. discriminate.
Qed.

Lemma selectLoop_keptApart (cands : list (jsstring * nat)) :
  forall sel : list (jsstring * nat),
    StronglySorted keptApart sel ->
    StronglySorted keptApart (selectLoop cands sel (List.map fst sel)).
Proof.
  induction cands as [|[phrase cnt] cands IH]; intros sel Hs; cbn [selectLoop];
    [assumption|].
  destruct (dominatedBy sel phrase cnt (List.map fst sel)) eqn:Hd.
  - destruct (15 <=? length sel)%nat; [assumption | now apply IH].
  - assert (Hs' : StronglySorted keptApart (sel ++ [(phrase, cnt)])).
    { apply StronglySorted_app. split; [|split; [assumption | repeat constructor]].
      intros x y Hx Hy. apply list_elem_of_singleton in Hy. subst y.
      apply dominatedBy_false in Hd. rewrite Forall_forall in Hd.
      apply list_elem_of_In in Hx.
      destruct (Hd (fst x)) as [H1 H2]; [apply list_elem_of_In; now apply in_map|].
      rewrite (existingCountOf_entry sel x Hs Hx) in H2.
      split; [exact H1 | exact H2]. }
    destruct (15 <=? length (sel ++ [(phrase, cnt)]))%nat; [assumption|].
    replace (List.map fst sel ++ [phrase])
      with (List.map fst (sel ++ [(phrase, cnt)]))
      by (now rewrite List.map_app).
    now apply IH.
Qed.

(** What the de-duplication does ensure: of two phrases kept, the later
    is no substring of the earlier, and if it contains the earlier its
    support is strictly smaller. *)
Lemma selected_keptApart (data : list JobRecord) :
  StronglySorted keptApart (selected data).
Proof. apply (selectLoop_keptApart (candidates data) []). constructor. Qed.

(** C1, the code at the failing input.  The four titles give "data
    center" and "center engineer" support 3 and "data center engineer"
    support 2.  The longer phrase contains both kept phrases but has a
    smaller count than either, so the loop does not drop it: all three
    are emitted, and "Data Center" is a substring of "Data Center
    Engineer". *)
Theorem keywords_keep_containing_phrase :
  keywords containmentSample
    = [ (js "Data Center", 3%nat); (js "Center Engineer", 3%nat);
        (js "Data Center Engineer", 2%nat) ]
  /\ includes (js "Data Center Engineer") (js "Data Center") = true
  /\ selected containmentSample
     = [ (js "data center", 3%nat); (js "center engineer", 3%nat);
         (js "data center engineer", 2%nat) ].
Proof. vm_compute. repeat split. Qed.

(** The specification's example: of "Senior Data Center Engineer", "Data
    Center Technician" and "Network Engineer" only "data center" has
    support 2, and it is emitted as "Data Center". *)
Example keywords_spec_example :
  keywords
    [ sampleJob 1 "Senior Data Center Engineer" "Oracle" "2026-02-20" None;
      sampleJob 2 "Data Center Technician" "Intel" "2026-02-21" None;
      sampleJob 3 "Network Engineer" "Amazon" "2026-02-22" None ]
  = [ (js "Data Center", 2%nat) ].
Proof. vm_compute. reflexivity. Qed.

(** A phrase that occurs twice in one title adds one to its support. *)
Example keywords_once_per_title :
  keywords
    [ sampleJob 1 "Data Center / Data Center" "Oracle" "2026-02-20" None;
      sampleJob 2 "Data Center" "Intel" "2026-02-21" None ]
  = [ (js "Data Center", 2%nat) ].
Proof. vm_compute. reflexivity. Qed.

(** The specification's example of a date bound: a lower bound of
    2026-02-01 keeps the postings dated 2026-02-01 and 2026-02-15 and
    drops the one dated 2026-01-15. *)
Example filteredJobs_dateFrom_example :
  let store :=
    [ sampleJob 1 "Developer" "Oracle" "2026-01-15" None;
      sampleJob 2 "Architect" "Intel" "2026-02-01" None;
      sampleJob 3 "Director" "Amazon" "2026-02-15" None ] in
  List.map datePosted
    (filteredJobs (fun l => l) (fun s => s) store
       (setDateFrom (js "2026-02-01") (initialState (fun l => l) store)))
  = [js "2026-02-01"; js "2026-02-15"].
Proof. vm_compute. reflexivity. Qed.

(** In Phoenix, seven hours west of Greenwich, a posting of 2026-02-22 is
    in the first band and one of 2026-02-21 in the second; in a host one
    hour east of Greenwich both are in the first. *)
Example buckets_edge_example :
  let posts :=
    [ sampleJob 1 "Developer" "Oracle" "2026-02-22" None;
      sampleJob 2 "Architect" "Intel" "2026-02-21" None ] in
  List.map count (buckets (fixedOffset (-420)) posts) = [1; 1; 0; 0; 0]%nat
  /\ List.map count (buckets (fixedOffset 60) posts) = [2; 0; 0; 0; 0]%nat.
Proof. vm_compute. split; reflexivity. Qed.

(** * Further properties of the dashboard *)

(** ** Groups, counts and the headline figures *)

Section MoreCountFacts.
Context {A K : Type} `{EqDecision K}.
Variable key : A -> K.

Lemma bump_sum (k : K) (m : list (K * nat)) :
  list_sum (List.map snd (bump k m)) = S (list_sum (List.map snd m)).
Proof.
  induction m as [|[k' c] m IH]; [reflexivity|].
  cbn [bump]. destruct (decide (k' = k)); cbn [List.map snd list_sum fold_right] in *;
    unfold list_sum in *; cbn [fold_right] in *; lia.
Qed.

Lemma countBy_sum (data : list A) :
  list_sum (List.map snd (countBy key data)) = length data.
Proof.
  induction data as [|j data IH] using rev_ind; [reflexivity|].
  rewrite countBy_snoc, bump_sum, IH, length_app. simpl. lia.
Qed.

Lemma list_sum_perm (l1 l2 : list nat) : l1 ≡ₚ l2 -> list_sum l1 = list_sum l2.
Proof.
  induction 1; unfold list_sum in *; cbn [fold_right] in *; lia.
Qed.

Lemma rank_sum (data : list A) :
  list_sum (List.map snd (rank key data)) = length data.
Proof.
  rewrite <- countBy_sum. apply list_sum_perm.
  unfold rank. apply Permutation_map, sortDesc_perm.
Qed.

Lemma rank_nil_iff (data : list A) : rank key data = [] <-> data = [].
Proof.
  split.
  - intros Hr. pose proof (rank_sum data) as Hs. rewrite Hr in Hs.
    destruct data; [reflexivity | discriminate].
  - intros ->. reflexivity.
Qed.

End MoreCountFacts.

Lemma uniqueCount_rank (arr : list JobRecord) (key : JobRecord -> jsstring) :
  uniqueCount arr key = length (rank key arr).
Proof.
  unfold uniqueCount.
  destruct (rank_keys key arr) as [Hnd Hkeys].
  rewrite <- (length_map fst (rank key arr)).
  rewrite <- (size_list_to_set (C := gset jsstring)) by exact Hnd.
  f_equal. apply set_eq. intros k.
  rewrite !elem_of_list_to_set, !list_elem_of_In. symmetry. apply Hkeys.
Qed.

Lemma rank_length_le {A K : Type} `{EqDecision K} (key : A -> K) (data : list A) :
  (length (rank key data) <= length data)%nat.
Proof.
  rewrite <- (rank_sum key data).
  pose proof (rank_entries key data) as Hall.
  induction Hall as [|e l [_ He] _ IH]; [simpl; lia|].
  cbn [List.map length]. unfold list_sum in *. cbn [fold_right]. lia.
Qed.

(** X1.  [uniqueCount] is the number of groups of the ranking by the same
    key, before any slice: it is at most the number of records, it is 0
    for the empty subset only, and the employer chart shows
    [min 8 (uniqueCount data employer)] bars. *)
Theorem uniqueCount_groups (arr : list JobRecord) (key : JobRecord -> jsstring) :
  uniqueCount arr key = length (rank key arr)
  /\ (uniqueCount arr key <= length arr)%nat
  /\ (uniqueCount arr key = 0%nat <-> arr = [])
  /\ length (topEmployers arr) = Nat.min 8 (uniqueCount arr employer).
Proof.
  split; [apply uniqueCount_rank|].
  split; [rewrite uniqueCount_rank; apply rank_length_le|].
  split.
  - rewrite uniqueCount_rank, <- (rank_nil_iff key arr).
    destruct (rank key arr); simpl; split; congruence.
  - rewrite uniqueCount_rank. unfold topEmployers. apply length_firstn.
Qed.

(** X2.  The counts of a ranking add up to the number of records ranked:
    the counts on the category pills add up to the count on the "All
    Categories" pill, and the counts of the employers, before the slice,
    to the size of the subset; the 8 bars of the chart can only fall
    short of it. *)
Theorem rank_counts_sum (jobs data : list JobRecord) :
  list_sum (List.map snd (categories jobs)) = length jobs
  /\ list_sum (List.map snd (rank employer data)) = length data
  /\ (list_sum (List.map snd (topEmployers data)) <= length data)%nat
  /\ ((uniqueCount data employer <= 8)%nat ->
      list_sum (List.map snd (topEmployers data)) = length data).
Proof.
  split; [apply rank_sum|]. split; [apply rank_sum|].
  assert (Hsplit : (list_sum (List.map snd (topEmployers data))
                    + list_sum (List.map snd (skipn 8 (rank employer data)))
                    = length data)%nat).
  { rewrite <- (rank_sum employer data). unfold topEmployers.
    rewrite <- (firstn_skipn 8 (rank employer data)) at 3.
    rewrite List.map_app.
    generalize (List.map snd (firstn 8 (rank employer data))) as l1.
    generalize (List.map snd (skipn 8 (rank employer data))) as l2.
    intros l2 l1. induction l1 as [|x l1 IH]; unfold list_sum in *;
      cbn [fold_right app] in *; lia. }
  split; [lia|].
  intros Hle. rewrite uniqueCount_rank in Hle.
  rewrite skipn_all2 in Hsplit by exact Hle. simpl in Hsplit. lia.
Qed.

(** X3.  The four headline figures agree with one another for every
    store and filter state: the total never exceeds the size of the
    store, neither the number of employers nor the number of postings
    with a salary exceeds the total, there is no employer exactly when
    there is no posting, and the average salary is never negative, a
    whole number or [Infinity], and is 0 when no posting lists one. *)
Theorem stats_consistent
    (localeSort : list jsstring -> list jsstring)
    (toLowerCase : jsstring -> jsstring)
    (jobs : list JobRecord) (fs : FilterState) :
  let s := stats (filteredJobs localeSort toLowerCase jobs fs) in
  (stat_total s <= length jobs)%nat
  /\ (stat_employers s <= stat_total s)%nat
  /\ (stat_withWage s <= stat_total s)%nat
  /\ (stat_employers s = 0%nat <-> stat_total s = 0%nat)
  /\ (stat_withWage s = 0%nat -> stat_avgWage s = Fin 0)
  /\ wholeOrInfinite (stat_avgWage s).
Proof.
  cbn [stats stat_total stat_employers stat_withWage stat_avgWage].
  generalize (filteredJobs_filter localeSort toLowerCase jobs fs).
  generalize (filteredJobs localeSort toLowerCase jobs fs) as sub.
  intros sub Hsub.
  split; [rewrite Hsub; apply List.filter_length_le|].
  split; [rewrite uniqueCount_rank; apply rank_length_le|].
  split; [apply List.filter_length_le|].
  split.
  { rewrite uniqueCount_rank.
    pose proof (rank_nil_iff employer sub) as Hn.
    destruct (rank employer sub), sub; simpl; split; try congruence;
      intros; exfalso; destruct Hn as [H1 H2];
      try (specialize (H1 eq_refl); discriminate);
      try (specialize (H2 eq_refl); discriminate). }
  split; [|apply avgWage_whole].
  intros Hw. rewrite avgWage_unfold.
  destruct (List.filter hasWage sub); [reflexivity | discriminate].
Qed.

(** ** The bar chart and the phrase cloud *)

Lemma countDesc_of_ranked {A : Type} (key : A -> jsstring) (data : list A)
    (l : list (jsstring * nat)) :
  StronglySorted (rankedBefore key data) l -> StronglySorted countDesc l.
Proof.
  induction 1 as [|x l Hs IH Hx]; constructor; [assumption|].
  eapply Forall_impl; [exact Hx|].
  intros y [Hlt|[Heq _]]; unfold countDesc; lia.
Qed.

Lemma headCount_max (l : list (jsstring * nat)) :
  StronglySorted countDesc l ->
  Forall (fun e => (snd e <= headCount l)%nat) l.
Proof.
  intros Hs. destruct l as [|x l]; [constructor|].
  apply StronglySorted_cons in Hs as [Hx _]. cbn [headCount].
  constructor; [lia | exact Hx].
Qed.

(** X4.  The list the employer chart draws never has an employer twice,
    so the names can serve as keys; its first count is the largest, so
    every bar has a count between 1 and [max] and no bar is wider than
    the track; and [max] is at least 1 even when there is nothing to
    draw, so nothing is divided by zero. *)
Theorem topEmployers_bars (data : list JobRecord) :
  NoDup (List.map fst (topEmployers data))
  /\ Forall (fun e => (1 <= snd e <= headCount (topEmployers data))%nat)
            (topEmployers data)
  /\ (1 <= headCount (topEmployers data))%nat.
Proof.
  assert (Hpos : Forall (fun e => (1 <= snd e)%nat) (topEmployers data)).
  { unfold topEmployers. apply Forall_take.
    eapply Forall_impl; [apply (rank_entries employer data)|].
    intros e [_ He]. lia. }
  assert (Hmax : Forall (fun e => (snd e <= headCount (topEmployers data))%nat)
                        (topEmployers data)).
  { apply headCount_max, (countDesc_of_ranked employer data).
    unfold topEmployers. apply StronglySorted_firstn, rank_sorted. }
  split; [|split].
  - unfold topEmployers. rewrite <- firstn_map.
    eapply sublist_NoDup; [apply (rank_keys employer data) | apply sublist_take].
  - rewrite Forall_forall in *. intros e He.
    specialize (Hpos e He). specialize (Hmax e He). lia.
  - destruct (topEmployers data) as [|e l]; [simpl; lia|].
    apply Forall_cons in Hpos as [He _]. exact He.
Qed.

Lemma selectLoop_countDesc (cands : list (jsstring * nat)) :
  forall (sel : list (jsstring * nat)) (cov : list jsstring),
    StronglySorted countDesc (sel ++ cands) ->
    StronglySorted countDesc (selectLoop cands sel cov).
Proof.
  induction cands as [|[phrase cnt] cands IH]; intros sel cov Hs;
    cbn [selectLoop].
  - now rewrite app_nil_r in Hs.
  - assert (Hdrop : StronglySorted countDesc (sel ++ cands)).
    { apply StronglySorted_app in Hs as (Hc & Hs1 & Hs2).
      apply StronglySorted_cons in Hs2 as [_ Hs2].
      apply StronglySorted_app. split; [|now split].
      intros x y Hx Hy. apply Hc; [assumption | now right]. }
    assert (Hkeep : StronglySorted countDesc (sel ++ [(phrase, cnt)])).
    { change ((phrase, cnt) :: cands) with ([(phrase, cnt)] ++ cands) in Hs.
      rewrite app_assoc in Hs. now apply StronglySorted_app in Hs as (_ & ? & _). }
    destruct (dominatedBy sel phrase cnt cov).
    + destruct (15 <=? length sel)%nat; [|now apply IH].
      now apply StronglySorted_app in Hdrop as (_ & ? & _).
    + destruct (15 <=? length (sel ++ [(phrase, cnt)]))%nat; [assumption|].
      apply IH. now rewrite <- app_assoc.
Qed.

Lemma candidates_sorted (data : list JobRecord) :
  StronglySorted countDesc (candidates data).
Proof.
  unfold candidates.
  generalize (List.filter (fun e => (2 <=? snd e)%nat) (phraseCounts data)) as l.
  intros l.
  assert (H : StronglySorted (byCountThen (fun _ _ => True)) (sortDesc l)).
  { apply sortDesc_sorted. induction l; constructor; [assumption|].
    now apply Forall_forall. }
  induction H as [|x s Hs IH Hx]; constructor; [assumption|].
  eapply Forall_impl; [exact Hx|].
  intros y [Hlt|[Heq _]]; unfold countDesc; lia.
Qed.

Lemma selected_entry (data : list JobRecord) (e : jsstring * nat) :
  In e (selected data) -> snd e = support (fst e) data /\ (2 <= snd e)%nat.
Proof.
  intros He. unfold selected in He.
  destruct (selectLoop_spec (candidates data) [] []) as [Hin _].
  destruct (Hin e He) as [[]|Hc]. now apply candidates_entry.
Qed.

(** X5.  The phrases come out in descending order of count: the first
    count is the largest, which is what [max] takes it for, so every
    count lies between 2 and [max] and the intensity [count / max] of a
    chip is never above 1; [max] is at least 1 when there is no phrase. *)
Theorem keywords_descending (data : list JobRecord) :
  StronglySorted countDesc (keywords data)
  /\ Forall (fun e => (2 <= snd e <= headCount (keywords data))%nat)
            (keywords data)
  /\ (1 <= headCount (keywords data))%nat.
Proof.
  assert (Hs : StronglySorted countDesc (keywords data)).
  { unfold keywords.
    assert (H : StronglySorted countDesc (selected data)).
    { unfold selected. apply selectLoop_countDesc. apply candidates_sorted. }
    induction H as [|x l Hl IH Hx]; cbn [List.map]; constructor; [assumption|].
    apply Forall_forall. intros y Hy.
    apply list_elem_of_In, in_map_iff in Hy as (y0 & <- & Hy0).
    rewrite Forall_forall in Hx. apply (Hx y0). now apply list_elem_of_In. }
  assert (Hge : Forall (fun e => (2 <= snd e)%nat) (keywords data)).
  { unfold keywords. apply Forall_forall. intros e He.
    apply list_elem_of_In, in_map_iff in He as (e0 & <- & He0).
    now destruct (selected_entry data e0 He0). }
  split; [exact Hs|]. split.
  - pose proof (headCount_max _ Hs) as Hmax.
    rewrite Forall_forall in *. intros e He.
    specialize (Hge e He). specialize (Hmax e He). lia.
  - destruct (keywords data) as [|e l]; [simpl; lia|].
    apply Forall_cons in Hge as [He _]. cbn [headCount]. lia.
Qed.

(** ** Cleaned titles and phrases *)

Lemma splitWs_Forall (P : N -> Prop) (s : jsstring) :
  forall (cur : jsstring) (inRun : bool),
    Forall P s -> Forall P cur -> Forall (Forall P) (splitWs s cur inRun).
Proof.
  induction s as [|c s IH]; intros cur inRun Hs Hcur; cbn [splitWs].
  - repeat constructor. now apply Forall_rev.
  - apply Forall_cons in Hs as [Hc Hs].
    destruct (isWhiteSpace c).
    + destruct inRun; [now apply IH|].
      constructor; [now apply Forall_rev | apply IH; [assumption | constructor]].
    + apply IH; [assumption | now constructor].
Qed.

Lemma splitWs_no_space (s : jsstring) :
  forall (cur : jsstring) (inRun : bool),
    Forall (fun c => isWhiteSpace c = false) cur ->
    Forall (Forall (fun c => isWhiteSpace c = false)) (splitWs s cur inRun).
Proof.
  induction s as [|c s IH]; intros cur inRun Hcur; cbn [splitWs].
  - repeat constructor. now apply Forall_rev.
  - destruct (isWhiteSpace c) eqn:Hc.
    + destruct inRun; [now apply IH|].
      constructor; [now apply Forall_rev | apply IH; constructor].
    + apply IH. now constructor.
Qed.

Ltac n_bools :=
  repeat match goal with
    | H : (_ && _) = true |- _ => apply andb_true_iff in H as [? ?]
    | H : (_ || _) = true |- _ => apply orb_true_iff in H as [?|?]
    | H : (_ <=? _)%N = true |- _ => apply N.leb_le in H
    | H : (_ <=? _)%N = false |- _ => apply N.leb_gt in H
    | H : (_ =? _)%N = true |- _ => apply N.eqb_eq in H
    | H : (_ =? _)%N = false |- _ => apply N.eqb_neq in H
    end.

Lemma lowerAscii_letter (c : N) :
  isAsciiLetter c = true -> isLowerAscii (lowerAscii c) = true.
Proof.
  unfold isAsciiLetter, lowerAscii. intros H.
  destruct (isUpperAscii c) eqn:Hu.
  - clear H. unfold isUpperAscii, isLowerAscii in *. n_bools.
    apply andb_true_iff. split; apply N.leb_le; lia.
  - simpl in H. exact H.
Qed.

Lemma cleanTitle_clean (title : jsstring) :
  Forall isCleanWord (cleanTitle title).
Proof.
  unfold cleanTitle. apply Forall_forall. intros w Hw.
  apply list_elem_of_In, filter_In in Hw as [Hw Hkeep].
  apply andb_true_iff in Hkeep as [Hlen Hstop].
  apply in_map_iff in Hw as (piece & <- & Hpiece).
  set (s2 := List.filter (fun c => isAsciiLetter c || isWhiteSpace c)
               (List.map (fun c => if isSeparator c then 32%N else c) title)) in *.
  assert (H1 : Forall (fun c => isAsciiLetter c || isWhiteSpace c = true) piece).
  { assert (Hall : Forall (Forall (fun c => isAsciiLetter c || isWhiteSpace c = true))
                          (splitWs s2 [] false)).
    { apply splitWs_Forall; [|constructor].
      apply Forall_forall. intros c Hc.
      now apply list_elem_of_In, filter_In in Hc as [_ Hc]. }
    rewrite Forall_forall in Hall. now apply Hall, list_elem_of_In. }
  assert (H2 : Forall (fun c => isWhiteSpace c = false) piece).
  { pose proof (splitWs_no_space s2 [] false ltac:(constructor)) as Hall.
    rewrite Forall_forall in Hall. now apply Hall, list_elem_of_In. }
  split; [|split].
  - apply Nat.ltb_lt in Hlen. lia.
  - apply Forall_forall. intros c Hc.
    apply list_elem_of_In, in_map_iff in Hc as (c0 & <- & Hc0).
    apply lowerAscii_letter.
    rewrite Forall_forall in H1, H2. apply list_elem_of_In in Hc0.
    specialize (H1 c0 Hc0). specialize (H2 c0 Hc0).
    rewrite H2, orb_false_r in H1. exact H1.
  - apply negb_true_iff, bool_decide_eq_false in Hstop. exact Hstop.
Qed.

(** X6.  Every word of a cleaned title has at least two characters, all
    of them lower-case ASCII letters, and is no stop word: no digit, no
    punctuation, no white space and no upper-case letter survives. *)
Theorem cleanTitle_words (title : jsstring) :
  Forall isCleanWord (cleanTitle title).
Proof. apply cleanTitle_clean. Qed.

Lemma titlePhrases_window (words : list jsstring) (p : jsstring) :
  In p (titlePhrases words) ->
  exists pre ws post,
    words = pre ++ ws ++ post
    /\ (2 <= length ws <= 4)%nat
    /\ p = join [32%N] ws.
Proof.
  unfold titlePhrases. rewrite in_flat_map. intros (n & Hn & Hp).
  unfold ngrams in Hp. apply in_map_iff in Hp as (i & <- & Hi).
  apply in_seq in Hi.
  exists (firstn i words), (firstn n (skipn i words)), (skipn n (skipn i words)).
  split; [now rewrite !firstn_skipn|].
  split; [|reflexivity].
  rewrite length_firstn, length_skipn.
  simpl in Hn. destruct Hn as [<-|[<-|[<-|[]]]]; lia.
Qed.

Lemma selected_in_title (data : list JobRecord) (e : jsstring * nat) :
  In e (selected data) ->
  exists j, In j data /\ In (fst e) (titlePhrases (cleanTitle (jobTitle j))).
Proof.
  intros He. destruct (selected_entry data e He) as [Hs Hge].
  unfold support in Hs.
  destruct (List.filter _ data) as [|j l] eqn:E; [simpl in Hs; lia|].
  assert (Hj : In j (j :: l)) by now left.
  rewrite <- E in Hj. apply filter_In in Hj as [Hj Hp].
  exists j. split; [assumption|].
  now apply bool_decide_eq_true, list_elem_of_In in Hp.
Qed.

(** [titleCase] on words of lower-case letters. *)
Lemma titleCaseFrom_word (w rest : jsstring) :
  Forall (fun c => isLowerAscii c = true) w ->
  titleCaseFrom true (w ++ rest) = w ++ titleCaseFrom true rest.
Proof.
  induction w as [|c w IH]; intros Hw; [reflexivity|].
  apply Forall_cons in Hw as [Hc Hw]. cbn [app titleCaseFrom].
  assert (Hword : isWordChar c = true).
  { unfold isWordChar, isAsciiLetter. now rewrite Hc, orb_true_r. }
  rewrite Hword. cbn [negb andb]. f_equal. now apply IH.
Qed.

Lemma titleCaseFrom_cap (w rest : jsstring) :
  w <> [] -> Forall (fun c => isLowerAscii c = true) w ->
  titleCaseFrom false (w ++ rest) = capitalize w ++ titleCaseFrom true rest.
Proof.
  intros Hne Hw. destruct w as [|c w]; [congruence|].
  apply Forall_cons in Hw as [Hc Hw]. cbn [app titleCaseFrom capitalize].
  assert (Hword : isWordChar c = true).
  { unfold isWordChar, isAsciiLetter. now rewrite Hc, orb_true_r. }
  rewrite Hword. cbn [negb andb]. f_equal.
  now apply titleCaseFrom_word.
Qed.

Lemma titleCase_join (ws : list jsstring) :
  Forall (fun w => w <> [] /\ Forall (fun c => isLowerAscii c = true) w) ws ->
  titleCase (join [32%N] ws) = join [32%N] (List.map capitalize ws).
Proof.
  unfold titleCase. induction 1 as [|w ws [Hne Hw] Hws IH]; [reflexivity|].
  destruct ws as [|w' ws].
  - cbn [join List.map]. rewrite <- (app_nil_r w) at 1.
    rewrite titleCaseFrom_cap by assumption. now rewrite app_nil_r.
  - change (join [32%N] (w :: w' :: ws))
      with (w ++ [32%N] ++ join [32%N] (w' :: ws)).
    change (join [32%N] (List.map capitalize (w :: w' :: ws)))
      with (capitalize w ++ [32%N] ++ join [32%N] (List.map capitalize (w' :: ws))).
    rewrite titleCaseFrom_cap by assumption.
    cbn [app titleCaseFrom]. change (isWordChar 32) with false.
    cbn [andb]. now rewrite IH.
Qed.

Lemma isCleanWord_shape (w : jsstring) :
  isCleanWord w -> w <> [] /\ Forall (fun c => isLowerAscii c = true) w.
Proof.
  intros (Hlen & Hlow & _). split; [|assumption].
  intros ->. simpl in Hlen. lia.
Qed.

(** X7.  Every phrase the extractor emits is a run of two, three or four
    consecutive words of the cleaned title of some record of the subset,
    each word with its first letter in upper case and the rest in lower
    case, joined by single spaces. *)
Theorem keywords_windows (data : list JobRecord) :
  Forall
    (fun e =>
       exists j pre ws post,
         In j data
         /\ cleanTitle (jobTitle j) = pre ++ ws ++ post
         /\ (2 <= length ws <= 4)%nat
         /\ Forall isCleanWord ws
         /\ fst e = join [32%N] (List.map capitalize ws))
    (keywords data).
Proof.
  unfold keywords. apply Forall_forall. intros e He.
  apply list_elem_of_In, in_map_iff in He as (e0 & <- & He0).
  destruct (selected_in_title data e0 He0) as (j & Hj & Hp).
  destruct (titlePhrases_window _ _ Hp) as (pre & ws & post & Hw & Hlen & Hjoin).
  exists j, pre, ws, post.
  assert (Hclean : Forall isCleanWord ws).
  { pose proof (cleanTitle_clean (jobTitle j)) as Hall.
    rewrite Hw in Hall. apply Forall_app in Hall as [_ Hall].
    now apply Forall_app in Hall as [Hall _]. }
  repeat split; try assumption; try lia.
  cbn [fst]. rewrite Hjoin. apply titleCase_join.
  eapply Forall_impl; [exact Hclean|]. apply isCleanWord_shape.
Qed.

Lemma upperAscii_other (c : N) : isLowerAscii c = false -> upperAscii c = c.
Proof. unfold upperAscii. now intros ->. Qed.

Lemma upperAscii_facts (c : N) :
  isWordChar (upperAscii c) = isWordChar c
  /\ upperAscii (upperAscii c) = upperAscii c
  /\ lowerAscii (upperAscii c) = lowerAscii c.
Proof.
  destruct (isLowerAscii c) eqn:E;
    [|rewrite !(upperAscii_other c E); repeat split; reflexivity].
  assert (Hu : upperAscii c = (c - 32)%N) by (unfold upperAscii; now rewrite E).
  pose proof E as E'. unfold isLowerAscii in E'. n_bools.
  assert (H1 : isUpperAscii c = false).
  { unfold isUpperAscii. apply andb_false_iff. right. apply N.leb_gt. lia. }
  assert (H2 : isUpperAscii (c - 32) = true).
  { unfold isUpperAscii. apply andb_true_iff. split; apply N.leb_le; lia. }
  assert (H3 : isLowerAscii (c - 32) = false).
  { unfold isLowerAscii. apply andb_false_iff. left. apply N.leb_gt. lia. }
  rewrite Hu. split; [|split].
  - unfold isWordChar, isAsciiLetter. now rewrite H2, E, orb_true_r.
  - now apply upperAscii_other.
  - unfold lowerAscii. rewrite H2, H1. lia.
Qed.

Lemma titleCaseFrom_facts (s : jsstring) :
  forall b : bool,
    length (titleCaseFrom b s) = length s
    /\ List.map lowerAscii (titleCaseFrom b s) = List.map lowerAscii s
    /\ titleCaseFrom b (titleCaseFrom b s) = titleCaseFrom b s.
Proof.
  induction s as [|c s IH]; intros b; [repeat split|].
  cbn [titleCaseFrom length List.map].
  destruct (upperAscii_facts c) as (Hw & Hu & Hl).
  destruct (IH (isWordChar c)) as (IH1 & IH2 & IH3).
  destruct (isWordChar c && negb b) eqn:E.
  - rewrite Hw, E, Hu, Hl, IH1, IH2, IH3. repeat split.
  - rewrite E, IH1, IH2, IH3. repeat split.
Qed.

(** X8.  Title-casing changes the case of letters and nothing else: the
    result has the length of the phrase and the same lower-case form, so
    a phrase in lower case can be read back from its title-cased form;
    title-casing twice is title-casing once; and a run of lower-case
    words joined by spaces becomes the same run with every word
    capitalised. *)
Theorem titleCase_case_only (s : jsstring) (ws : list jsstring) :
  length (titleCase s) = length s
  /\ List.map lowerAscii (titleCase s) = List.map lowerAscii s
  /\ titleCase (titleCase s) = titleCase s
  /\ (Forall isCleanWord ws ->
      titleCase (join [32%N] ws) = join [32%N] (List.map capitalize ws)).
Proof.
  destruct (titleCaseFrom_facts s false) as (H1 & H2 & H3).
  repeat split; try assumption.
  intros Hws. apply titleCase_join.
  eapply Forall_impl; [exact Hws|]. apply isCleanWord_shape.
Qed.

Lemma keptApart_NoDup (l : list (jsstring * nat)) :
  StronglySorted keptApart l -> NoDup (List.map fst l).
Proof.
  induction 1 as [|x l Hs IH Hx]; cbn [List.map]; constructor; [|assumption].
  intros Hin. apply list_elem_of_In, in_map_iff in Hin as (y & Heq & Hy).
  rewrite Forall_forall in Hx.
  destruct (Hx y) as [Hinc _]; [now apply list_elem_of_In|].
  rewrite Heq, includes_refl in Hinc. discriminate.
Qed.

Lemma lowerAscii_join_clean (ws : list jsstring) :
  Forall isCleanWord ws ->
  List.map lowerAscii (join [32%N] ws) = join [32%N] ws.
Proof.
  assert (Hword : forall w, Forall (fun c => isLowerAscii c = true) w ->
                            List.map lowerAscii w = w).
  { induction 1 as [|c w Hc Hw IH]; [reflexivity|].
    cbn [List.map]. rewrite IH. f_equal.
    unfold lowerAscii, isUpperAscii, isLowerAscii in *. n_bools.
    destruct (65 <=? c)%N eqn:E1, (c <=? 90)%N eqn:E2; cbn [andb];
      try reflexivity. n_bools. lia. }
  induction 1 as [|w ws (_ & Hw & _) Hws IH]; [reflexivity|].
  destruct ws as [|w' ws]; [now apply Hword|].
  change (join [32%N] (w :: w' :: ws))
    with (w ++ [32%N] ++ join [32%N] (w' :: ws)).
  rewrite !List.map_app, IH, Hword by assumption. reflexivity.
Qed.

Lemma selected_clean (data : list JobRecord) (e : jsstring * nat) :
  In e (selected data) ->
  exists ws, Forall isCleanWord ws /\ fst e = join [32%N] ws.
Proof.
  intros He. destruct (selected_in_title data e He) as (j & Hj & Hp).
  destruct (titlePhrases_window _ _ Hp) as (pre & ws & post & Hw & _ & Hjoin).
  exists ws. split; [|assumption].
  pose proof (cleanTitle_clean (jobTitle j)) as Hall.
  rewrite Hw in Hall. apply Forall_app in Hall as [_ Hall].
  now apply Forall_app in Hall as [Hall _].
Qed.

(** X9.  No phrase is emitted twice, neither before nor after
    title-casing, so the emitted phrases can serve as keys of the chips:
    two kept phrases with the same title-cased form are the same
    phrase. *)
Theorem keywords_distinct (data : list JobRecord) :
  NoDup (List.map fst (selected data))
  /\ NoDup (List.map fst (keywords data)).
Proof.
  assert (Hnd : NoDup (List.map fst (selected data)))
    by apply keptApart_NoDup, selected_keptApart.
  split; [exact Hnd|].
  unfold keywords. rewrite List.map_map. cbn [fst].
  assert (Hinj : forall x y, In x (selected data) -> In y (selected data) ->
                   titleCase (fst x) = titleCase (fst y) -> fst x = fst y).
  { intros x y Hx Hy Heq.
    destruct (selected_clean data x Hx) as (wx & Hwx & Ex).
    destruct (selected_clean data y Hy) as (wy & Hwy & Ey).
    apply (f_equal (List.map lowerAscii)) in Heq.
    destruct (titleCaseFrom_facts (fst x) false) as (_ & Hlx & _).
    destruct (titleCaseFrom_facts (fst y) false) as (_ & Hly & _).
    unfold titleCase in Heq. rewrite Hlx, Hly, Ex, Ey in Heq.
    rewrite !lowerAscii_join_clean in Heq by assumption. congruence. }
  revert Hnd Hinj. generalize (selected data) as l.
  induction l as [|x l IH]; cbn [List.map]; intros Hnd Hinj; [constructor|].
  apply NoDup_cons in Hnd as [Hx Hnd]. constructor.
  - intros Hin. apply list_elem_of_In, in_map_iff in Hin as (y & Heq & Hy).
    apply Hx. apply list_elem_of_In.
    rewrite <- (Hinj y x); [now apply in_map | now right | now left | assumption].
  - apply IH; [assumption|]. intros a b Ha Hb. apply Hinj; now right.
Qed.

(** ** The filter state and the pipeline *)

Lemma step_false (p : JobRecord -> bool) (l : list JobRecord) :
  step false p l = l.
Proof. reflexivity. Qed.

Lemma inactive_shows_all
    (localeSort : list jsstring -> list jsstring)
    (toLowerCase : jsstring -> jsstring)
    (jobs : list JobRecord) (fs : FilterState) :
  hasActiveFilters localeSort jobs fs = false ->
  filteredJobs localeSort toLowerCase jobs fs = jobs.
Proof.
  unfold hasActiveFilters. rewrite !orb_false_iff, !negb_false_iff.
  intros (((((((Hc & He) & Hl) & Hs) & Hw) & Hf) & Ht) & Hq).
  unfold filteredJobs.
  destruct (activeCategory fs); [discriminate|].
  rewrite He, Hl, Hs, Hw.
  apply bool_decide_eq_true in Hf, Ht, Hq. rewrite Hf, Ht, Hq.
  reflexivity.
Qed.

(** X10.  When [hasActiveFilters] is false, so that the "Reset All"
    button is not shown, the grid and the charts receive the whole record
    store: every step of the pipeline is skipped. *)
Theorem no_active_filter_shows_all
    (localeSort : list jsstring -> list jsstring)
    (toLowerCase : jsstring -> jsstring)
    (jobs : list JobRecord) (fs : FilterState) :
  hasActiveFilters localeSort jobs fs = false ->
  filteredJobs localeSort toLowerCase jobs fs = jobs.
Proof. apply inactive_shows_all. Qed.

Lemma no_active_filter_shows_all_witness :
  filteredJobs (fun l => l) (fun s => s) wageSample
    (initialState (fun l => l) wageSample) = wageSample.
Proof.
  apply (no_active_filter_shows_all (fun l => l) (fun s => s) wageSample
           (initialState (fun l => l) wageSample)).
  reflexivity.
Defined.

Section ResetFacts.
Variable localeSort : list jsstring -> list jsstring.
Variable toLowerCase : jsstring -> jsstring.
Hypothesis localeSort_perm : forall l, localeSort l ≡ₚ l.

Lemma handleResetAll_initial (jobs : list JobRecord) (fs : FilterState) :
  handleResetAll localeSort jobs fs = initialState localeSort jobs.
Proof. reflexivity. Qed.

Lemma initialState_inactive (jobs : list JobRecord) :
  hasActiveFilters localeSort jobs (initialState localeSort jobs) = false.
Proof.
  unfold hasActiveFilters, initialState.
  cbn [activeCategory selectedEmployers selectedLocations selectedStatuses
       wageFilter dateFrom dateTo searchText].
  rewrite !full_set_size by assumption. rewrite !Nat.ltb_irrefl. reflexivity.
Qed.

End ResetFacts.

(** X11.  "Reset All" brings any filter state back to the initial one:
    afterwards no filter is active, the pipeline returns the whole store,
    and resetting again changes nothing. *)
Theorem handleResetAll_restores
    (localeSort : list jsstring -> list jsstring)
    (toLowerCase : jsstring -> jsstring)
    (jobs : list JobRecord) (fs : FilterState) :
  (forall l, localeSort l ≡ₚ l) ->
  handleResetAll localeSort jobs fs = initialState localeSort jobs
  /\ hasActiveFilters localeSort jobs (handleResetAll localeSort jobs fs) = false
  /\ filteredJobs localeSort toLowerCase jobs (handleResetAll localeSort jobs fs)
     = jobs
  /\ handleResetAll localeSort jobs (handleResetAll localeSort jobs fs)
     = handleResetAll localeSort jobs fs.
Proof.
  intros Hperm. split; [reflexivity|].
  assert (H : hasActiveFilters localeSort jobs (handleResetAll localeSort jobs fs)
              = false).
  { rewrite handleResetAll_initial. now apply initialState_inactive. }
  split; [exact H|]. split; [|reflexivity].
  now apply inactive_shows_all.
Qed.

Lemma handleResetAll_restores_witness :
  filteredJobs (fun l => l) (fun s => s) wageSample
    (handleResetAll (fun l => l) wageSample
       (setDateFrom (js "2026-02-22")
          (setWageFilter (js "150k+") (initialState (fun l => l) wageSample))))
  = wageSample.
Proof.
  apply (handleResetAll_restores (fun l => l) (fun s => s) wageSample
           (setDateFrom (js "2026-02-22")
              (setWageFilter (js "150k+") (initialState (fun l => l) wageSample)))).
  intros l. reflexivity.
Defined.

(** X12.  Toggling a value twice gives the selection back; one toggle
    changes the membership of that value and of no other, and changes
    the size of the selection by exactly one. *)
Theorem toggle_involutive (val : jsstring) (prev : gset jsstring) :
  toggle val (toggle val prev) = prev
  /\ (val ∈ toggle val prev <-> val ∉ prev)
  /\ (forall other, other <> val -> (other ∈ toggle val prev <-> other ∈ prev))
  /\ size (toggle val prev)
     = (if bool_decide (val ∈ prev) then size prev - 1 else size prev + 1)%nat.
Proof.
  unfold toggle.
  destruct (decide (val ∈ prev)) as [Hin|Hnin].
  - rewrite (bool_decide_eq_true_2 _ Hin).
    rewrite (bool_decide_eq_false_2 (val ∈ prev ∖ {[val]})) by set_solver.
    split; [|split; [|split]].
    + apply set_eq. intros x. destruct (decide (x = val)); set_solver.
    + set_solver.
    + intros other Hne. set_solver.
    + rewrite size_difference by set_solver. now rewrite size_singleton.
  - rewrite (bool_decide_eq_false_2 _ Hnin).
    rewrite (bool_decide_eq_true_2 (val ∈ prev ∪ {[val]})) by set_solver.
    split; [|split; [|split]].
    + apply set_eq. intros x. set_solver.
    + set_solver.
    + intros other Hne. set_solver.
    + rewrite size_union by set_solver. now rewrite size_singleton.
Qed.

Section MorePipelineFacts.
Variable localeSort : list jsstring -> list jsstring.
Variable toLowerCase : jsstring -> jsstring.
Hypothesis localeSort_perm : forall l, localeSort l ≡ₚ l.

(** In the initial state every dimension passes every record. *)
Lemma initialState_passes (jobs : list JobRecord) (j : JobRecord) :
  let fs := initialState localeSort jobs in
  passCategory fs j = true
  /\ passInclusion (selectedEmployers fs)
       (getUniqueValues localeSort jobs employer) (employer j) = true
  /\ passInclusion (selectedLocations fs)
       (getUniqueValues localeSort jobs location) (location j) = true
  /\ passInclusion (selectedStatuses fs)
       (getUniqueValues localeSort jobs status) (status j) = true
  /\ passWage fs j = true
  /\ passDateFrom fs j = true
  /\ passDateTo fs j = true
  /\ passSearch toLowerCase fs j = true.
Proof.
  cbn zeta. unfold initialState.
  cbn [selectedEmployers selectedLocations selectedStatuses].
  rewrite !passInclusion_full by assumption. repeat split.
Qed.

Lemma filteredJobs_only_category (jobs : list JobRecord) (c : option jsstring) :
  filteredJobs localeSort toLowerCase jobs
    (handleCategoryClick c (initialState localeSort jobs))
  = List.filter (passCategory (setActiveCategory c (initialState localeSort jobs)))
                jobs.
Proof.
  rewrite filteredJobs_filter. apply filter_ext. intros j.
  destruct (initialState_passes jobs j) as (_ & He & Hl & Hs & Hw & Hf & Ht & Hq).
  unfold passes, handleCategoryClick.
  change (selectedEmployers (setActiveCategory c (initialState localeSort jobs)))
    with (selectedEmployers (initialState localeSort jobs)).
  change (selectedLocations (setActiveCategory c (initialState localeSort jobs)))
    with (selectedLocations (initialState localeSort jobs)).
  change (selectedStatuses (setActiveCategory c (initialState localeSort jobs)))
    with (selectedStatuses (initialState localeSort jobs)).
  rewrite He, Hl, Hs. now rewrite !andb_true_r.
Qed.

Lemma filteredJobs_only_wage (jobs : list JobRecord) (tag : jsstring) :
  tag <> js "all" ->
  filteredJobs localeSort toLowerCase jobs
    (setWageFilter tag (initialState localeSort jobs))
  = List.filter (wageBand tag) jobs.
Proof.
  intros Htag. rewrite filteredJobs_filter. apply filter_ext. intros j.
  destruct (initialState_passes jobs j) as (_ & He & Hl & Hs & _).
  unfold passes.
  change (selectedEmployers (setWageFilter tag (initialState localeSort jobs)))
    with (selectedEmployers (initialState localeSort jobs)).
  change (selectedLocations (setWageFilter tag (initialState localeSort jobs)))
    with (selectedLocations (initialState localeSort jobs)).
  change (selectedStatuses (setWageFilter tag (initialState localeSort jobs)))
    with (selectedStatuses (initialState localeSort jobs)).
  rewrite He, Hl, Hs.
  unfold passWage, setWageFilter. cbn [wageFilter].
  unfold str_eqb at 1. rewrite (bool_decide_eq_false_2 _ Htag).
  now rewrite !andb_true_r.
Qed.

Lemma filteredJobs_toggle_employer (jobs : list JobRecord) (e : jsstring) :
  In e (getUniqueValues localeSort jobs employer) ->
  filteredJobs localeSort toLowerCase jobs
    (toggleEmployer e (initialState localeSort jobs))
  = List.filter
      (fun j => negb (str_eqb (employer j) e)
                && bool_decide (employer j
                                  ∈ getUniqueValues localeSort jobs employer))
      jobs.
Proof.
  intros He. rewrite filteredJobs_filter. apply filter_ext. intros j.
  destruct (initialState_passes jobs j) as (_ & _ & Hl & Hs & _).
  unfold passes.
  change (selectedLocations (toggleEmployer e (initialState localeSort jobs)))
    with (selectedLocations (initialState localeSort jobs)).
  change (selectedStatuses (toggleEmployer e (initialState localeSort jobs)))
    with (selectedStatuses (initialState localeSort jobs)).
  rewrite Hl, Hs. rewrite !andb_true_r.
  change (passCategory (toggleEmployer e (initialState localeSort jobs)) j)
    with true.
  cbn [andb]. unfold passInclusion, toggleEmployer, setSelectedEmployers, initialState.
  cbn [selectedEmployers].
  set (all := getUniqueValues localeSort jobs employer) in *.
  assert (Hin : e ∈ (list_to_set all : gset jsstring))
    by (apply elem_of_list_to_set, list_elem_of_In, He).
  unfold toggle. rewrite (bool_decide_eq_true_2 _ Hin).
  rewrite size_difference by set_solver.
  rewrite size_singleton.
  assert (Hsz : size (list_to_set all : gset jsstring) = length all)
    by (apply full_set_size; assumption).
  rewrite Hsz.
  assert (Hpos : (0 < length all)%nat) by (destruct all; [destruct He | simpl; lia]).
  rewrite (proj2 (Nat.ltb_lt _ _)) by lia. cbn [negb orb].
  unfold str_eqb.
  destruct (decide (employer j = e)) as [Heq|Hne].
  - rewrite (bool_decide_eq_true_2 _ Heq). cbn [negb andb].
    apply bool_decide_eq_false_2. set_solver.
  - rewrite (bool_decide_eq_false_2 _ Hne). cbn [negb andb].
    apply bool_decide_ext.
    rewrite elem_of_difference, elem_of_list_to_set, elem_of_singleton.
    tauto.
Qed.

End MorePipelineFacts.

(** X13.  Unticking one employer in the initial state keeps exactly the
    records whose employer is another of the listed values.  A record
    whose employer is not among the listed values, because it is blank or
    carries white space around it, is dropped as well. *)
Theorem untick_employer
    (localeSort : list jsstring -> list jsstring)
    (toLowerCase : jsstring -> jsstring)
    (jobs : list JobRecord) (e : jsstring) :
  (forall l, localeSort l ≡ₚ l) ->
  In e (getUniqueValues localeSort jobs employer) ->
  filteredJobs localeSort toLowerCase jobs
    (toggleEmployer e (initialState localeSort jobs))
  = List.filter
      (fun j => negb (str_eqb (employer j) e)
                && bool_decide (employer j
                                  ∈ getUniqueValues localeSort jobs employer))
      jobs.
Proof. intros Hperm He. now apply filteredJobs_toggle_employer. Qed.

Lemma untick_employer_witness :
  List.map id
    (filteredJobs (fun l => l) (fun s => s) wageSample
       (toggleEmployer (js "Oracle") (initialState (fun l => l) wageSample)))
  = [2; 3].
Proof.
  rewrite (untick_employer (fun l => l) (fun s => s) wageSample (js "Oracle")).
  - reflexivity.
  - intros l. reflexivity.
  - now left.
Defined.

Lemma filter_none {A : Type} (p : A -> bool) (l : list A) :
  (forall x, In x l -> p x = false) -> List.filter p l = [].
Proof.
  induction l as [|x l IH]; simpl; intros H; [reflexivity|].
  rewrite (H x) by now left. apply IH. intros; apply H; now right.
Qed.

(** X14.  "Clear" in the employer picker empties the selection.  As long
    as the store has some employer value the pipeline then returns no
    record, whatever the other filters are; when the store has none, the
    empty selection counts as "all selected" and restricts nothing. *)
Theorem clear_employers_shows_none
    (localeSort : list jsstring -> list jsstring)
    (toLowerCase : jsstring -> jsstring)
    (jobs : list JobRecord) (fs : FilterState) :
  (getUniqueValues localeSort jobs employer <> [] ->
   filteredJobs localeSort toLowerCase jobs (clearEmployers fs) = [])
  /\ (getUniqueValues localeSort jobs employer = [] ->
      forall v, passInclusion (selectedEmployers (clearEmployers fs))
                  (getUniqueValues localeSort jobs employer) v = true).
Proof.
  split.
  - intros Hne. rewrite filteredJobs_filter. apply filter_none. intros j _.
    unfold passes.
    assert (H : passInclusion (selectedEmployers (clearEmployers fs))
                  (getUniqueValues localeSort jobs employer) (employer j) = false).
    { unfold passInclusion, clearEmployers, setSelectedEmployers.
      cbn [selectedEmployers]. rewrite size_empty.
      destruct (getUniqueValues localeSort jobs employer); [congruence|].
      cbn [length Nat.ltb Nat.leb negb orb].
      apply bool_decide_eq_false_2. set_solver. }
    rewrite H. now rewrite andb_false_r.
  - intros Hnil v. rewrite Hnil. reflexivity.
Qed.

(** *** The order of strings *)

Lemma str_ltb_cotrans (a : jsstring) :
  forall b c : jsstring,
    str_ltb a c = true -> str_ltb a b = true \/ str_ltb b c = true.
Proof.
  induction a as [|x a IH]; intros b c Hac.
  - destruct c as [|z c]; [discriminate|].
    destruct b as [|y b]; [now right | now left].
  - destruct c as [|z c]; [discriminate|].
    destruct b as [|y b]; [now right|].
    cbn [str_ltb] in *.
    destruct (N.ltb_spec x z) as [Hxz|Hxz].
    + destruct (N.ltb_spec x y) as [Hxy|Hxy]; [now left|].
      right. destruct (N.ltb_spec y z); [reflexivity | lia].
    + destruct (N.ltb_spec z x) as [Hzx|Hzx]; [discriminate|].
      assert (x = z) by lia. subst z.
      destruct (N.ltb_spec x y) as [Hxy|Hxy]; [now left|].
      destruct (N.ltb_spec y x) as [Hyx|Hyx]; [now right|].
      now apply IH.
Qed.

Lemma str_ltb_irrefl (a : jsstring) : str_ltb a a = false.
Proof.
  induction a as [|x a IH]; [reflexivity|].
  cbn [str_ltb]. now rewrite N.ltb_irrefl.
Qed.

Lemma str_ltb_trans (a : jsstring) :
  forall b c : jsstring,
    str_ltb a b = true -> str_ltb b c = true -> str_ltb a c = true.
Proof.
  induction a as [|x a IH]; intros b c Hab Hbc.
  - destruct b as [|y b]; [discriminate|].
    destruct c as [|z c]; [discriminate | reflexivity].
  - destruct b as [|y b]; [discriminate|].
    destruct c as [|z c]; [discriminate|].
    cbn [str_ltb] in *.
    destruct (N.ltb_spec x y) as [Hxy|Hxy].
    + destruct (N.ltb_spec y z) as [Hyz|Hyz].
      * destruct (N.ltb_spec x z); [reflexivity | lia].
      * destruct (N.ltb_spec z y); [discriminate|].
        destruct (N.ltb_spec x z); [reflexivity | lia].
    + destruct (N.ltb_spec y x) as [Hyx|Hyx]; [discriminate|].
      assert (x = y) by lia. subst y.
      destruct (N.ltb_spec x z) as [Hxz|Hxz]; [reflexivity|].
      destruct (N.ltb_spec z x) as [Hzx|Hzx]; [discriminate|].
      now apply (IH b c).
Qed.

(** X15.  A date range whose upper bound is set and lies before its
    lower bound keeps no record, whatever the records and the other
    filters are. *)
Theorem inverted_date_range_shows_none
    (localeSort : list jsstring -> list jsstring)
    (toLowerCase : jsstring -> jsstring)
    (jobs : list JobRecord) (fs : FilterState) :
  dateTo fs <> [] ->
  str_ltb (dateTo fs) (dateFrom fs) = true ->
  filteredJobs localeSort toLowerCase jobs fs = [].
Proof.
  intros Hto Hlt. rewrite filteredJobs_filter. apply filter_none. intros j _.
  unfold passes.
  assert (H : passDateFrom fs j && passDateTo fs j = false).
  { unfold passDateFrom, passDateTo, str_geb, str_leb.
    destruct (dateTo fs) as [|t to] eqn:Et; [congruence|].
    destruct (dateFrom fs) as [|f from] eqn:Ef; [discriminate|].
    cbn [truthy negb orb].
    destruct (str_ltb_cotrans _ (datePosted j) _ Hlt) as [H|H]; rewrite H;
      cbn [negb]; [apply andb_false_r | apply andb_false_l]. }
  rewrite <- !andb_assoc. rewrite (andb_assoc (passDateFrom fs j)), H.
  now rewrite !andb_false_r.
Qed.

Lemma inverted_date_range_shows_none_witness :
  filteredJobs (fun l => l) (fun s => s) wageSample
    (setDateTo (js "2026-02-01")
       (setDateFrom (js "2026-03-01") (initialState (fun l => l) wageSample)))
  = [].
Proof.
  apply (inverted_date_range_shows_none (fun l => l) (fun s => s) wageSample
           (setDateTo (js "2026-02-01")
              (setDateFrom (js "2026-03-01")
                 (initialState (fun l => l) wageSample)))).
  - discriminate.
  - reflexivity.
Defined.

(** X16.  With no other filter set, clicking the pill of a category
    whose name is not empty shows as many rows as the pill announces, and
    at least one. *)
Theorem category_pill_count
    (localeSort : list jsstring -> list jsstring)
    (toLowerCase : jsstring -> jsstring)
    (jobs : list JobRecord) (c : jsstring) (n : nat) :
  (forall l, localeSort l ≡ₚ l) ->
  In (c, n) (categories jobs) ->
  c <> [] ->
  length (filteredJobs localeSort toLowerCase jobs
            (handleCategoryClick (Some c) (initialState localeSort jobs)))
  = n
  /\ (0 < n)%nat.
Proof.
  intros Hperm Hin Hc.
  rewrite filteredJobs_only_category by assumption.
  pose proof (rank_entries category jobs) as Hall.
  rewrite Forall_forall in Hall.
  destruct (Hall (c, n)) as [Hn Hpos]; [now apply list_elem_of_In|].
  split; [|exact Hpos]. cbn [fst snd] in Hn. rewrite Hn.
  unfold occurrences. f_equal. apply filter_ext. intros j.
  unfold passCategory, setActiveCategory. cbn [activeCategory].
  destruct c; [congruence|]. reflexivity.
Qed.

Lemma category_pill_count_witness :
  length (filteredJobs (fun l => l) (fun s => s) wageSample
            (handleCategoryClick (Some (js "Software Developers"))
               (initialState (fun l => l) wageSample)))
  = 4%nat.
Proof.
  apply (category_pill_count (fun l => l) (fun s => s) wageSample
           (js "Software Developers") 4).
  - intros l. reflexivity.
  - now left.
  - discriminate.
Defined.

(** X17.  With the toolbar at rest the pipeline is the category filter of
    the first version of the application: no category, or a category
    with an empty name, shows the whole store, and any other category
    shows its records in the order of the store. *)
Theorem filteredJobs_extends_legacy
    (localeSort : list jsstring -> list jsstring)
    (toLowerCase : jsstring -> jsstring)
    (jobs : list JobRecord) (c : option jsstring) :
  (forall l, localeSort l ≡ₚ l) ->
  filteredJobs localeSort toLowerCase jobs
    (handleCategoryClick c (initialState localeSort jobs))
  = Legacy.filteredJobs jobs c.
Proof.
  intros Hperm. rewrite filteredJobs_only_category by assumption.
  unfold Legacy.filteredJobs, passCategory, setActiveCategory.
  cbn [activeCategory].
  destruct c as [c|]; [|now apply filter_all].
  destruct (truthy c); cbn [negb orb]; [reflexivity | now apply filter_all].
Qed.

Lemma filteredJobs_extends_legacy_witness :
  filteredJobs (fun l => l) (fun s => s) wageSample
    (handleCategoryClick (Some []) (initialState (fun l => l) wageSample))
  = wageSample.
Proof.
  rewrite (filteredJobs_extends_legacy (fun l => l) (fun s => s) wageSample
             (Some [])).
  - reflexivity.
  - intros l. reflexivity.
Defined.

Lemma filter_idem {A : Type} (p : A -> bool) (l : list A) :
  List.filter p (List.filter p l) = List.filter p l.
Proof.
  induction l as [|x l IH]; simpl; [reflexivity|].
  destruct (p x) eqn:E; simpl; rewrite ?E, IH; reflexivity.
Qed.

(** X18.  The "Has Salary" choice of the wage selector, with no other
    filter, shows exactly the postings the salary card counts, every one
    of them with a listed salary, and leaves the average salary as it
    was. *)
Theorem listed_filter_matches_stats
    (localeSort : list jsstring -> list jsstring)
    (toLowerCase : jsstring -> jsstring)
    (jobs : list JobRecord) :
  (forall l, localeSort l ≡ₚ l) ->
  let shown :=
    filteredJobs localeSort toLowerCase jobs
      (setWageFilter (js "listed") (initialState localeSort jobs)) in
  shown = List.filter hasWage jobs
  /\ stat_total (stats shown) = stat_withWage (stats jobs)
  /\ stat_withWage (stats shown) = stat_total (stats shown)
  /\ stat_avgWage (stats shown) = stat_avgWage (stats jobs).
Proof.
  intros Hperm shown.
  assert (Hs : shown = List.filter hasWage jobs).
  { unfold shown. rewrite filteredJobs_only_wage by (assumption || discriminate).
    apply filter_ext. intros j. now destruct (wageBand_cases j) as (-> & _). }
  split; [exact Hs|]. rewrite Hs.
  cbn [stats stat_total stat_withWage stat_avgWage].
  rewrite filter_idem. repeat split.
  unfold avgWage. now rewrite filter_idem.
Qed.

Lemma listed_filter_matches_stats_witness :
  stat_total
    (stats (filteredJobs (fun l => l) (fun s => s) wageSample
              (setWageFilter (js "listed") (initialState (fun l => l) wageSample))))
  = 3%nat.
Proof.
  destruct (listed_filter_matches_stats (fun l => l) (fun s => s) wageSample)
    as (_ & H & _).
  - intros l. reflexivity.
  - rewrite H. reflexivity.
Defined.

(** ** The distinct values *)

Lemma trimStart_split (l : jsstring) :
  exists pre, l = pre ++ trimStart l
    /\ match trimStart l with [] => True | c :: _ => isWhiteSpace c = false end.
Proof.
  induction l as [|c l (pre & Hl & Hh)]; [exists []; now split|].
  cbn [trimStart]. destruct (isWhiteSpace c) eqn:E.
  - exists (c :: pre). split; [simpl; now f_equal | assumption].
  - exists []. now split.
Qed.

Lemma trimStart_fixed (l : jsstring) :
  match l with [] => True | c :: _ => isWhiteSpace c = false end ->
  trimStart l = l.
Proof. destruct l as [|c l]; [reflexivity|]. simpl. now intros ->. Qed.

Lemma trim_idem (s : jsstring) : trim (trim s) = trim s.
Proof.
  unfold trim.
  destruct (trimStart_split s) as (pre1 & _ & Hh1).
  set (t := trimStart s) in *.
  destruct (trimStart_split (rev t)) as (pre2 & Hrev & Hh2).
  set (u := trimStart (rev t)) in *.
  assert (Ht : t = rev u ++ rev pre2).
  { rewrite <- (rev_involutive t), Hrev, rev_app_distr. reflexivity. }
  assert (H1 : trimStart (rev u) = rev u).
  { apply trimStart_fixed. destruct (rev u) as [|c r] eqn:E; [exact I|].
    rewrite Ht in Hh1. exact Hh1. }
  rewrite H1, rev_involutive. f_equal. now apply trimStart_fixed.
Qed.

Section UniqueFacts.
Variable localeSort : list jsstring -> list jsstring.
Hypothesis localeSort_perm : forall l, localeSort l ≡ₚ l.
Variable field : JobRecord -> jsstring.

Local Abbreviation addValue :=
  (fun (set : list jsstring) (r : JobRecord) =>
     let v := trim (field r) in if truthy v then setAdd v set else set).

Lemma setAdd_In (v x : jsstring) (set : list jsstring) :
  In x (setAdd v set) <-> In x set \/ x = v.
Proof.
  unfold setAdd. case_bool_decide as Hv.
  - split; [now left|]. intros [?| ->]; [assumption | now apply list_elem_of_In].
  - rewrite in_app_iff. simpl. intuition congruence.
Qed.

Lemma uniqueFold_In (data : list JobRecord) :
  forall (set : list jsstring) (v : jsstring),
    In v (fold_left addValue data set)
    <-> In v set \/ (v <> [] /\ exists r, In r data /\ trim (field r) = v).
Proof.
  induction data as [|r data IH]; intros set v; cbn [fold_left].
  - split; [now left|]. intros [?|(_ & r & [] & _)]. assumption.
  - rewrite IH. cbn zeta.
    destruct (trim (field r)) as [|c w] eqn:E; cbn [truthy].
    + split.
      * intros [?|(Hne & r' & Hr' & Hv)]; [now left|].
        right. split; [assumption|]. exists r'. split; [now right | assumption].
      * intros [?|(Hne & r' & [-> |Hr'] & Hv)]; [now left | congruence |].
        right. split; [assumption|]. now exists r'.
    + rewrite setAdd_In. split.
      * intros [[?| ->]|(Hne & r' & Hr' & Hv)].
        -- now left.
        -- right. split; [discriminate|]. exists r. split; [now left | assumption].
        -- right. split; [assumption|]. exists r'. split; [now right | assumption].
      * intros [?|(Hne & r' & [-> |Hr'] & Hv)].
        -- left. now left.
        -- left. right. congruence.
        -- right. split; [assumption|]. now exists r'.
Qed.

Lemma uniqueFold_length (data : list JobRecord) :
  forall set : list jsstring,
    (length (fold_left addValue data set) <= length set + length data)%nat.
Proof.
  induction data as [|r data IH]; intros set; cbn [fold_left length]; [lia|].
  etransitivity; [apply IH|]. cbn zeta.
  destruct (truthy (trim (field r))); [|lia].
  unfold setAdd. case_bool_decide; rewrite ?length_app; simpl; lia.
Qed.

Lemma getUniqueValues_In (data : list JobRecord) (v : jsstring) :
  In v (getUniqueValues localeSort data field)
  <-> v <> [] /\ exists r, In r data /\ trim (field r) = v.
Proof.
  unfold getUniqueValues. rewrite <- list_elem_of_In, localeSort_perm,
    list_elem_of_In, uniqueFold_In.
  split; [intros [[]|?]; assumption | now right].
Qed.

End UniqueFacts.

(** X19.  [getUniqueValues] lists every value that some record holds in
    the field once its surrounding white space is removed, blank values
    left out, and lists nothing else; no value is listed twice, every
    listed value is free of surrounding white space, and there are no
    more values than records. *)
Theorem getUniqueValues_distinct_trimmed
    (localeSort : list jsstring -> list jsstring)
    (data : list JobRecord) (field : JobRecord -> jsstring) :
  (forall l, localeSort l ≡ₚ l) ->
  NoDup (getUniqueValues localeSort data field)
  /\ (forall v, In v (getUniqueValues localeSort data field)
                <-> v <> [] /\ exists r, In r data /\ trim (field r) = v)
  /\ Forall (fun v => trim v = v) (getUniqueValues localeSort data field)
  /\ (length (getUniqueValues localeSort data field) <= length data)%nat.
Proof.
  intros Hperm.
  split; [now apply getUniqueValues_NoDup|].
  split; [intros v; now apply getUniqueValues_In|].
  split.
  - apply Forall_forall. intros v Hv.
    apply list_elem_of_In, getUniqueValues_In in Hv as (_ & r & _ & <-);
      [|assumption].
    apply trim_idem.
  - unfold getUniqueValues. rewrite Hperm.
    etransitivity; [apply uniqueFold_length|]. simpl. lia.
Qed.

Lemma getUniqueValues_distinct_trimmed_witness :
  getUniqueValues (fun l => l)
    [ mkJob 1 [] (js "  Oracle ") [] [] [] None [] [] [] [];
      mkJob 2 [] (js "Oracle") [] [] [] None [] [] [] [];
      mkJob 3 [] (js "   ") [] [] [] None [] [] [] [] ] employer
  = [js "Oracle"]
  /\ NoDup (getUniqueValues (fun l => l) wageSample employer).
Proof.
  split; [reflexivity|].
  apply (getUniqueValues_distinct_trimmed (fun l => l) wageSample employer).
  intros l. reflexivity.
Defined.

(** ** The timeline and the freshness ring *)

Section TimelineFacts.
Variable dateSort : list (jsstring * nat) -> list (jsstring * nat).
Hypothesis dateSort_perm : forall l, dateSort l ≡ₚ l.

Lemma timelineCounts_countBy (data : list JobRecord) :
  timelineCounts data
  = countBy datePosted (List.filter (fun j => truthy (datePosted j)) data).
Proof.
  unfold timelineCounts, countBy. generalize (@nil (jsstring * nat)) as m.
  induction data as [|j data IH]; intros m; cbn [fold_left List.filter];
    [reflexivity|].
  rewrite IH. now destruct (truthy (datePosted j)).
Qed.

Lemma timeline_perm (data : list JobRecord) :
  timeline dateSort data
  ≡ₚ countBy datePosted (List.filter (fun j => truthy (datePosted j)) data).
Proof. unfold timeline. now rewrite dateSort_perm, timelineCounts_countBy. Qed.

Lemma max_fold_bound (l : list nat) :
  Forall (fun c => (c <= fold_right Nat.max 1%nat l)%nat) l
  /\ (1 <= fold_right Nat.max 1%nat l)%nat.
Proof.
  induction l as [|c l [IH1 IH2]]; cbn [fold_right]; [split; [constructor | lia]|].
  split; [|lia]. constructor; [lia|].
  eapply Forall_impl; [exact IH1|]. cbn beta. lia.
Qed.

Lemma max_fold_attained (l : list nat) :
  l <> [] -> Forall (fun c => (1 <= c)%nat) l ->
  In (fold_right Nat.max 1%nat l) l.
Proof.
  induction l as [|c l IH]; [congruence|]. intros _ Hall.
  apply Forall_cons in Hall as [Hc Hall]. cbn [fold_right].
  destruct l as [|c' l].
  - left. simpl. lia.
  - specialize (IH ltac:(discriminate) Hall).
    destruct (Nat.max_spec c (fold_right Nat.max 1%nat (c' :: l))) as [[_ ->]|[_ ->]];
      [now right | now left].
Qed.

End TimelineFacts.

(** X20.  The timeline has one bar for each distinct non-empty posting
    date, with a count of at least 1; the counts add up to the number of
    records that have a date; [max] is at least every count; and whenever
    the timeline is not empty the look-up of the peak finds a bar whose
    count is [max], so the date shown for the peak always exists.  The
    sort of the bars by date is any function that returns a permutation
    of its argument. *)
Theorem timeline_peak_found
    (dateSort : list (jsstring * nat) -> list (jsstring * nat))
    (data : list JobRecord) :
  (forall l, dateSort l ≡ₚ l) ->
  NoDup (List.map fst (timeline dateSort data))
  /\ list_sum (List.map snd (timeline dateSort data))
     = length (List.filter (fun j => truthy (datePosted j)) data)
  /\ Forall (fun e => (1 <= snd e <= timelineMax dateSort data)%nat
                      /\ fst e <> []
                      /\ snd e = occurrences datePosted (fst e) data)
            (timeline dateSort data)
  /\ (timeline dateSort data <> [] ->
      exists e, timelinePeak dateSort data = Some e
                /\ In e (timeline dateSort data)
                /\ snd e = timelineMax dateSort data).
Proof.
  intros Hperm.
  set (dated := List.filter (fun j => truthy (datePosted j)) data).
  pose proof (timeline_perm dateSort Hperm data) as Hp. fold dated in Hp.
  destruct (countBy_keys datePosted dated) as (Hnd & Hkeys & _).
  assert (Hentry : forall e, In e (timeline dateSort data) ->
            (1 <= snd e)%nat /\ fst e <> []
            /\ snd e = occurrences datePosted (fst e) data).
  { intros [d c] He. apply list_elem_of_In in He. rewrite Hp in He.
    apply list_elem_of_In in He.
    pose proof (getCount_entry _ _ _ Hnd He) as Hc.
    rewrite getCount_countBy in Hc. cbn [fst snd].
    assert (Hd : In d (List.map datePosted dated)).
    { apply Hkeys. change d with (fst (d, c)). now apply in_map. }
    apply in_map_iff in Hd as (j & Hj & Hjin).
    apply filter_In in Hjin as [Hjin Htr].
    assert (Hne : d <> []) by (intros ->; rewrite Hj in Htr; discriminate).
    assert (Hocc : occurrences datePosted d dated = occurrences datePosted d data).
    { unfold occurrences, dated. rewrite filter_filter_and. f_equal.
      apply filter_ext. intros r.
      destruct (decide (datePosted r = d)) as [Hr|Hr].
      - rewrite (bool_decide_eq_true_2 _ Hr), Hr.
        destruct d; [congruence | reflexivity].
      - rewrite (bool_decide_eq_false_2 _ Hr). apply andb_false_r. }
    split; [|split; [assumption | congruence]].
    rewrite <- Hc. unfold occurrences.
    assert (Hf : In j (List.filter (fun j => bool_decide (datePosted j = d)) dated)).
    { apply filter_In. split; [now apply filter_In | now apply bool_decide_eq_true_2]. }
    destruct (List.filter _ dated); [destruct Hf | simpl; lia]. }
  destruct (max_fold_bound (List.map snd (timeline dateSort data))) as [Hmax _].
  fold (timelineMax dateSort data) in Hmax.
  split; [|split; [|split]].
  - assert (Hk : List.map fst (timeline dateSort data)
                 ≡ₚ List.map fst (countBy datePosted dated))
      by now apply Permutation_map.
    now rewrite Hk.
  - rewrite <- (countBy_sum datePosted dated). apply list_sum_perm.
    now apply Permutation_map.
  - apply Forall_forall. intros e He. apply list_elem_of_In in He.
    destruct (Hentry e He) as (H1 & H2 & H3).
    repeat split; try assumption.
    rewrite Forall_forall in Hmax. apply (Hmax (snd e)).
    apply list_elem_of_In. now apply in_map.
  - intros Hne.
    assert (Hatt : In (timelineMax dateSort data)
                      (List.map snd (timeline dateSort data))).
    { apply max_fold_attained.
      - destruct (timeline dateSort data); [congruence | discriminate].
      - apply Forall_forall. intros c Hc.
        apply list_elem_of_In, in_map_iff in Hc as (e & <- & He).
        now destruct (Hentry e He). }
    apply in_map_iff in Hatt as (e0 & He0 & Hin0).
    unfold timelinePeak.
    destruct (List.find _ (timeline dateSort data)) as [e|] eqn:Ef.
    + apply find_some in Ef as [Hin Heq]. apply Nat.eqb_eq in Heq. now exists e.
    + exfalso. apply (find_none _ _ Ef) in Hin0.
      apply Nat.eqb_neq in Hin0. congruence.
Qed.

Lemma timeline_peak_found_witness :
  exists e, timelinePeak (fun l => l) wageSample = Some e
            /\ snd e = timelineMax (fun l => l) wageSample.
Proof.
  destruct (timeline_peak_found (fun l => l) wageSample) as (_ & _ & _ & H).
  - intros l. reflexivity.
  - destruct H as (e & He & _ & Hmax); [discriminate|].
    exists e. now split.
Defined.

(** X21.  The figure in the middle of the freshness ring, the sum of the
    first two buckets, is the number of records posted on or after the
    10-day cutoff date, compared as strings, on a host whose offset is
    the same at the reference and at the midnights 5 and 10 days before
    it. *)
Theorem withinTenDays_counts
    (host : Z -> bool -> Z) (tz : Z) (data : list JobRecord) :
  -1440 < tz <= 1440 ->
  offsetHeld host tz [5; 10] ->
  withinTenDays (buckets host data)
  = length (List.filter
              (fun j => str_geb (datePosted j) (cutoffStr host 10)) data).
Proof.
  intros Htz Hh.
  assert (H5 : cutoffStr host 5 = isoOfDay (Day (today host) - 5))
    by (apply (cutoffStr_iso host tz _ Hh); cbn [In]; lia).
  assert (H10 : cutoffStr host 10 = isoOfDay (Day (today host) - 10))
    by (apply (cutoffStr_iso host tz _ Hh); cbn [In]; lia).
  assert (Hlt : str_ltb (cutoffStr host 10) (cutoffStr host 5) = true).
  { rewrite H5, H10, (Day_today host tz _ Hh) by assumption.
    destruct (0 <? tz); reflexivity. }
  unfold buckets, ranges.
  cbn [bucketLoop bucketStep maxDays prevMaxOf lookup list_lookup default
       withinTenDays count ranges Datatypes.id].
  rewrite !filter_not_in_filter, !filter_filter_and.
  set (q := fun j => str_geb (datePosted j) (cutoffStr host 10)).
  rewrite <- (filter_length_split (matches host 5 0) (List.filter q data)).
  rewrite !filter_filter_and.
  assert (Hj : forall j,
            str_ltb (datePosted j) (cutoffStr host 10) = true ->
            str_ltb (datePosted j) (cutoffStr host 5) = true)
    by (intros j H; exact (str_ltb_trans _ _ _ H Hlt)).
  f_equal; f_equal; apply filter_ext; intros j; specialize (Hj j);
    unfold q, matches; cbn [Z.eqb];
    rewrite ?prevStr_iso, <- ?H5 by lia; unfold str_geb;
    destruct (str_ltb (datePosted j) (cutoffStr host 5)),
      (str_ltb (datePosted j) (cutoffStr host 10));
    try reflexivity; specialize (Hj eq_refl); discriminate.
Qed.

Lemma withinTenDays_counts_witness :
  withinTenDays (buckets (fixedOffset (-420)) wageSample) = 4%nat.
Proof.
  rewrite (withinTenDays_counts (fixedOffset (-420)) (-420) wageSample).
  - reflexivity.
  - lia.
  - split; [reflexivity | repeat constructor].
Defined.

(** ** The pickers, the search box and the date range *)

Section OptionFacts.
Variable localeSort : list jsstring -> list jsstring.
Variable optionSort : list (jsstring * nat) -> list (jsstring * nat).
Hypothesis localeSort_perm : forall l, localeSort l ≡ₚ l.
Hypothesis optionSort_perm : forall l, optionSort l ≡ₚ l.

Lemma options_facts (field : JobRecord -> jsstring) (base : list JobRecord) :
  let options := optionSort (countBy field base) in
  NoDup (List.map fst options)
  /\ (forall v, In v (List.map fst options) <-> In v (List.map field base))
  /\ list_sum (List.map snd options) = length base
  /\ Forall (fun o => snd o = occurrences field (fst o) base /\ (1 <= snd o)%nat)
            options.
Proof.
  cbn zeta.
  destruct (countBy_keys field base) as (Hnd & Hkeys & _).
  assert (Hk : List.map fst (optionSort (countBy field base))
               ≡ₚ List.map fst (countBy field base))
    by apply Permutation_map, optionSort_perm.
  split; [now rewrite Hk|]. split; [|split].
  - intros v. rewrite <- Hkeys, <- !list_elem_of_In. now rewrite Hk.
  - rewrite <- (countBy_sum field base). apply list_sum_perm.
    apply Permutation_map, optionSort_perm.
  - pose proof (rank_entries field base) as Hall. unfold rank in Hall.
    rewrite sortDesc_perm in Hall. rewrite optionSort_perm.
    eapply Forall_impl; [exact Hall|]. cbn beta. intros o [? ?]. split; [assumption | lia].
Qed.

Lemma clean_values (jobs : list JobRecord) (field : JobRecord -> jsstring) :
  Forall (fun j => field j <> [] /\ trim (field j) = field j) jobs ->
  forall v, In v (getUniqueValues localeSort jobs field)
            <-> In v (List.map field jobs).
Proof.
  intros Hclean v. rewrite getUniqueValues_In by assumption.
  rewrite in_map_iff. rewrite Forall_forall in Hclean. split.
  - intros (Hne & r & Hr & Hv). exists r. split; [|assumption].
    destruct (Hclean r) as [_ Ht]; [now apply list_elem_of_In|]. congruence.
  - intros (r & Hv & Hr).
    destruct (Hclean r) as [Hne Ht]; [now apply list_elem_of_In|].
    split; [congruence|]. exists r. split; [assumption | congruence].
Qed.

End OptionFacts.

(** X22.  The options of the employer picker are the distinct employers
    of the records of the active category, each once, with the number of
    those records that carry it, so the counts add up to the size of that
    category.  When no category is active and every employer of the store
    is written without surrounding white space and is not blank, the
    initial selection ticks every option, and the picker reports all
    selected and no value excluded. *)
Theorem employerOptions_picker
    (localeSort : list jsstring -> list jsstring)
    (optionSort : list (jsstring * nat) -> list (jsstring * nat))
    (jobs : list JobRecord) (activeCategory : option jsstring) :
  (forall l, localeSort l ≡ₚ l) ->
  (forall l, optionSort l ≡ₚ l) ->
  let options := employerOptions optionSort jobs activeCategory in
  let base := optionBase jobs activeCategory in
  NoDup (List.map fst options)
  /\ (forall v, In v (List.map fst options) <-> In v (List.map employer base))
  /\ list_sum (List.map snd options) = length base
  /\ Forall (fun o => snd o = occurrences employer (fst o) base
                      /\ (1 <= snd o)%nat) options
  /\ (activeCategory = None ->
      Forall (fun j => employer j <> [] /\ trim (employer j) = employer j) jobs ->
      let selected := selectedEmployers (initialState localeSort jobs) in
      Forall (fun o => checked selected o = true) options
      /\ isAllSelected options selected = true
      /\ activeCount options selected = 0).
Proof.
  intros Hls Hos. cbn zeta. unfold employerOptions.
  destruct (options_facts optionSort Hos employer (optionBase jobs activeCategory))
    as (Hnd & Hkeys & Hsum & Hall).
  split; [exact Hnd|]. split; [exact Hkeys|]. split; [exact Hsum|].
  split; [exact Hall|].
  intros Hcat Hclean. subst activeCategory. cbn [optionBase] in *.
  cbn [initialState selectedEmployers].
  pose proof (clean_values localeSort Hls jobs employer Hclean) as Hval.
  assert (Hlen : length (optionSort (countBy employer jobs))
                 = length (getUniqueValues localeSort jobs employer)).
  { rewrite <- (length_map fst (optionSort (countBy employer jobs))).
    apply Permutation_length.
    apply NoDup_Permutation;
      [ exact Hnd
      | now apply getUniqueValues_NoDup
      | intros v; rewrite !list_elem_of_In, Hkeys, Hval; reflexivity ]. }
  split; [|split].
  - apply Forall_forall. intros o Ho. unfold checked.
    apply bool_decide_eq_true_2, elem_of_list_to_set, list_elem_of_In, Hval, Hkeys.
    apply in_map. now apply list_elem_of_In.
  - unfold isAllSelected. rewrite full_set_size by assumption.
    apply Nat.eqb_eq. now symmetry.
  - unfold activeCount. rewrite full_set_size by assumption. lia.
Qed.

Lemma employerOptions_picker_witness :
  activeCount (employerOptions (fun l => l) wageSample None)
              (selectedEmployers (initialState (fun l => l) wageSample)) = 0.
Proof.
  destruct (employerOptions_picker (fun l => l) (fun l => l) wageSample None)
    as (_ & _ & _ & _ & H).
  - intros l. reflexivity.
  - intros l. reflexivity.
  - destruct H as (_ & _ & H); [reflexivity | | exact H].
    repeat constructor; discriminate.
Defined.

Lemma startsWith_includes (s p : jsstring) :
  startsWith s p = true -> includes s p = true.
Proof. destruct s; simpl; now intros ->. Qed.

(** X23.  A search for the very title, employer or location of a record
    of the store never loses that record, whatever the host's
    [toLowerCase] does to the text. *)
Theorem search_own_text_finds_record
    (localeSort : list jsstring -> list jsstring)
    (toLowerCase : jsstring -> jsstring)
    (jobs : list JobRecord) (j : JobRecord) :
  (forall l, localeSort l ≡ₚ l) ->
  In j jobs ->
  Forall
    (fun q => In j (filteredJobs localeSort toLowerCase jobs
                      (setSearchText q (initialState localeSort jobs))))
    [jobTitle j; employer j; location j].
Proof.
  intros Hperm Hj.
  assert (H : forall q,
            includes (toLowerCase (jobTitle j)) (toLowerCase q)
            || includes (toLowerCase (employer j)) (toLowerCase q)
            || includes (toLowerCase (location j)) (toLowerCase q) = true ->
            In j (filteredJobs localeSort toLowerCase jobs
                    (setSearchText q (initialState localeSort jobs)))).
  { intros q Hq. rewrite filteredJobs_filter. apply filter_In.
    split; [assumption|].
    destruct (initialState_passes localeSort toLowerCase Hperm jobs j)
      as (_ & He & Hl & Hs & _).
    unfold passes.
    change (selectedEmployers (setSearchText q (initialState localeSort jobs)))
      with (selectedEmployers (initialState localeSort jobs)).
    change (selectedLocations (setSearchText q (initialState localeSort jobs)))
      with (selectedLocations (initialState localeSort jobs)).
    change (selectedStatuses (setSearchText q (initialState localeSort jobs)))
      with (selectedStatuses (initialState localeSort jobs)).
    rewrite He, Hl, Hs.
    unfold passSearch, setSearchText. cbn [searchText].
    rewrite Hq. now rewrite orb_true_r. }
  repeat constructor; apply H; rewrite includes_refl;
    rewrite ?orb_true_r; reflexivity.
Qed.

Lemma search_own_text_finds_record_witness :
  In (sampleJob 2 "Architect" "Intel" "2026-02-21" (Some 120000%Q))
     (filteredJobs (fun l => l) (fun s => s) wageSample
        (setSearchText (js "Intel") (initialState (fun l => l) wageSample))).
Proof.
  pose proof (search_own_text_finds_record (fun l => l) (fun s => s) wageSample
                (sampleJob 2 "Architect" "Intel" "2026-02-21" (Some 120000%Q)))
    as H.
  assert (Hall := H ltac:(intros l; reflexivity) ltac:(right; now left)).
  apply Forall_cons in Hall as [_ Hall].
  apply Forall_cons in Hall as [Hemp _]. exact Hemp.
Defined.

Lemma str_ltb_total (a : jsstring) :
  forall b : jsstring,
    str_ltb a b = false -> str_ltb b a = false -> a = b.
Proof.
  induction a as [|x a IH]; intros [|y b] Hab Hba; try discriminate;
    [reflexivity|].
  cbn [str_ltb] in *.
  destruct (N.ltb_spec x y); [discriminate|].
  destruct (N.ltb_spec y x); [discriminate|].
  assert (x = y) by lia. subst y. f_equal. now apply IH.
Qed.

(** X24.  With both date bounds set to the same day and no other filter,
    the pipeline keeps exactly the records posted on that day. *)
Theorem single_day_range
    (localeSort : list jsstring -> list jsstring)
    (toLowerCase : jsstring -> jsstring)
    (jobs : list JobRecord) (d : jsstring) :
  (forall l, localeSort l ≡ₚ l) ->
  d <> [] ->
  filteredJobs localeSort toLowerCase jobs
    (setDateTo d (setDateFrom d (initialState localeSort jobs)))
  = List.filter (fun j => str_eqb (datePosted j) d) jobs.
Proof.
  intros Hperm Hd. rewrite filteredJobs_filter. apply filter_ext. intros j.
  destruct (initialState_passes localeSort toLowerCase Hperm jobs j)
    as (_ & He & Hl & Hs & _).
  unfold passes.
  change (selectedEmployers (setDateTo d (setDateFrom d (initialState localeSort jobs))))
    with (selectedEmployers (initialState localeSort jobs)).
  change (selectedLocations (setDateTo d (setDateFrom d (initialState localeSort jobs))))
    with (selectedLocations (initialState localeSort jobs)).
  change (selectedStatuses (setDateTo d (setDateFrom d (initialState localeSort jobs))))
    with (selectedStatuses (initialState localeSort jobs)).
  rewrite He, Hl, Hs.
  unfold passCategory, passWage, passDateFrom, passDateTo, passSearch,
    setDateTo, setDateFrom, initialState.
  cbn [activeCategory wageFilter dateFrom dateTo searchText].
  change (trim []) with (@nil N).
  change (str_eqb (js "all") (js "all")) with true.
  destruct d as [|c d]; [congruence|].
  cbn [truthy negb orb andb]. rewrite andb_true_r.
  unfold str_geb, str_leb, str_eqb.
  destruct (decide (datePosted j = c :: d)) as [Heq|Hne].
  - rewrite (bool_decide_eq_true_2 _ Heq), Heq, str_ltb_irrefl. reflexivity.
  - rewrite (bool_decide_eq_false_2 _ Hne).
    destruct (str_ltb (datePosted j) (c :: d)) eqn:E1; [reflexivity|].
    destruct (str_ltb (c :: d) (datePosted j)) eqn:E2; [reflexivity|].
    exfalso. apply Hne. now apply str_ltb_total.
Qed.

Lemma single_day_range_witness :
  List.map id
    (filteredJobs (fun l => l) (fun s => s) wageSample
       (setDateTo (js "2026-02-21")
          (setDateFrom (js "2026-02-21") (initialState (fun l => l) wageSample))))
  = [2].
Proof.
  rewrite (single_day_range (fun l => l) (fun s => s) wageSample (js "2026-02-21")).
  - reflexivity.
  - intros l. reflexivity.
  - discriminate.
Defined.

(** X25.  What the de-duplication of the phrases does ensure: of two
    phrases kept, the one kept later is never a substring of the one kept
    earlier, and it contains the earlier one only when its own count is
    strictly smaller; so of two kept phrases with the same count neither
    contains the other. *)
Theorem selected_containment (data : list JobRecord) :
  StronglySorted keptApart (selected data)
  /\ forall pre x mid y post,
       selected data = pre ++ x :: mid ++ y :: post ->
       snd x = snd y ->
       includes (fst x) (fst y) = false /\ includes (fst y) (fst x) = false.
Proof.
  pose proof (selected_keptApart data) as Hs.
  split; [exact Hs|].
  intros pre x mid y post Heq Hcnt. rewrite Heq in Hs.
  apply StronglySorted_app in Hs as (_ & _ & Hs).
  apply StronglySorted_cons in Hs as [Hx _].
  rewrite Forall_forall in Hx.
  destruct (Hx y) as [H1 H2]; [apply elem_of_app; right; now left|].
  split; [exact H1|].
  destruct (includes (fst y) (fst x)); [|reflexivity].
  specialize (H2 eq_refl). lia.
Qed.
